(** * plantowatch-ranker: the AniList client and the batch pipeline

    A shallow embedding of [anilist_api.py] (the request executor
    [_make_request], the batched decoder [fetchCompletedAnime], the windowed
    crawler [fetchAnimeCompleters]) and of [collect_userdata.py] (the batch
    generator [fetch_and_store_ratings], the checkpoint files and [main]),
    followed by the properties of the specification that concern them.

    Python values that travel through JSON are kept as JSON trees and the
    operations on them raise what Python raises; the network is a fixed
    sequence of outcomes, one per [requests.post]. *)

From Stdlib Require Import ZArith List String Ascii Bool Lia.
From Stdlib Require Import DecimalString DecimalZ FinFun Sorted.
Import ListNotations.
Local Open Scope Z_scope.
Local Set Warnings "-register-all".

(* ================================================================= *)
(** ** Python values, exceptions, dictionaries *)

Module Py.

(** A value decoded by [response.json()] or [json.load]: [None], a bool, an
    int, a str, a list, or a dict with str keys in insertion order (a parsed
    object has no repeated key).  JSON numbers with a fraction do not occur in
    the queried fields and are left out. *)
Inductive json : Type :=
| JNull
| JBool (b : bool)
| JNum (n : Z)
| JStr (s : string)
| JArr (items : list json)
| JObj (fields : list (string * json)).

(** The exception caught by [except requests.exceptions.RequestException]. *)
Inductive request_exception : Type :=
| ConnectionError                (* requests.post itself failed *)
| HTTPError (status : Z)         (* response.raise_for_status() *)
| InvalidJSONError.              (* response.json() on a body that is not JSON;
                                    a RequestException since requests 2.27 *)

Inductive exn : Type :=
| AnilistRequestError (cause : option request_exception)
| AnilistPrivateUser (users_in_batch : list json)
| AnilistUserNotFound (users_in_batch : list json)
| UnboundLocalError (name : string)
| TypeError
| KeyError
| IndexError
| AttributeError
| ValueError
| ZeroDivisionError
| FileNotFoundError
| JSONDecodeError
| UnicodeDecodeError
| Unmodelled (what : string).    (* behaviour outside this embedding *)

Inductive result (A : Type) : Type :=
| Ok (a : A)
| Raise (e : exn).
Arguments Ok {A} a.
Arguments Raise {A} e.

Definition bind {A B} (r : result A) (k : A -> result B) : result B :=
  match r with
  | Ok a => k a
  | Raise e => Raise e
  end.

Declare Scope py_scope.
Delimit Scope py_scope with py.
Notation "x <- r ;; k" := (bind r (fun x => k))
  (at level 61, r at next level, right associativity) : py_scope.

(** [str(n)] for an int. *)
Definition str_of_Z (n : Z) : string := NilEmpty.string_of_int (Z.to_int n).

(** [range(n)]. *)
Definition range (n : Z) : list Z := map Z.of_nat (seq 0 (Z.to_nat n)).

(** [enumerate(l, 1)]. *)
Definition enumerate1 {A} (l : list A) : list (Z * A) :=
  combine (map (fun i => Z.of_nat i) (seq 1 (List.length l))) l.

(** [s.startswith(p)]. *)
Definition startswith (s p : string) : bool := String.prefix p s.

Section Dict.
Context {K V : Type} (eqb : K -> K -> bool).

(** A dict as the list of its items in insertion order. *)
Fixpoint dict_get (d : list (K * V)) (k : K) : option V :=
  match d with
  | [] => None
  | (k', v) :: rest => if eqb k' k then Some v else dict_get rest k
  end.

(** [d[k] = v]: a present key keeps its place, a new one goes last. *)
Fixpoint dict_set (d : list (K * V)) (k : K) (v : V) : list (K * V) :=
  match d with
  | [] => [(k, v)]
  | (k', v') :: rest =>
      if eqb k' k then (k', v) :: rest else (k', v') :: dict_set rest k v
  end.

Definition dict_mem (d : list (K * V)) (k : K) : bool :=
  match dict_get d k with Some _ => true | None => false end.
End Dict.

Definition sget {V} := @dict_get string V String.eqb.
Definition sset {V} := @dict_set string V String.eqb.

(** [j == s] for a str literal [s]. *)
Definition eq_str (j : json) (s : string) : bool :=
  match j with
  | JStr t => String.eqb t s
  | _ => false
  end.

(** [k in j] for a str [k]. *)
Definition contains (k : string) (j : json) : result bool :=
  match j with
  | JObj d => Ok (dict_mem String.eqb d k)
  | JArr l => Ok (existsb (fun x => eq_str x k) l)
  | JStr s => Ok (match String.index 0 k s with Some _ => true | None => false end)
  | _ => Raise TypeError
  end.

(** [j[k]] for a str [k]. *)
Definition getitem (j : json) (k : string) : result json :=
  match j with
  | JObj d => match sget d k with Some v => Ok v | None => Raise KeyError end
  | _ => Raise TypeError
  end.

(** [j[0]]. *)
Definition getitem0 (j : json) : result json :=
  match j with
  | JArr (x :: _) => Ok x
  | JArr [] => Raise IndexError
  | JStr (String c _) => Ok (JStr (String c EmptyString))
  | JStr EmptyString => Raise IndexError
  | JObj _ => Raise KeyError
  | _ => Raise TypeError
  end.

(** [j.get(k, dflt)]. *)
Definition get (j : json) (k : string) (dflt : json) : result json :=
  match j with
  | JObj d => Ok (match sget d k with Some v => v | None => dflt end)
  | _ => Raise AttributeError
  end.

(** The items visited by [for x in j]. *)
Definition iter (j : json) : result (list json) :=
  match j with
  | JArr l => Ok l
  | JObj d => Ok (map (fun kv => JStr (fst kv)) d)
  | JStr s => Ok (map (fun c => JStr (String c EmptyString)) (list_ascii_of_string s))
  | _ => Raise TypeError
  end.

(** [j > 0]. *)
Definition gt0 (j : json) : result bool :=
  match j with
  | JNum n => Ok (0 <? n)
  | JBool b => Ok b
  | _ => Raise TypeError
  end.

(** Truth value of [j], as tested by [if not j]. *)
Definition truthy (j : json) : bool :=
  match j with
  | JNull => false
  | JBool b => b
  | JNum n => negb (n =? 0)
  | JStr s => negb (String.eqb s "")
  | JArr l => match l with [] => false | _ => true end
  | JObj d => match d with [] => false | _ => true end
  end.

(** [str(j)]; the [repr]-based text of a list or dict is not modelled. *)
Definition str (j : json) : result string :=
  match j with
  | JNull => Ok "None"%string
  | JBool true => Ok "True"%string
  | JBool false => Ok "False"%string
  | JNum n => Ok (str_of_Z n)
  | JStr s => Ok s
  | _ => Raise (Unmodelled "str of a container")
  end.

(** The results of [f] on the items of [l], up to the first exception. *)
Fixpoint mapM {A B} (f : A -> result B) (l : list A) : result (list B) :=
  match l with
  | [] => Ok []
  | x :: rest =>
      match f x with
      | Raise e => Raise e
      | Ok y => match mapM f rest with
                | Raise e => Raise e
                | Ok ys => Ok (y :: ys)
                end
      end
  end.

(** A [string.Template]: its text cut at the placeholders, [$name] or
    [${name}]; an escaped [$$] is text. *)
Inductive piece : Type :=
| Text (s : string)
| Placeholder (name : string).

(** [template.substitute] with the given keyword arguments: the pieces are
    replaced from left to right, and a placeholder that has no value raises
    KeyError. *)
Fixpoint substitute (template : list piece) (mapping : list (string * string))
  : result string :=
  match template with
  | [] => Ok EmptyString
  | Text t :: rest =>
      match substitute rest mapping with
      | Raise e => Raise e
      | Ok r => Ok (t ++ r)%string
      end
  | Placeholder name :: rest =>
      match sget mapping name with
      | None => Raise KeyError
      | Some v =>
          match substitute rest mapping with
          | Raise e => Raise e
          | Ok r => Ok (v ++ r)%string
          end
      end
  end.

(** The line feed of ['\n'.join(...)]. *)
Definition newline : string := String "010"%char EmptyString.

(** Keys of a dict and members of a set: None, bools, ints and strs are
    hashable, lists and dicts are not; [True == 1] and [False == 0]. *)
Definition hashable (j : json) : bool :=
  match j with
  | JArr _ | JObj _ => false
  | _ => true
  end.

Definition key_num (j : json) : option Z :=
  match j with
  | JNum n => Some n
  | JBool b => Some (if b then 1 else 0)
  | _ => None
  end.

Definition key_eqb (a b : json) : bool :=
  match a, b with
  | JNull, JNull => true
  | JStr s, JStr t => String.eqb s t
  | _, _ => match key_num a, key_num b with
            | Some n, Some m => n =? m
            | _, _ => false
            end
  end.

(** [s.add(x)] on a set kept as the list of its members (the order in which
    Python iterates over a set is not modelled). *)
Definition set_add (s : list json) (x : json) : result (list json) :=
  if hashable x then
    Ok (if existsb (key_eqb x) s then s else (s ++ [x])%list)
  else Raise TypeError.

(** [s.update(xs)] and [set(xs)]. *)
Fixpoint set_update (s : list json) (xs : list json) : result (list json) :=
  match xs with
  | [] => Ok s
  | x :: rest =>
      match set_add s x with
      | Raise e => Raise e
      | Ok s' => set_update s' rest
      end
  end.

End Py.
Import Py.
Local Open Scope py_scope.

(* ================================================================= *)
(** ** anilist_api.py *)

Module AnilistAPI.

(** The service is a sequence of outcomes, one per POST, and what the
    client sends is recorded as the variables of each POST.  The text of a
    GraphQL document is modelled where building it can fail: the templates
    of [fetchCompletedAnime] escape the [$] of their GraphQL variables
    ([$$]) and are given every placeholder they name, so their substitution
    always succeeds and is left out; the template of [fetchAnimeCompleters]
    is [query_template] below. *)

(** What [_make_request] reads of a [requests.Response]: the status and the
    value of [response.json()], [None] when the body is not JSON (the call
    then raises a JSONDecodeError).  [response.text] and [response.headers]
    only feed the log text. *)
Record http_response : Type := {
  status_code : Z;
  body : option json
}.

(** One call of [requests.post]. *)
Inductive attempt : Type :=
| ConnectionFailed                 (* raises before [response] is bound *)
| Replied (r : http_response).

(** The observable effects of the client: the variables of every POST, the
    back-off sleeps, and the number of [_rate_limit] calls (its sub-second
    pacing depends on the wall clock and is not modelled). *)
Record world : Type := {
  sent : list (list (string * json));
  slept : list Z;
  rate_limited : nat
}.

Definition world0 : world := {| sent := []; slept := []; rate_limited := 0 |}.

Definition _rate_limit (w : world) : world :=
  {| sent := sent w; slept := slept w; rate_limited := S (rate_limited w) |}.

Definition sleep (t : Z) (w : world) : world :=
  {| sent := sent w; slept := (slept w ++ [t])%list; rate_limited := rate_limited w |}.

(** The locals of [_make_request] that outlive a loop iteration; [None] is an
    unbound name. *)
Record locals : Type := {
  response : option http_response;
  data : option json
}.

Definition no_locals : locals := {| response := None; data := None |}.

Definition max_retries : Z := 10.

(** [response.raise_for_status()] raises for 4xx and 5xx. *)
Definition raises_for_status (r : http_response) : bool :=
  (400 <=? status_code r) && (status_code r <? 600).

(** [[value for key, value in variables.items()
      if key.startswith(('username', 'id'))]] *)
Definition users_in_batch (variables : list (string * json)) : list json :=
  map snd (filter (fun kv => startswith (fst kv) "username" || startswith (fst kv) "id")
                  variables).

(** A user is named by a username or by a numeric id. *)
Inductive user : Type :=
| UserName (s : string)
| UserId (n : Z).

Definition user_eqb (a b : user) : bool :=
  match a, b with
  | UserName s, UserName t => String.eqb s t
  | UserId n, UserId m => n =? m
  | _, _ => false
  end.

Definition user_value (u : user) : json :=
  match u with
  | UserName s => JStr s
  | UserId n => JNum n
  end.

(** An argument that is one item or a list of them (lines 124-127). *)
Inductive one_or_many (A : Type) : Type :=
| One (a : A)
| Many (l : list A).
Arguments One {A} a.
Arguments Many {A} l.

Definition as_list {A} (x : one_or_many A) : list A :=
  match x with
  | One a => [a]
  | Many l => l
  end.

(** The namedtuple; its fields hold what the response held. *)
Record AnimeEntry : Type := {
  mediaId : json;
  title_romaji : json;
  score : json
}.

(** How a generator's run ends: exhausted, by an exception, or still running
    when the fuel of the model ran out. *)
Inductive gen_end : Type :=
| StopIteration
| Raised (e : exn)
| Pending.

Section Client.
(** The outcome of the n-th [requests.post] of the run, n counted from 0. *)
Variable upstream : nat -> attempt.

Definition post (variables : list (string * json)) (w : world) : attempt * world :=
  (upstream (List.length (sent w)),
   {| sent := (sent w ++ [variables])%list; slept := slept w;
      rate_limited := rate_limited w |}).

(** Lines 64-66, the [try] body: the JSON returned, or the
    RequestException raised, with the locals it leaves. *)
Definition try_request (a : attempt) (l : locals)
  : (json + request_exception) * locals :=
  match a with
  | ConnectionFailed => (inr ConnectionError, l)
  | Replied r =>
      let l' := {| response := Some r; data := data l |} in
      if raises_for_status r then (inr (HTTPError (status_code r)), l')
      else match body r with
           | Some j => (inl j, l')
           | None => (inr InvalidJSONError, l')
           end
  end.

(** Lines 68-81, the 404 inspection inside the handler. *)
Definition inspect_404 (variables : list (string * json)) (l : locals)
  : result locals :=
  match response l with
  | None => Raise (UnboundLocalError "response")
  | Some r =>
      if status_code r =? 404 then
        let l' := match body r with
                  | Some j => {| response := response l; data := Some j |}
                  | None => l        (* except json.JSONDecodeError: pass *)
                  end in
        match data l' with
        | None => Raise (UnboundLocalError "data")
        | Some d =>
            has_errors <- contains "errors" d ;;
            if (has_errors : bool) then
              errors <- getitem d "errors" ;;
              first <- getitem0 errors ;;
              error_message <- get first "message" (JStr "") ;;
              if eq_str error_message "Private User" then
                Raise (AnilistPrivateUser (users_in_batch variables))
              else if eq_str error_message "User not found" then
                Raise (AnilistUserNotFound (users_in_batch variables))
              else Ok l'
            else Ok l'
        end
      else Ok l
  end.

(** The [for attempt in range(max_retries)] loop, [todo] iterations left. *)
Fixpoint request_loop (variables : list (string * json)) (todo : nat)
    (attempt : Z) (l : locals) (w : world) : result json * world :=
  match todo with
  | O => (Raise (AnilistRequestError None), w)            (* line 102 *)
  | S todo' =>
      let (a, w1) := post variables (_rate_limit w) in
      match try_request a l with
      | (inl j, _) => (Ok j, w1)
      | (inr e, l1) =>
          match inspect_404 variables l1 with
          | Raise x => (Raise x, w1)
          | Ok l2 =>
              let wait_time := 60 * (attempt + 1) in
              if attempt <? max_retries - 1 then
                request_loop variables todo' (attempt + 1) l2 (sleep wait_time w1)
              else (Raise (AnilistRequestError (Some e)), w1)
          end
      end
  end.

Definition _make_request (variables : list (string * json)) (w : world)
  : result json * world :=
  request_loop variables (Z.to_nat max_retries) 0 no_locals w.

(* --------------------------------------------------------------- *)
(** *** fetchCompletedAnime *)

(** Lines 164-175: the variable bound to each user, in order. *)
Definition var_name (is_username : bool) (i : Z) : string :=
  ((if is_username then "username" else "id") ++ str_of_Z i)%string.

Fixpoint bind_users (is_username : bool) (ius : list (Z * user))
    (variables : list (string * json)) : list (string * json) :=
  match ius with
  | [] => variables
  | (i, u) :: rest =>
      bind_users is_username rest (sset variables (var_name is_username i) (user_value u))
  end.

(** Lines 196-200. *)
Definition anime_entry (entry : json) : result AnimeEntry :=
  m <- getitem entry "mediaId" ;;
  media <- getitem entry "media" ;;
  title <- getitem media "title" ;;
  romaji <- getitem title "romaji" ;;
  s <- getitem entry "score" ;;
  Ok {| mediaId := m; title_romaji := romaji; score := s |}.

(** Lines 195-200, the inner loop over one list's entries. *)
Definition list_entries (list_entry : json) : result (list AnimeEntry) :=
  es <- getitem list_entry "entries" ;;
  items <- iter es ;;
  mapM anime_entry items.

(** Lines 193-200. *)
Definition user_entries (user_data : json) : result (list AnimeEntry) :=
  lists <- getitem user_data "lists" ;;
  ls <- iter lists ;;
  ess <- mapM list_entries ls ;;
  Ok (List.concat ess).

(** Lines 188-201, the decoding loop. *)
Fixpoint decode_users (response : json) (ius : list (Z * user))
    (res : list (user * list AnimeEntry)) : result (list (user * list AnimeEntry)) :=
  match ius with
  | [] => Ok res
  | (i, u) :: rest =>
      d <- getitem response "data" ;;
      user_data <- getitem d ("u" ++ str_of_Z i) ;;
      match user_data with
      | JNull => decode_users response rest res       (* warning; continue *)
      | _ =>
          entries <- user_entries user_data ;;
          decode_users response rest (dict_set user_eqb res u entries)
      end
  end.

Definition fetchCompletedAnime
    (usernames : option (one_or_many string)) (userids : option (one_or_many Z))
    (w : world) : result (list (user * list AnimeEntry)) * world :=
  match usernames, userids with
  | None, None | Some _, Some _ => (Raise ValueError, w)
  | _, _ =>
      let usernames := option_map as_list usernames in
      let userids := option_map as_list userids in
      let is_username := match usernames with Some _ => true | None => false end in
      (* users = usernames or userids *)
      let users := match usernames with
                   | Some ((_ :: _) as l) => Some (map UserName l)
                   | _ => option_map (map UserId) userids
                   end in
      match users with
      | None => (Raise TypeError, w)                    (* enumerate(None, 1) *)
      | Some users =>
          let variables := bind_users is_username (enumerate1 users) [] in
          match _make_request variables w with
          | (Raise e, w') => (Raise e, w')
          | (Ok response, w') => (decode_users response (enumerate1 users) [], w')
          end
      end
  end.

(* --------------------------------------------------------------- *)
(** *** fetchAnimeCompleters *)

(** Lines 293-301. *)
Fixpoint bind_pages (page : Z) (ixs : list Z) (variables : list (string * json))
  : list (string * json) :=
  match ixs with
  | [] => variables
  | i :: rest =>
      let current_page := page + i in
      bind_pages page rest
        (sset variables ("page" ++ str_of_Z current_page) (JNum current_page))
  end.

Definition window_variables (mediaId pages_per_query page : Z)
  : list (string * json) :=
  bind_pages page (range pages_per_query)
    [("mediaID"%string, JNum mediaId); ("perPage"%string, JNum 50)].

(** Lines 273-288, the template of the query: [$mediaID] and [$perPage]
    stand in it unescaped, so that they are placeholders of the template
    like [${page_vars}] and [${page_queries}] (line breaks and indentation
    of the text are not kept). *)
Definition query_template : list piece :=
  [Text "query MediaCompleters(";
   Placeholder "mediaID"; Text ": Int, ";
   Placeholder "perPage"; Text ": Int, ";
   Placeholder "page_vars"; Text ") { ";
   Placeholder "page_queries";
   Text " } fragment mediaListFragment on Page { pageInfo { currentPage hasNextPage } mediaList(mediaId: ";
   Placeholder "mediaID";
   Text ", status: COMPLETED) { userId score(format: POINT_100) } }"].

(** Lines 296-300: the declarations and the aliased sub-queries of the
    pages of a window. *)
Definition page_vars (page : Z) (ixs : list Z) : list string :=
  map (fun i => ("page" ++ str_of_Z (page + i) ++ ": Int")%string) ixs.

Definition page_queries (page : Z) (ixs : list Z) : list string :=
  map (fun i => ("p" ++ str_of_Z (page + i) ++ ": Page(page: $page"
                  ++ str_of_Z (page + i)
                  ++ ", perPage: $perPage) {...mediaListFragment}")%string) ixs.

(** Lines 304-307: [query_template.substitute(page_vars=..., page_queries=...)]. *)
Definition build_query (pages_per_query page : Z) : result string :=
  substitute query_template
    [("page_vars"%string,
      String.concat ", " (page_vars page (range pages_per_query)));
     ("page_queries"%string,
      String.concat newline (page_queries page (range pages_per_query)))].

(** Lines 321-323: the values yielded for one page's entries, and the
    exception that ends the generator among them, if any. *)
Fixpoint yield_entries (entries : list json) : list json * option exn :=
  match entries with
  | [] => ([], None)
  | entry :: rest =>
      match (s <- getitem entry "score" ;; gt0 s) with
      | Raise e => ([], Some e)
      | Ok false => yield_entries rest
      | Ok true =>
          match getitem entry "userId" with
          | Raise e => ([], Some e)
          | Ok uid => let (ys, r) := yield_entries rest in (uid :: ys, r)
          end
      end
  end.

(** Lines 314-327, the loop over the pages of one response: the values
    yielded and either the exception raised or [has_next_page] at the
    loop's exit. *)
Fixpoint scan_window (response : json) (page : Z) (ixs : list Z)
    (has_next_page : json) : list json * (exn + json) :=
  match ixs with
  | [] => ([], inr has_next_page)
  | i :: rest =>
      let current_page := page + i in
      match (d <- getitem response "data" ;;
             getitem d ("p" ++ str_of_Z current_page)) with
      | Raise e => ([], inl e)
      | Ok JNull => ([], inr has_next_page)                      (* break *)
      | Ok page_data =>
          match (ml <- getitem page_data "mediaList" ;; iter ml) with
          | Raise e => ([], inl e)
          | Ok entries =>
              match yield_entries entries with
              | (ys, Some e) => (ys, inl e)
              | (ys, None) =>
                  match (info <- getitem page_data "pageInfo" ;;
                         getitem info "hasNextPage") with
                  | Raise e => (ys, inl e)
                  | Ok h =>
                      if truthy h then
                        let (ys', r) := scan_window response page rest h in
                        ((ys ++ ys')%list, r)
                      else (ys, inr h)                           (* break *)
                  end
              end
          end
      end
  end.

(** The [while True] loop from cursor [page], at most [fuel] windows. *)
Fixpoint crawl (fuel : nat) (mediaId pages_per_query page : Z) (w : world)
  : list json * gen_end * world :=
  match fuel with
  | O => ([], Pending, w)
  | S fuel' =>
      match build_query pages_per_query page with
      | Raise e => ([], Raised e, w)
      | Ok query =>
          match _make_request (window_variables mediaId pages_per_query page) w with
          | (Raise e, w1) => ([], Raised e, w1)
          | (Ok response, w1) =>
              match scan_window response page (range pages_per_query) (JBool false) with
              | (ys, inl e) => (ys, Raised e, w1)
              | (ys, inr has_next_page) =>
                  if truthy has_next_page then
                    let '(ys', ending, w2) :=
                      crawl fuel' mediaId pages_per_query (page + pages_per_query) w1 in
                    ((ys ++ ys')%list, ending, w2)
                  else (ys, StopIteration, w1)
              end
          end
      end
  end.

Definition fetchAnimeCompleters (fuel : nat) (mediaId pages_per_query : Z)
    (w : world) : list json * gen_end * world :=
  crawl fuel mediaId pages_per_query 1 w.

(* --------------------------------------------------------------- *)
(** *** fetchPlanningAnime *)

(** Line 254, for the entries of one list. *)
Fixpoint plan_entries (entries : list json) (planning_anime : list (json * json))
  : result (list (json * json)) :=
  match entries with
  | [] => Ok planning_anime
  | entry :: rest =>
      media <- getitem entry "media" ;;
      title <- getitem media "title" ;;
      romaji <- getitem title "romaji" ;;
      k <- getitem entry "mediaId" ;;
      if hashable k then plan_entries rest (dict_set key_eqb planning_anime k romaji)
      else Raise TypeError
  end.

(** Lines 252-254. *)
Fixpoint plan_lists (lists : list json) (planning_anime : list (json * json))
  : result (list (json * json)) :=
  match lists with
  | [] => Ok planning_anime
  | lst :: rest =>
      es <- getitem lst "entries" ;;
      items <- iter es ;;
      planning_anime' <- plan_entries items planning_anime ;;
      plan_lists rest planning_anime'
  end.

(** Lines 250-256. *)
Definition decode_planning (response : json) : result (list (json * json)) :=
  d <- getitem response "data" ;;
  collection <- getitem d "MediaListCollection" ;;
  match collection with
  | JNull => Ok []
  | _ =>
      lists <- getitem collection "lists" ;;
      ls <- iter lists ;;
      plan_lists ls []
  end.

(** Lines 248-256. *)
Definition request_planning (variables : list (string * json)) (w : world)
  : result (list (json * json)) * world :=
  match _make_request variables w with
  | (Raise e, w') => (Raise e, w')
  | (Ok response, w') => (decode_planning response, w')
  end.

Definition fetchPlanningAnime (userid : option Z) (username : option string)
    (w : world) : result (list (json * json)) * world :=
  match userid, username with
  | Some n, None => request_planning [("id"%string, JNum n)] w
  | None, Some s => request_planning [("username"%string, JStr s)] w
  | _, _ => (Raise ValueError, w)
  end.

(* --------------------------------------------------------------- *)
(** *** fetchAnimeCompleters, one [next] at a time

    The generator as its consumer drives it: where it is suspended, and
    what one [next] does from there. *)

(** Lines 321-323 resumed in the middle of a page: the next value to yield
    with the entries left after it, if any. *)
Fixpoint next_entry (entries : list json) : result (option (json * list json)) :=
  match entries with
  | [] => Ok None
  | entry :: rest =>
      positive <- (s <- getitem entry "score" ;; gt0 s) ;;
      if (positive : bool) then
        uid <- getitem entry "userId" ;;
        Ok (Some (uid, rest))
      else next_entry rest
  end.

(** Lines 321-327 from the entries left of a page: the value yielded with
    the entries left, or [has_next_page] as the page sets it. *)
Definition in_page (page_data : json) (entries : list json)
  : result ((json * list json) + json) :=
  found <- next_entry entries ;;
  match found with
  | Some yielded => Ok (inl yielded)
  | None =>
      info <- getitem page_data "pageInfo" ;;
      h <- getitem info "hasNextPage" ;;
      Ok (inr h)
  end.

(** Where the generator is suspended: before its first [next], at a [yield]
    inside the page [page_data] of [response] (with the entries and the page
    indices still to visit), or finished. *)
Inductive completers : Type :=
| NotStarted
| AtYield (response : json) (page : Z) (ixs : list Z) (page_data : json)
          (entries : list json)
| Finished.

(** What runs until the next [yield] within one response: a value with the
    new suspension point, an exception, or the exit of the page loop with
    the value of [has_next_page]. *)
Inductive in_window : Type :=
| Yields (v : json) (g : completers)
| Raises (e : exn)
| Exits (has_next_page : json).

(** Lines 314-327 from the page indices [ixs] on. *)
Fixpoint next_in_window (response : json) (page : Z) (ixs : list Z)
    (has_next_page : json) : in_window :=
  match ixs with
  | [] => Exits has_next_page
  | i :: rest =>
      let current_page := page + i in
      match (d <- getitem response "data" ;;
             getitem d ("p" ++ str_of_Z current_page)) with
      | Raise e => Raises e
      | Ok JNull => Exits has_next_page                          (* break *)
      | Ok page_data =>
          match (ml <- getitem page_data "mediaList" ;; iter ml) with
          | Raise e => Raises e
          | Ok entries =>
              match in_page page_data entries with
              | Raise e => Raises e
              | Ok (inl (v, entries')) =>
                  Yields v (AtYield response page rest page_data entries')
              | Ok (inr h) =>
                  if truthy h then next_in_window response page rest h
                  else Exits h                                   (* break *)
              end
          end
      end
  end.

(** The same, resumed after a [yield]. *)
Definition resume_in_window (response : json) (page : Z) (ixs : list Z)
    (page_data : json) (entries : list json) : in_window :=
  match in_page page_data entries with
  | Raise e => Raises e
  | Ok (inl (v, entries')) => Yields v (AtYield response page ixs page_data entries')
  | Ok (inr h) =>
      if truthy h then next_in_window response page ixs h
      else Exits h
  end.

(** What a [next] gives: a value and the new suspension point, or the end
    of the generator. *)
Inductive pulled : Type :=
| Yielded (v : json) (g : completers)
| Ended (e : gen_end).

(** Lines 291-332 from the top of the [while] loop with cursor [page]. *)
Fixpoint next_from (fuel : nat) (mediaId pages_per_query page : Z) (w : world)
  : pulled * world :=
  match fuel with
  | O => (Ended Pending, w)
  | S fuel' =>
      match build_query pages_per_query page with
      | Raise e => (Ended (Raised e), w)
      | Ok query =>
          match _make_request (window_variables mediaId pages_per_query page) w with
          | (Raise e, w1) => (Ended (Raised e), w1)
          | (Ok response, w1) =>
              match next_in_window response page (range pages_per_query)
                                   (JBool false) with
              | Yields v g => (Yielded v g, w1)
              | Raises e => (Ended (Raised e), w1)
              | Exits has_next_page =>
                  if truthy has_next_page then
                    next_from fuel' mediaId pages_per_query (page + pages_per_query) w1
                  else (Ended StopIteration, w1)
              end
          end
      end
  end.

(** One [next] on the generator [fetchAnimeCompleters(mediaId,
    pages_per_query)] suspended at [g]. *)
Definition next (fuel : nat) (mediaId pages_per_query : Z) (g : completers)
    (w : world) : pulled * world :=
  match g with
  | NotStarted => next_from fuel mediaId pages_per_query 1 w
  | AtYield response page ixs page_data entries =>
      match resume_in_window response page ixs page_data entries with
      | Yields v g' => (Yielded v g', w)
      | Raises e => (Ended (Raised e), w)
      | Exits has_next_page =>
          if truthy has_next_page then
            next_from fuel mediaId pages_per_query (page + pages_per_query) w
          else (Ended StopIteration, w)
      end
  | Finished => (Ended StopIteration, w)
  end.

End Client.

End AnilistAPI.

(* ================================================================= *)
(** ** collect_userdata.py *)

Module CollectUserdata.
Import AnilistAPI.

(** [ratings]: media id text -> the list of [{user id text: score}] items. *)
Definition ratings_table : Type := list (string * list json).

(** [ratings[k].append(item)] on a [defaultdict(list)]. *)
Definition append_rating (ratings : ratings_table) (k : string) (item : json)
  : ratings_table :=
  sset ratings k (match sget ratings k with
                  | Some l => (l ++ [item])%list
                  | None => [item]
                  end).

(** [str(user_id)]. *)
Definition user_str (u : user) : string :=
  match u with
  | UserName s => s
  | UserId n => str_of_Z n
  end.

(** Lines 44-45. *)
Fixpoint store_user (ratings : ratings_table) (user_id : user)
    (user_anime : list AnimeEntry) : result ratings_table :=
  match user_anime with
  | [] => Ok ratings
  | anime :: rest =>
      k <- str (mediaId anime) ;;
      store_user (append_rating ratings k (JObj [(user_str user_id, score anime)]))
                 user_id rest
  end.

(** Lines 43-45. *)
Fixpoint store_batch (ratings : ratings_table)
    (batch_anime : list (user * list AnimeEntry)) : result ratings_table :=
  match batch_anime with
  | [] => Ok ratings
  | (user_id, user_anime) :: rest =>
      ratings' <- store_user ratings user_id user_anime ;;
      store_batch ratings' rest
  end.

(** A slice bound as Python clips it against a list of length [len]. *)
Definition slice_index (len i : Z) : Z :=
  if i <? 0 then Z.max 0 (i + len) else Z.min i len.

(** [l[start:stop]] and [l[start:]]. *)
Definition slice {A} (l : list A) (start stop : Z) : list A :=
  let len := Z.of_nat (List.length l) in
  let a := slice_index len start in
  let b := slice_index len stop in
  firstn (Z.to_nat (b - a)) (skipn (Z.to_nat a) l).

Definition slice_from {A} (l : list A) (start : Z) : list A :=
  skipn (Z.to_nat (slice_index (Z.of_nat (List.length l)) start)) l.

(** [floor(log2(a / b))] for positive [a] and [b]. *)
Definition log2_quotient (a b : Z) : Z :=
  let d := Z.log2 a - Z.log2 b in
  if (if 0 <=? d then b * 2 ^ d <=? a else b <=? a * 2 ^ (- d)) then d else d - 1.

(** The integer nearest to [n / d], ties to the even one, for [0 <= n] and
    [0 < d]. *)
Definition round_half_even (n d : Z) : Z :=
  let k := n / d in
  let r := n mod d in
  if 2 * r <? d then k
  else if d <? 2 * r then k + 1
  else if Z.even k then k else k + 1.

(** [a / b] for positive ints: the float that Python returns is the
    binary64 number nearest to the quotient (ties to even), here as the
    pair [(m, e)] of the value [m * 2^e]: 53 bits of mantissa, and an
    exponent that is not below -1074 (smaller quotients lose bits, and
    those below [2^-1075] become 0.0).  A quotient beyond the largest
    float raises OverflowError in Python; the quotient of a list length by
    an int is never that large, and the case is not modelled. *)
Definition truediv (a b : Z) : Z * Z :=
  let e := Z.max (-1074) (log2_quotient a b - 52) in
  (if e <? 0 then round_half_even (a * 2 ^ (- e)) b
   else round_half_even a (b * 2 ^ e),
   e).

(** [math.ceil(a / b)] for [b <> 0]: the ceiling of the float quotient. *)
Definition ceil_div (a b : Z) : Z :=
  if a =? 0 then 0
  else
    let (m, e) := truediv (Z.abs a) (Z.abs b) in
    if Bool.eqb (a <? 0) (b <? 0) then         (* a positive float *)
      if e <? 0 then - ((- m) / 2 ^ (- e)) else m * 2 ^ e
    else
      if e <? 0 then - (m / 2 ^ (- e)) else - (m * 2 ^ e).

(** The triple yielded by [fetch_and_store_ratings]. *)
Record checkpoint : Type := {
  ratings : ratings_table;
  remaining_users : list Z;
  last_batch : Z
}.

Section Pipeline.
Variable upstream : nat -> attempt.

(** Lines 27-50: the checkpoints yielded from the batches [batch_nums] on,
    how the generator ends, its [ratings] then, and the effects. *)
Fixpoint batch_loop (user_ids : list Z) (batch_size total_batches : Z)
    (batch_nums : list Z) (ratings : ratings_table) (w : world)
  : list checkpoint * gen_end * ratings_table * world :=
  match batch_nums with
  | [] => ([], StopIteration, ratings, w)
  | batch_num :: rest =>
      let start_idx := batch_num * batch_size in
      let end_idx := Z.min ((batch_num + 1) * batch_size)
                           (Z.of_nat (List.length user_ids)) in
      let batch := slice user_ids start_idx end_idx in
      match fetchCompletedAnime upstream None (Some (Many batch)) w with
      | (Raise (AnilistPrivateUser _), w1)
      | (Raise (AnilistUserNotFound _), w1) =>
          batch_loop user_ids batch_size total_batches rest ratings w1  (* continue *)
      | (Raise (AnilistRequestError _), w1) =>
          ([], StopIteration, ratings, w1)                              (* return *)
      | (Raise e, w1) => ([], Raised e, ratings, w1)
      | (Ok batch_anime, w1) =>
          match store_batch ratings batch_anime with
          | Raise e => ([], Raised e, ratings, w1)
          | Ok ratings' =>
              if ((batch_num + 1) mod 20 =? 0) || (batch_num =? total_batches - 1)
              then
                let '(cs, ending, final, w2) :=
                  batch_loop user_ids batch_size total_batches rest ratings' w1 in
                ({| ratings := ratings';
                    remaining_users := slice_from user_ids end_idx;
                    last_batch := batch_num |} :: cs, ending, final, w2)
              else batch_loop user_ids batch_size total_batches rest ratings' w1
          end
      end
  end.

Definition fetch_and_store_ratings (user_ids : list Z) (batch_size : Z) (w : world)
  : list checkpoint * gen_end * ratings_table * world :=
  if batch_size =? 0 then ([], Raised ZeroDivisionError, [], w)
  else
    let total_batches := ceil_div (Z.of_nat (List.length user_ids)) batch_size in
    batch_loop user_ids batch_size total_batches (range total_batches) [] w.

End Pipeline.

(** A file: missing, holding bytes that are not text in the encoding it is
    read with, holding text that is not JSON, or holding the text of a JSON
    value.  [json.dump] then [json.load] gives back the value written;
    every dict written here has str keys. *)
Inductive file : Type :=
| Absent
| NotText
| NotJson
| Json (j : json).

(** Lines 52-63; [None] is returned after the logged failure. *)
Definition load_checkpoint (checkpoint_file : file)
  : result (option (list (string * json) * json * json)) :=
  match checkpoint_file with
  | Absent | NotJson => Ok None
  | NotText => Raise UnicodeDecodeError             (* not caught by line 61 *)
  | Json checkpoint_data =>
      r <- getitem checkpoint_data "ratings" ;;
      match r with
      | JObj loaded =>                                  (* defaultdict(list, ...) *)
          remaining <- getitem checkpoint_data "remaining_users" ;;
          last <- getitem checkpoint_data "last_batch" ;;
          Ok (Some (loaded, remaining, last))
      | _ => Raise (Unmodelled "defaultdict from a value that is not a dict")
      end
  end.

(** Lines 65-72: the content written. *)
Definition save_checkpoint (ratings : list (string * json))
    (remaining_users last_batch : json) : file :=
  Json (JObj [("ratings"%string, JObj ratings);
              ("remaining_users"%string, remaining_users);
              ("last_batch"%string, last_batch)]).

(** Lines 74-76. *)
Definition save_results (ratings : list (string * json)) : file :=
  Json (JObj ratings).

(** A value of [main]'s [ratings]: a list of its own (loaded from the
    checkpoint), or the very list object that the generator holds under the
    same key and keeps appending to. *)
Inductive rating_ref : Type :=
| Own (v : json)
| Shared.

(** [ratings.update(updated_ratings)]. *)
Definition update (mine : list (string * rating_ref)) (updated : ratings_table)
  : list (string * rating_ref) :=
  fold_left (fun m kv => sset m (fst kv) Shared) updated mine.

(** The content of [main]'s [ratings] while the generator holds [gen]. *)
Definition deref (gen : ratings_table) (mine : list (string * rating_ref))
  : list (string * json) :=
  map (fun kr => (fst kr,
                  match snd kr with
                  | Own v => v
                  | Shared => JArr (match sget gen (fst kr) with
                                    | Some l => l
                                    | None => []
                                    end)
                  end)) mine.

(** The list of ints in a JSON value; user ids of another shape are outside
    this embedding. *)
Definition as_user_ids (j : json) : result (list Z) :=
  match j with
  | JArr l => mapM (fun x => match x with
                             | JNum n => Ok n
                             | _ => Raise (Unmodelled "a user id that is not an int")
                             end) l
  | _ => Raise (Unmodelled "user ids that are not a list")
  end.

(** The two members of the required, mutually exclusive argument group. *)
Inductive input : Type :=
| userid_list
| checkpoint_file.

Record disk : Type := {
  userid_list_file : file;
  checkpoint_file_content : file;
  ratings_out : file
}.

(** How the process ends: [main] returned, or an exception reached the top. *)
Inductive exit : Type :=
| Returned
| Uncaught (e : exn).

Definition exit_status (x : exit) : Z :=
  match x with
  | Returned => 0
  | Uncaught _ => 1
  end.

Section Main.
Variable upstream : nat -> attempt.

(** Lines 104-108: the loop over the yielded checkpoints. *)
Fixpoint consume (save : bool) (cs : list checkpoint)
    (mine : list (string * rating_ref)) (ckpt : file)
  : list (string * rating_ref) * file :=
  match cs with
  | [] => (mine, ckpt)
  | c :: rest =>
      let mine' := update mine (ratings c) in
      let ckpt' :=
        if save then
          save_checkpoint (deref (ratings c) mine')
                          (JArr (map JNum (remaining_users c)))
                          (JNum (last_batch c))
        else ckpt in
      consume save rest mine' ckpt'
  end.

(** Lines 103-112. *)
Definition run (save : bool) (mine : list (string * rating_ref))
    (user_ids : list Z) (batch_size : Z) (d : disk) : disk * exit :=
  let '(cs, ending, final, _) :=
    fetch_and_store_ratings upstream user_ids batch_size world0 in
  let (mine', ckpt) := consume save cs mine (checkpoint_file_content d) in
  let d1 := {| userid_list_file := userid_list_file d;
               checkpoint_file_content := ckpt;
               ratings_out := ratings_out d |} in
  match ending with
  | Raised e => (d1, Uncaught e)
  | _ =>
      ({| userid_list_file := userid_list_file d;
          checkpoint_file_content := ckpt;
          ratings_out := save_results (deref final mine') |}, Returned)
  end.

Definition main (arg : input) (batch_size : Z) (d : disk) : disk * exit :=
  match arg with
  | userid_list =>
      match userid_list_file d with
      | Absent => (d, Uncaught FileNotFoundError)
      | NotText => (d, Uncaught UnicodeDecodeError)
      | NotJson => (d, Uncaught JSONDecodeError)
      | Json j =>
          match as_user_ids j with
          | Raise e => (d, Uncaught e)
          | Ok user_ids => run false [] user_ids batch_size d
          end
      end
  | checkpoint_file =>
      match load_checkpoint (checkpoint_file_content d) with
      | Raise e => (d, Uncaught e)
      | Ok None => (d, Returned)
      | Ok (Some (loaded, remaining, _)) =>
          match as_user_ids remaining with
          | Raise e => (d, Uncaught e)
          | Ok user_ids =>
              run true (map (fun kv => (fst kv, Own (snd kv))) loaded)
                  user_ids batch_size d
          end
      end
  end.

End Main.

End CollectUserdata.

(* ================================================================= *)
(** ** collect_ratings.py *)

Module CollectRatings.
Import AnilistAPI.

(** [a // b] and [a % b]. *)
Definition floordiv (a b : Z) : result Z :=
  if b =? 0 then Raise ZeroDivisionError else Ok (a / b).

Definition modulo (a b : Z) : result Z :=
  if b =? 0 then Raise ZeroDivisionError else Ok (a mod b).

(** Lines 41-50, the body of the loop over the completers: the set and the
    count after it, and whether the loop breaks. *)
Definition add_user (n_others : Z) (other_users : list json) (users_added : Z)
    (other_user : json) : result (list json * Z * bool) :=
  other_users' <- set_add other_users other_user ;;
  let users_added' := users_added + 1 in
  percentage <- floordiv (users_added' * 100) n_others ;;
  printed <- (if 0 <? percentage then
                step <- floordiv n_others 100 ;;
                m <- modulo users_added' step ;;
                Ok (m =? 0)
              else Ok false) ;;
  Ok (other_users', users_added', n_others <=? users_added').

(** How the loop over one anime's completers ends; [OutOfFuel] when the
    fuel of the model ran out first. *)
Inductive loop_end : Type :=
| Broke
| Exhausted
| Threw (e : exn)
| OutOfFuel.

(** How [main] ends: the user ids written, an uncaught exception, or the
    fuel of the model running out.  The file holds the members of the set
    in the order Python iterates over it. *)
Inductive outcome : Type :=
| Wrote (other_users : list json)
| Crashed (e : exn)
| Unfinished.

Section Crawl.
Variable upstream : nat -> attempt.
(** At most [steps] completers are taken per anime, and each [next]
    requests at most [fuel] windows. *)
Variables steps fuel : nat.
(** The order in which a [for] loop visits a set with the given members. *)
Variable set_iter : list json -> list json.

(** Lines 39-50 for one anime, the generator being suspended at [g]. *)
Fixpoint add_completers (todo : nat) (n_others mediaId : Z) (g : completers)
    (other_users : list json) (users_added : Z) (w : world)
  : list json * Z * loop_end * world :=
  match todo with
  | O => (other_users, users_added, OutOfFuel, w)
  | S todo' =>
      match next upstream fuel mediaId 5 g w with
      | (Ended StopIteration, w1) => (other_users, users_added, Exhausted, w1)
      | (Ended (Raised e), w1) => (other_users, users_added, Threw e, w1)
      | (Ended Pending, w1) => (other_users, users_added, OutOfFuel, w1)
      | (Yielded other_user g', w1) =>
          match add_user n_others other_users users_added other_user with
          | Raise e => (other_users, users_added, Threw e, w1)
          | Ok (other_users', users_added', true) =>
              (other_users', users_added', Broke, w1)
          | Ok (other_users', users_added', false) =>
              add_completers todo' n_others mediaId g' other_users' users_added' w1
          end
      end
  end.

(** Lines 32-61, the loop over the search set. *)
Fixpoint crawl_animes (n_others : Z) (animes : list json) (other_users : list json)
    (w : world) : outcome * world :=
  match animes with
  | [] => (Wrote other_users, w)
  | JNum anime_id :: rest =>
      match add_completers steps n_others anime_id NotStarted other_users 0 w with
      | (other_users', _, Broke, w1)
      | (other_users', _, Exhausted, w1) => crawl_animes n_others rest other_users' w1
      | (_, _, Threw e, w1) => (Crashed e, w1)
      | (_, _, OutOfFuel, w1) => (Unfinished, w1)
      end
  | _ :: _ => (Crashed (Unmodelled "a media id that is not an int"), w)
  end.

(** Lines 19-65. *)
Definition main (username : string) (n_others : Z) : outcome * world :=
  match fetchCompletedAnime upstream (Some (One username)) None world0 with
  | (Raise e, w) => (Crashed e, w)
  | (Ok completed, w) =>
      match dict_get user_eqb completed (UserName username) with
      | None => (Crashed KeyError, w)
      | Some user_completed =>
          match fetchPlanningAnime upstream None (Some username) w with
          | (Raise e, w1) => (Crashed e, w1)
          | (Ok user_planning, w1) =>
              match (completed_ids <- set_update [] (map mediaId user_completed) ;;
                     set_update completed_ids (map fst user_planning)) with
              | Raise e => (Crashed e, w1)
              | Ok search_set => crawl_animes n_others (set_iter search_set) [] w1
              end
          end
      end
  end.

End Crawl.

End CollectRatings.

(* ================================================================= *)
(** ** similarity.py, the table of scores per user (lines 94-106) *)

Module Similarity.

(** Lines 103-106 for the items of one rating. *)
Fixpoint add_scores (anime_id : string) (items : list (string * json))
    (data_dict : list (string * list (string * json)))
  : list (string * list (string * json)) :=
  match items with
  | [] => data_dict
  | (user_id, score) :: rest =>
      let row := match sget data_dict user_id with
                 | Some r => r
                 | None => []
                 end in
      add_scores anime_id rest (sset data_dict user_id (sset row anime_id score))
  end.

(** Lines 102-106 for the ratings of one anime; [rating.items()] needs a
    dict. *)
Fixpoint add_ratings (anime_id : string) (ratings : list json)
    (data_dict : list (string * list (string * json)))
  : result (list (string * list (string * json))) :=
  match ratings with
  | [] => Ok data_dict
  | JObj items :: rest => add_ratings anime_id rest (add_scores anime_id items data_dict)
  | _ :: _ => Raise AttributeError
  end.

(** Lines 101-106. *)
Fixpoint add_animes (ratings_data : list (string * json))
    (data_dict : list (string * list (string * json)))
  : result (list (string * list (string * json))) :=
  match ratings_data with
  | [] => Ok data_dict
  | (anime_id, ratings) :: rest =>
      rs <- iter ratings ;;
      data_dict' <- add_ratings anime_id rs data_dict ;;
      add_animes rest data_dict'
  end.

(** Lines 98-106 on the loaded [ratings_data]; [.items()] needs a dict. *)
Definition data_dict_of (ratings_data : json)
  : result (list (string * list (string * json))) :=
  match ratings_data with
  | JObj d => add_animes d []
  | _ => Raise AttributeError
  end.

End Similarity.

(* ================================================================= *)
(** ** Well-formed upstream data

    The shapes that the GraphQL service returns for the two batched queries,
    and their JSON form.  The theorems below speak about responses built by
    these encoders. *)

Module Upstream.
Import AnilistAPI.

(** A 2xx reply whose body is the JSON value [j]. *)
Definition ok (j : json) : attempt :=
  Replied {| status_code := 200; body := Some j |}.

(** A completed-list entry: media id, romaji title (a str or null), score. *)
Definition anime : Type := (Z * json * Z)%type.

Definition encode_anime (a : anime) : json :=
  let '(m, t, s) := a in
  JObj [("mediaId"%string, JNum m);
        ("media"%string, JObj [("title"%string, JObj [("romaji"%string, t)])]);
        ("score"%string, JNum s)].

Definition to_entry (a : anime) : AnimeEntry :=
  let '(m, t, s) := a in
  {| mediaId := JNum m; title_romaji := t; score := JNum s |}.

(** One aliased [MediaListCollection]: null, or the user's lists. *)
Definition encode_user (p : option (list (list anime))) : json :=
  match p with
  | None => JNull
  | Some lists =>
      JObj [("lists"%string,
             JArr (map (fun es => JObj [("entries"%string, JArr (map encode_anime es))])
                       lists))]
  end.

(** The response to a batch: [u1], [u2], ... in order. *)
Definition encode_batch (payloads : list (option (list (list anime)))) : json :=
  JObj [("data"%string,
         JObj (map (fun ip => (("u" ++ str_of_Z (fst ip))%string, encode_user (snd ip)))
                   (enumerate1 payloads)))].

(** The response to the planning query: a null collection, or lists of
    (media id, romaji title) entries. *)
Definition encode_planned (e : Z * json) : json :=
  JObj [("mediaId"%string, JNum (fst e));
        ("media"%string, JObj [("title"%string, JObj [("romaji"%string, snd e)])])].

Definition encode_planning (p : option (list (list (Z * json)))) : json :=
  JObj [("data"%string,
         JObj [("MediaListCollection"%string,
                match p with
                | None => JNull
                | Some lists =>
                    JObj [("lists"%string,
                           JArr (map (fun es => JObj [("entries"%string,
                                                       JArr (map encode_planned es))])
                                     lists))]
                end)])].

(** A page of completers: (user id, score) items and the [hasNextPage] flag. *)
Record page : Type := {
  mediaList : list (Z * Z);
  hasNextPage : bool
}.

Definition encode_completer (e : Z * Z) : json :=
  JObj [("userId"%string, JNum (fst e)); ("score"%string, JNum (snd e))].

Definition encode_page (n : Z) (p : option page) : json :=
  match p with
  | None => JNull
  | Some pg =>
      JObj [("pageInfo"%string,
             JObj [("currentPage"%string, JNum n);
                   ("hasNextPage"%string, JBool (hasNextPage pg))]);
            ("mediaList"%string, JArr (map encode_completer (mediaList pg)))]
  end.

(** The response to the window of [pages_per_query] pages from [cursor],
    when page [n] of the item holds [pages n]. *)
Definition encode_window (pages : Z -> option page) (pages_per_query cursor : Z) : json :=
  JObj [("data"%string,
         JObj (map (fun i => (("p" ++ str_of_Z (cursor + i))%string,
                              encode_page (cursor + i) (pages (cursor + i))))
                   (range pages_per_query)))].

(** The 404 reply with which the service refuses a request, [message]
    being "Private User" or "User not found". *)
Definition refusal (message : string) : attempt :=
  Replied {| status_code := 404;
             body := Some (JObj [("errors"%string,
                                  JArr [JObj [("message"%string, JStr message)]])]) |}.

End Upstream.
Import Upstream.

(* ================================================================= *)
(** ** The vocabulary of the properties *)

Module Spec.
Import AnilistAPI.

(** The user ids of the entries with a positive score, in order. *)
Definition positive_ids (es : list (Z * Z)) : list Z :=
  map fst (filter (fun e => 0 <? snd e) es).

(** The pages of a window that are returned and processed: those before the
    first absent one, up to and including the first without a next page. *)
Fixpoint returned (pages : Z -> option page) (nums : list Z) : list page :=
  match nums with
  | [] => []
  | n :: rest =>
      match pages n with
      | None => []
      | Some pg => pg :: (if hasNextPage pg then returned pages rest else [])
      end
  end.

Definition window (pages : Z -> option page) (pages_per_query cursor : Z) : list page :=
  returned pages (map (fun i => cursor + i) (range pages_per_query)).

(** Whether the last page returned in a window reported [hasNextPage]. *)
Definition last_has_next (ps : list page) : bool :=
  last (map hasNextPage ps) false.

(** The user ids that a window contributes. *)
Definition window_ids (pages : Z -> option page) (pages_per_query cursor : Z) : list Z :=
  flat_map (fun pg => positive_ids (mediaList pg)) (window pages pages_per_query cursor).

(** The entry made for a user whose aliased result is not null. *)
Definition keep (res : list (user * list AnimeEntry))
    (up : user * option (list (list anime))) : list (user * list AnimeEntry) :=
  match snd up with
  | None => res
  | Some lists => dict_set user_eqb res (fst up) (map to_entry (List.concat lists))
  end.

(** What the mapping [res] holds for the users of a batch, named through
    [mk], whose aliased results are [ups]: nothing for a user whose results
    are all null, and the entries of the last non-null result otherwise. *)
Definition skips_null_users {A} (mk : A -> user)
    (ups : list (A * option (list (list anime))))
    (res : list (user * list AnimeEntry)) : Prop :=
  (forall u, (forall p, In (u, p) ups -> p = None) ->
     dict_get user_eqb res (mk u) = None)
  /\ (forall pre u lists post,
        ups = (pre ++ (u, Some lists) :: post)%list ->
        (forall p, In (u, p) post -> p = None) ->
        dict_get user_eqb res (mk u) = Some (map to_entry (List.concat lists))).

(** [enumerate(l, n)]. *)
Definition enumerate_from {A} (n : nat) (l : list A) : list (Z * A) :=
  combine (map (fun i => Z.of_nat i) (seq n (List.length l))) l.

(** The back-off after the first [m] failed attempts. *)
Definition backoff (m : nat) : list Z :=
  map (fun k => 60 * Z.of_nat k) (seq 1 m).

(** The effects of [n] more requests with the given variables, after which
    the client has slept through [waits]. *)
Definition after (w : world) (requests : list (list (string * json))) (waits : list Z)
  : world :=
  {| sent := (sent w ++ requests)%list;
     slept := (slept w ++ waits)%list;
     rate_limited := (rate_limited w + List.length requests)%nat |}.

(** A reply that fails and that the 404 inspection lets through to the retry
    branch: an error status, or a body that is not JSON. *)
Definition fails_generically (r : http_response) : bool :=
  (raises_for_status r || match body r with None => true | Some _ => false end)
  && match inspect_404 [] {| response := Some r; data := None |} with
     | Ok _ => true
     | Raise _ => false
     end.

(** The RequestException that such a reply raises in the [try] body. *)
Definition failure_of (r : http_response) : request_exception :=
  if raises_for_status r then HTTPError (status_code r) else InvalidJSONError.

(** [item] is in the list that [ratings] holds under [k]. *)
Definition recorded (ratings : CollectUserdata.ratings_table) (k : string) (item : json)
  : Prop :=
  exists l, sget ratings k = Some l /\ In item l.

(** A user has been folded into [ratings]: some item is keyed by their id. *)
Definition folded (u : Z) (ratings : CollectUserdata.ratings_table) : Prop :=
  exists k s, recorded ratings k (JObj [(str_of_Z u, s)]).

(** The number of leading users covered by the batches up to the one a
    checkpoint was yielded after. *)
Definition processed (user_ids : list Z) (batch_size : Z)
    (c : CollectUserdata.checkpoint) : nat :=
  Z.to_nat (Z.min ((CollectUserdata.last_batch c + 1) * batch_size)
                  (Z.of_nat (List.length user_ids))).

(** An attempt that fails and goes to the retry branch once [response] is
    bound: a failure of [requests.post] itself, or a generic failure. *)
Definition retried (a : attempt) : bool :=
  match a with
  | ConnectionFailed => true
  | Replied r => fails_generically r
  end.

(** The RequestException that such an attempt raises. *)
Definition failure_at (a : attempt) : request_exception :=
  match a with
  | ConnectionFailed => ConnectionError
  | Replied r => failure_of r
  end.

(** The title of the last planning entry with media id [m]. *)
Definition planned (lists : list (list (Z * json))) (m : Z) : option json :=
  option_map snd (find (fun e => fst e =? m) (rev (List.concat lists))).

(** The users of batch [b]. *)
Definition batch_of (user_ids : list Z) (batch_size b : Z) : list Z :=
  CollectUserdata.slice user_ids (b * batch_size)
    (Z.min ((b + 1) * batch_size) (Z.of_nat (List.length user_ids))).

(** The variables sent for a batch of user ids. *)
Definition batch_variables_of (ids : list Z) : list (string * json) :=
  map (fun iu => (("id" ++ str_of_Z (fst iu))%string, JNum (snd iu))) (enumerate1 ids).

(** Batch [b] is one after which a checkpoint is due. *)
Definition due (total_batches b : Z) : bool :=
  ((b + 1) mod 20 =? 0) || (b =? total_batches - 1).

(** The ratings loaded from a checkpoint, as [main] holds them. *)
Definition own (loaded : list (string * json))
  : list (string * CollectUserdata.rating_ref) :=
  map (fun kv => (fst kv, CollectUserdata.Own (snd kv))) loaded.

(** Media id [k] is a key of the ratings of some checkpoint of [cs]. *)
Definition met (cs : list CollectUserdata.checkpoint) (k : string) : bool :=
  existsb (fun c => dict_mem String.eqb (CollectUserdata.ratings c) k) cs.

(** The table [r'] holds every list of [r], with items appended at most. *)
Definition extends (r r' : CollectUserdata.ratings_table) : Prop :=
  forall k l, sget r k = Some l -> exists l', sget r' k = Some (l ++ l')%list.

(** A ratings file of the shape that [save_results] writes: under every
    media id a list of dicts. *)
Definition is_ratings_file (ratings_data : list (string * json)) : Prop :=
  forall k v, In (k, v) ratings_data -> exists rs, v = JArr (map JObj rs).

Definition items_of (rating : json) : list (string * json) :=
  match rating with
  | JObj items => items
  | _ => []
  end.

Definition ratings_of (v : json) : list json :=
  match v with
  | JArr rs => rs
  | _ => []
  end.

(** The (anime id, user id, score) triples of a ratings file, in the order
    of the file. *)
Definition scores (ratings_data : list (string * json))
  : list (string * string * json) :=
  flat_map (fun ar =>
              flat_map (fun r => map (fun us => (fst ar, fst us, snd us)) (items_of r))
                       (ratings_of (snd ar)))
           ratings_data.

(** The score of the last triple for a user and an anime. *)
Definition last_score (ts : list (string * string * json)) (user_id anime_id : string)
  : option json :=
  option_map snd
    (find (fun t => String.eqb (snd (fst t)) user_id && String.eqb (fst (fst t)) anime_id)
          (rev ts)).

(** [data_dict[user_id][anime_id]], when both keys are present. *)
Definition cell (data_dict : list (string * list (string * json)))
    (user_id anime_id : string) : option json :=
  match sget data_dict user_id with
  | Some row => sget row anime_id
  | None => None
  end.

(** A reply that fails and that the handler of [_make_request] sends to
    the retry branch, in the terms of the reply: any error status other
    than 404; a status that is no error with a body that is not JSON; or a
    404 whose body is a JSON object that has no "errors" member, or whose
    "errors" is a list starting with an object whose "message" is neither
    "Private User" nor "User not found". *)
Definition generic_failure (r : http_response) : bool :=
  if status_code r =? 404 then
    match body r with
    | Some (JObj fields) =>
        match sget fields "errors" with
        | None => true
        | Some (JArr (JObj first :: _)) =>
            match sget first "message" with
            | Some (JStr message) =>
                negb (String.eqb message "Private User")
                && negb (String.eqb message "User not found")
            | _ => true
            end
        | Some _ => false
        end
    | _ => false
    end
  else
    ((400 <=? status_code r) && (status_code r <? 600))
    || match body r with None => true | Some _ => false end.

(** The name of a variable names a batch member: it starts with "username"
    or with "id". *)
Definition names_a_user (k : string) : Prop :=
  exists rest, k = ("username" ++ rest)%string \/ k = ("id" ++ rest)%string.

(** [members] are the values of the variables that name a batch member, all
    of them and in the order of the variables. *)
Inductive batch_members : list (string * json) -> list json -> Prop :=
| members_nil : batch_members [] []
| members_keep k v variables members :
    names_a_user k -> batch_members variables members ->
    batch_members ((k, v) :: variables) (v :: members)
| members_skip k v variables members :
    ~ names_a_user k -> batch_members variables members ->
    batch_members ((k, v) :: variables) members.

(** The service answers the request of every batch at once, batch [b] with
    one aliased result per user of the batch, [payloads b]. *)
Definition answered (upstream : nat -> attempt) (w : world) (user_ids : list Z)
    (batch_size : Z) (payloads : Z -> list (option (list (list anime)))) : Prop :=
  forall b,
    In b (range (CollectUserdata.ceil_div (Z.of_nat (List.length user_ids)) batch_size)) ->
    List.length (payloads b) = List.length (batch_of user_ids batch_size b)
    /\ upstream (List.length (sent w) + Z.to_nat b)%nat = ok (encode_batch (payloads b)).

End Spec.
Import Spec.

(* ================================================================= *)
(** ** Facts about the Python layer *)

Section PyFacts.

Lemma str_of_Z_inj n m : str_of_Z n = str_of_Z m -> n = m.
Proof.
  unfold str_of_Z. intros H.
  apply DecimalZ.to_int_inj.
  assert (Some (Z.to_int n) = Some (Z.to_int m)) as E
    by (rewrite <- !NilEmpty.isi; now rewrite H).
  now inversion E.
Qed.

Lemma append_inj p s t : (p ++ s = p ++ t)%string -> s = t.
Proof.
  induction p as [|c p IH]; simpl; intros H; [assumption|].
  inversion H. auto.
Qed.

Lemma alias_inj p n m : (p ++ str_of_Z n = p ++ str_of_Z m)%string -> n = m.
Proof. intros H. apply str_of_Z_inj. eapply append_inj. exact H. Qed.

Context {V : Type}.
Implicit Types (d : list (string * V)) (k : string) (v : V).

Lemma sget_app d1 d2 k :
  sget (d1 ++ d2) k = match sget d1 k with Some v => Some v | None => sget d2 k end.
Proof.
  induction d1 as [|[k' v'] d1 IH]; simpl; [reflexivity|].
  unfold sget in *. simpl. destruct (String.eqb k' k); auto.
Qed.

Lemma sset_fresh d k v : sget d k = None -> sset d k v = (d ++ [(k, v)])%list.
Proof.
  induction d as [|[k' v'] d IH]; simpl; [reflexivity|].
  unfold sget, sset in *. simpl. destruct (String.eqb k' k); [discriminate|].
  intros H. now rewrite IH.
Qed.

Lemma sget_sset d k v k' :
  sget (sset d k v) k' = if String.eqb k k' then Some v else sget d k'.
Proof.
  induction d as [|[k0 v0] d IH]; unfold sget, sset in *; simpl.
  - reflexivity.
  - destruct (String.eqb_spec k0 k) as [->|Hne]; simpl.
    + destruct (String.eqb k k'); reflexivity.
    + rewrite IH. destruct (String.eqb_spec k0 k') as [->|]; [|reflexivity].
      destruct (String.eqb_spec k k'); [congruence|reflexivity].
Qed.

(** Looking an alias up in a dict built from distinct aliases. *)
Lemma sget_aliases {A} (key : A -> string) (f : A -> V) (l : list A) (a : A) :
  (forall x y, key x = key y -> x = y) ->
  In a l ->
  sget (map (fun x => (key x, f x)) l) (key a) = Some (f a).
Proof.
  intros Hinj. induction l as [|x l IH]; simpl; [contradiction|].
  unfold sget in *. simpl. intros Hin.
  destruct (String.eqb_spec (key x) (key a)) as [E|Hne].
  - apply Hinj in E. now subst.
  - destruct Hin as [->|Hin]; [congruence|]. auto.
Qed.

End PyFacts.

(* ================================================================= *)
(** ** The request executor *)

Section Executor.
Import AnilistAPI.
Variable upstream : nat -> attempt.
Variable variables : list (string * json).

Lemma after_nothing w : after w [] [] = w.
Proof.
  destruct w as [s z n]. unfold after; simpl.
  now rewrite !app_nil_r, Nat.add_0_r.
Qed.

Lemma after_after w r1 s1 r2 s2 :
  after (after w r1 s1) r2 s2 = after w (r1 ++ r2) (s1 ++ s2).
Proof.
  unfold after; simpl. rewrite !app_assoc, length_app. f_equal. lia.
Qed.

Lemma one_post w :
  snd (post upstream variables (_rate_limit w)) = after w [variables] [].
Proof.
  unfold post, _rate_limit, after; simpl. rewrite app_nil_r. f_equal. lia.
Qed.

Lemma sleep_after w rs ws t : sleep t (after w rs ws) = after w rs (ws ++ [t]).
Proof. unfold sleep, after; simpl. now rewrite app_assoc. Qed.

(** The inspection lets a generic failure through, whatever [data] held. *)
Lemma inspect_generic r d :
  fails_generically r = true ->
  exists l', inspect_404 variables {| response := Some r; data := d |} = Ok l'.
Proof.
  unfold fails_generically, inspect_404; simpl.
  intros H. apply andb_prop in H as [_ H].
  destruct (status_code r =? 404); [|eauto].
  destruct (body r) as [j|]; simpl in *; [|discriminate].
  destruct (contains "errors" j) as [[|]|]; simpl in *; eauto; try discriminate.
  destruct (getitem j "errors") as [errors|]; simpl in *; try discriminate.
  destruct (getitem0 errors) as [first|]; simpl in *; try discriminate.
  destruct (get first "message" (JStr "")) as [m|]; simpl in *; try discriminate.
  destruct (eq_str m "Private User"); [discriminate|].
  destruct (eq_str m "User not found"); [discriminate|]. eauto.
Qed.

Lemma try_generic r l :
  fails_generically r = true ->
  try_request (Replied r) l
  = (inr (failure_of r), {| response := Some r; data := data l |}).
Proof.
  unfold fails_generically, try_request, failure_of. intros H.
  apply andb_prop in H as [H _].
  destruct (raises_for_status r); [reflexivity|].
  destruct (body r); [discriminate|reflexivity].
Qed.

(** [k] generic failures in a row, none of them the last allowed attempt:
    the loop has slept after each and is [k] attempts further. *)
Lemma retries k : forall todo attempt l w,
  (forall i, (i < k)%nat ->
     exists r, upstream (List.length (sent w) + i) = Replied r
               /\ fails_generically r = true) ->
  0 <= attempt -> attempt + Z.of_nat k <= 9 ->
  exists l',
    request_loop upstream variables (k + todo) attempt l w
    = request_loop upstream variables todo (attempt + Z.of_nat k) l'
        (after w (repeat variables k)
               (map (fun i => 60 * (attempt + Z.of_nat i)) (seq 1 k))).
Proof.
  induction k as [|k IH]; intros todo attempt l w Hfail H0 Hk.
  - exists l. simpl. now rewrite after_nothing, Z.add_0_r.
  - destruct (Hfail 0%nat ltac:(lia)) as (r & Hr & Hg).
    rewrite Nat.add_0_r in Hr.
    destruct (inspect_generic r (data l) Hg) as (l1 & Hl1).
    change (S k + todo)%nat with (S (k + todo)).
    cbn [request_loop].
    pose proof (one_post w) as Hw.
    destruct (post upstream variables (_rate_limit w)) as [a w1] eqn:Hpost.
    assert (a = Replied r) as ->.
    { unfold post in Hpost. inversion Hpost. now simpl. }
    simpl in Hw. subst w1.
    rewrite (try_generic r l Hg), Hl1.
    replace (attempt <? max_retries - 1) with true
      by (symmetry; apply Z.ltb_lt; unfold max_retries; lia).
    specialize (IH todo (attempt + 1) l1
                   (sleep (60 * (attempt + 1)) (after w [variables] []))).
    destruct IH as (l' & IH).
    + intros i Hi. destruct (Hfail (S i) ltac:(lia)) as (r' & Hr' & Hg').
      exists r'. split; [|assumption].
      rewrite <- Hr'. f_equal. unfold sleep, after; simpl.
      rewrite length_app; simpl. lia.
    + lia.
    + lia.
    + exists l'. rewrite IH. f_equal.
      * lia.
      * rewrite sleep_after, after_after. f_equal.
        cbn [seq map app]. f_equal.
        rewrite <- (seq_shift k 1), map_map. apply map_ext. intros i. lia.
Qed.

(** From the first attempt, in the terms of [backoff]. *)
Lemma retries_from_start k todo w :
  (forall i, (i < k)%nat ->
     exists r, upstream (List.length (sent w) + i) = Replied r
               /\ fails_generically r = true) ->
  (k <= 9)%nat ->
  exists l',
    request_loop upstream variables (k + todo) 0 no_locals w
    = request_loop upstream variables todo (Z.of_nat k) l'
        (after w (repeat variables k) (backoff k)).
Proof.
  intros Hfail Hk.
  destruct (retries k todo 0 no_locals w Hfail ltac:(lia) ltac:(lia)) as (l' & E).
  exists l'. rewrite E. reflexivity.
Qed.

Lemma repeat_snoc {A} (x : A) n : (repeat x n ++ [x])%list = repeat x (S n).
Proof. induction n; simpl; [reflexivity|]. now rewrite IHn. Qed.

(** A reply that succeeds ends the loop with its JSON value. *)
Lemma loop_success todo attempt l w r j :
  upstream (List.length (sent w)) = Replied r ->
  raises_for_status r = false -> body r = Some j ->
  request_loop upstream variables (S todo) attempt l w
  = (Ok j, after w [variables] []).
Proof.
  intros Hr Hs Hb. cbn [request_loop].
  pose proof (one_post w) as Hw.
  destruct (post upstream variables (_rate_limit w)) as [a w1] eqn:Hpost.
  assert (a = Replied r) as ->.
  { unfold post in Hpost. inversion Hpost. now simpl. }
  simpl in Hw. subst w1. unfold try_request. now rewrite Hs, Hb.
Qed.

(** A generic failure at the last allowed attempt raises the RequestError
    that wraps it, without a sleep. *)
Lemma loop_gives_up todo attempt l w r :
  upstream (List.length (sent w)) = Replied r ->
  fails_generically r = true -> max_retries - 1 <= attempt ->
  request_loop upstream variables (S todo) attempt l w
  = (Raise (AnilistRequestError (Some (failure_of r))), after w [variables] []).
Proof.
  intros Hr Hg Ha. cbn [request_loop].
  pose proof (one_post w) as Hw.
  destruct (post upstream variables (_rate_limit w)) as [a w1] eqn:Hpost.
  assert (a = Replied r) as ->.
  { unfold post in Hpost. inversion Hpost. now simpl. }
  simpl in Hw. subst w1.
  destruct (inspect_generic r (data l) Hg) as (l1 & Hl1).
  rewrite (try_generic r l Hg), Hl1.
  replace (attempt <? max_retries - 1) with false
    by (symmetry; apply Z.ltb_ge; lia).
  reflexivity.
Qed.

(** A request answered at once. *)
Lemma make_request_ok w j :
  upstream (List.length (sent w)) = ok j ->
  _make_request upstream variables w = (Ok j, after w [variables] []).
Proof.
  intros H. unfold _make_request.
  change (Z.to_nat max_retries) with (S 9).
  now apply (loop_success 9 0 no_locals w {| status_code := 200; body := Some j |} j).
Qed.

End Executor.

Section ExecutorClaims.
Import AnilistAPI.

Lemma enumerate1_fst {A} (l : list A) :
  map fst (enumerate1 l) = map Z.of_nat (seq 1 (List.length l)).
Proof.
  unfold enumerate1. generalize 1%nat.
  induction l as [|x l IH]; intros n; simpl; [reflexivity|].
  now rewrite IH.
Qed.

Lemma enumerate1_snd {A} (l : list A) : map snd (enumerate1 l) = l.
Proof.
  unfold enumerate1. generalize 1%nat.
  induction l as [|x l IH]; intros n; simpl; [reflexivity|].
  now rewrite IH.
Qed.

Lemma enumerate1_NoDup {A} (l : list A) : NoDup (map fst (enumerate1 l)).
Proof.
  rewrite enumerate1_fst. apply Injective_map_NoDup.
  - intros a b. apply Nat2Z.inj.
  - apply seq_NoDup.
Qed.

Lemma var_name_inj b i j : var_name b i = var_name b j -> i = j.
Proof. unfold var_name. apply alias_inj. Qed.

Lemma var_name_selected b i :
  startswith (var_name b i) "username" || startswith (var_name b i) "id" = true.
Proof.
  unfold var_name, startswith.
  destruct b; simpl; destruct (str_of_Z i); reflexivity.
Qed.

(** Binding fresh variables appends them in order. *)
Lemma bind_users_fresh b : forall ius vars,
  NoDup (map fst ius) ->
  (forall i, In i (map fst ius) -> sget vars (var_name b i) = None) ->
  bind_users b ius vars
  = (vars ++ map (fun iu => (var_name b (fst iu), user_value (snd iu))) ius)%list.
Proof.
  induction ius as [|[i u] ius IH]; intros vars Hnd Hfresh; simpl.
  - now rewrite app_nil_r.
  - inversion Hnd as [|? ? Hni Hnd']; subst.
    rewrite sset_fresh by (apply Hfresh; now left).
    rewrite IH; [now rewrite <- app_assoc|assumption|].
    intros j Hj. rewrite sget_app, Hfresh by (now right).
    unfold sget; simpl.
    destruct (String.eqb_spec (var_name b i) (var_name b j)) as [E|]; [|reflexivity].
    apply var_name_inj in E. subst. contradiction.
Qed.

Lemma batch_variables b {A} (f : A -> user) (l : list A) :
  users_in_batch (bind_users b (enumerate1 (map f l)) [])
  = map (fun a => user_value (f a)) l.
Proof.
  rewrite bind_users_fresh; [|apply enumerate1_NoDup|reflexivity].
  simpl. rewrite <- (map_map f user_value).
  rewrite <- (enumerate1_snd (map f l)) at 2.
  unfold users_in_batch.
  induction (enumerate1 (map f l)) as [|[i u] ius IH]; simpl; [reflexivity|].
  rewrite var_name_selected. simpl. now rewrite IH.
Qed.

(** A classified 404 ends the loop at once, at any attempt. *)
Lemma loop_classified upstream variables todo attempt l w r fields first rest message :
  upstream (List.length (sent w)) = Replied r ->
  status_code r = 404 ->
  body r = Some (JObj fields) ->
  sget fields "errors" = Some (JArr (JObj first :: rest)) ->
  sget first "message" = Some (JStr message) ->
  request_loop upstream variables (S todo) attempt l w
  = (match (if String.eqb message "Private User" then
              Raise (AnilistPrivateUser (users_in_batch variables))
            else if String.eqb message "User not found" then
              Raise (AnilistUserNotFound (users_in_batch variables))
            else Ok tt) with
     | Raise e => Raise e
     | Ok _ => fst (request_loop upstream variables (S todo) attempt l w)
     end, 
     match String.eqb message "Private User" || String.eqb message "User not found" with
     | true => after w [variables] []
     | false => snd (request_loop upstream variables (S todo) attempt l w)
     end).
Proof.
  intros Hr Hs Hb He Hm.
  destruct (String.eqb message "Private User" || String.eqb message "User not found")
    eqn:Hc.
  2:{ apply orb_false_elim in Hc as [-> ->].
      now destruct (request_loop upstream variables (S todo) attempt l w). }
  cbn [request_loop].
  pose proof (one_post upstream variables w) as Hw.
  destruct (post upstream variables (_rate_limit w)) as [a w1] eqn:Hpost.
  assert (a = Replied r) as ->.
  { unfold post in Hpost. inversion Hpost. now simpl. }
  simpl in Hw. subst w1.
  unfold try_request, raises_for_status. rewrite Hs. simpl.
  unfold inspect_404. simpl. rewrite Hs, Hb. simpl.
  unfold dict_mem. fold (@sget json). rewrite He. simpl.
  rewrite Hm. simpl.
  destruct (String.eqb message "Private User"); [reflexivity|].
  simpl in Hc. now rewrite Hc.
Qed.

Lemma prefix_spec p : forall k,
  String.prefix p k = true <-> exists rest, k = (p ++ rest)%string.
Proof.
  induction p as [|c p IH]; intros k; cbn [append].
  - split; [intros _; now exists k|intros _; now destruct k].
  - destruct k as [|c' k]; cbn [String.prefix].
    + split; [discriminate|]. intros (rest & H). discriminate H.
    + destruct (ascii_dec c c') as [->|Hne].
      * rewrite IH. split; intros (rest & H); exists rest; [now subst|now inversion H].
      * split; [discriminate|]. intros (rest & H). inversion H. congruence.
Qed.

Lemma users_in_batch_members variables :
  batch_members variables (users_in_batch variables).
Proof.
  unfold users_in_batch.
  induction variables as [|[k v] variables IH]; cbn [filter map fst snd];
    [constructor|].
  unfold startswith at 1 2.
  destruct (String.prefix "username" k || String.prefix "id" k) eqn:E; cbn [map snd].
  - apply members_keep; [|exact IH].
    apply orb_prop in E as [E|E]; apply prefix_spec in E as (rest & ->);
      exists rest; auto.
  - apply members_skip; [|exact IH].
    apply orb_false_elim in E as [E1 E2].
    intros (rest & [->| ->]).
    + assert (String.prefix "username" ("username" ++ rest) = true) as H
        by (apply prefix_spec; eauto). congruence.
    + assert (String.prefix "id" ("id" ++ rest) = true) as H
        by (apply prefix_spec; eauto). congruence.
Qed.


(** C3.  A 404 reply whose body is a GraphQL error object with first
    message "Private User" (respectively "User not found") makes
    [_make_request] raise AnilistPrivateUser (respectively
    AnilistUserNotFound) after exactly one attempt: one rate-limited POST
    and no sleep.  The error carries the values of the variables whose name
    starts with "username" or with "id", all of them, in the order of the
    variables, and the value of no other variable; for the variables that
    [fetchCompletedAnime] binds these are the users of the batch, all of
    them and in order. *)
Theorem classified_404_fails_at_once :
  forall upstream variables w r fields first rest message,
    upstream (List.length (sent w)) = Replied r ->
    status_code r = 404 ->
    body r = Some (JObj fields) ->
    sget fields "errors" = Some (JArr (JObj first :: rest)) ->
    sget first "message" = Some (JStr message) ->
    exists members,
      batch_members variables members
      /\ (message = "Private User"%string ->
          _make_request upstream variables w
          = (Raise (AnilistPrivateUser members), after w [variables] []))
      /\ (message = "User not found"%string ->
          _make_request upstream variables w
          = (Raise (AnilistUserNotFound members), after w [variables] []))
      /\ (forall usernames : list string,
            variables = bind_users true (enumerate1 (map UserName usernames)) [] ->
            members = map JStr usernames)
      /\ (forall userids : list Z,
            variables = bind_users false (enumerate1 (map UserId userids)) [] ->
            members = map JNum userids).
Proof.
  intros upstream variables w r fields first rest message Hr Hs Hb He Hm.
  pose proof (loop_classified upstream variables 9 0 no_locals w r fields first rest
                message Hr Hs Hb He Hm) as H.
  exists (users_in_batch variables). split; [apply users_in_batch_members|].
  repeat split.
  - intros ->. exact H.
  - intros ->. exact H.
  - intros l ->. apply (batch_variables true UserName).
  - intros l ->. apply (batch_variables false UserId).
Qed.

Lemma classified_404_fails_at_once_witness :
  exists members,
    batch_members [("id1"%string, JNum 7); ("page"%string, JNum 3);
                   ("username2"%string, JStr "bob")] members
    /\ members = [JNum 7; JStr "bob"]
    /\ _make_request
         (fun _ => Replied {| status_code := 404;
                              body := Some (JObj [("errors"%string,
                                        JArr [JObj [("message"%string,
                                                     JStr "Private User")]])]) |})
         [("id1"%string, JNum 7); ("page"%string, JNum 3);
          ("username2"%string, JStr "bob")] world0
       = (Raise (AnilistPrivateUser members),
          {| sent := [[("id1"%string, JNum 7); ("page"%string, JNum 3);
                       ("username2"%string, JStr "bob")]];
             slept := []; rate_limited := 1 |}).
Proof.
  destruct (classified_404_fails_at_once
              (fun _ => Replied {| status_code := 404;
                                   body := Some (JObj [("errors"%string,
                                     JArr [JObj [("message"%string,
                                                  JStr "Private User")]])]) |})
              [("id1"%string, JNum 7); ("page"%string, JNum 3);
               ("username2"%string, JStr "bob")]
              world0
              {| status_code := 404;
                 body := Some (JObj [("errors"%string,
                           JArr [JObj [("message"%string, JStr "Private User")]])]) |}
              [("errors"%string, JArr [JObj [("message"%string, JStr "Private User")]])]
              [("message"%string, JStr "Private User")] [] "Private User"
              eq_refl eq_refl eq_refl eq_refl eq_refl)
    as (members & Hm & H1 & _).
  exists members. split; [exact Hm|].
  assert (members = [JNum 7; JStr "bob"]) as E.
  { inversion Hm as [|k v vs ms Hk Hm1|k v vs ms Hk Hm1]; subst.
    2:{ destruct Hk. exists "1"%string. now right. }
    inversion Hm1 as [|k v vs ms' Hk' Hm2|k v vs ms' Hk' Hm2]; subst.
    1:{ destruct Hk' as (rest' & [E|E]); discriminate E. }
    inversion Hm2 as [|k v vs ms'' Hk'' Hm3|k v vs ms'' Hk'' Hm3]; subst.
    2:{ destruct Hk''. exists "2"%string. now left. }
    now inversion Hm3. }
  split; [exact E|]. rewrite (H1 eq_refl), E. reflexivity.
Defined.

Lemma generic_failure_fails r : generic_failure r = true -> fails_generically r = true.
Proof.
  unfold generic_failure, fails_generically, inspect_404, raises_for_status.
  cbn [response data].
  destruct (Z.eqb_spec (status_code r) 404) as [E|E].
  - rewrite E. cbn [Z.leb Z.ltb Z.compare Pos.compare Pos.compare_cont andb orb].
    destruct (body r) as [[| | | | |fields]|]; try discriminate.
    cbn [data contains bind]. unfold dict_mem. fold (@sget json).
    destruct (sget fields "errors") as [errors|] eqn:He; [|reflexivity].
    cbn [getitem]. rewrite He. cbn [bind].
    destruct errors as [| | | |[|first rest]|]; try discriminate.
    destruct first as [| | | | |first]; try discriminate.
    cbn [getitem0 bind get].
    destruct (sget first "message") as [[| | |message| |]|]; try reflexivity.
    cbn [eq_str]. intros H. apply andb_prop in H as [H1 H2].
    apply negb_true_iff in H1, H2. now rewrite H1, H2.
  - intros H. rewrite H. reflexivity.
Qed.


(** C2, as the code has it.  When the first [k <= 10] attempts each get a
    reply that fails generically (an error status other than 404; a status
    that is no error with a body that is not JSON; or a 404 whose body is a
    JSON object without "errors", or whose first error is an object with
    another message than "Private User" and "User not found"),
    [_make_request] sleeps 60 * i seconds after the i-th failure for
    i = 1..9 only; after a tenth failure it raises AnilistRequestError
    wrapping that failure without sleeping (ten POSTs, waits 60..540), and
    a success at attempt [k + 1 <= 10] returns the body after the waits
    60..60k. *)
Theorem retry_schedule :
  forall (upstream : nat -> attempt) variables w k,
    (k <= 10)%nat ->
    (forall i, (i < k)%nat ->
       exists r, upstream (List.length (sent w) + i)%nat = Replied r
                 /\ generic_failure r = true) ->
    (k = 10%nat ->
     exists r, upstream (List.length (sent w) + 9)%nat = Replied r
       /\ _make_request upstream variables w
          = (Raise (AnilistRequestError (Some (failure_of r))),
             after w (repeat variables 10) (backoff 9)))
    /\ (forall j, (k < 10)%nat ->
          upstream (List.length (sent w) + k)%nat = ok j ->
          _make_request upstream variables w
          = (Ok j, after w (repeat variables (S k)) (backoff k))).
Proof.
  intros upstream variables w k Hk Hgen.
  assert (forall i, (i < k)%nat ->
            exists r, upstream (List.length (sent w) + i)%nat = Replied r
                      /\ fails_generically r = true) as Hfail.
  { intros i Hi. destruct (Hgen i Hi) as (r & Hr & Hg). exists r.
    split; [assumption|now apply generic_failure_fails]. }
  split.
  - intros ->.
    destruct (Hfail 9%nat ltac:(lia)) as (r & Hr & Hg). exists r. split; [assumption|].
    destruct (retries_from_start upstream variables 9 1 w) as (l' & E);
      [intros i Hi; apply Hfail; lia|lia|].
    unfold _make_request. change (Z.to_nat max_retries) with (9 + 1)%nat.
    rewrite E.
    rewrite (loop_gives_up upstream variables 0 _ l' _ r); [| |assumption|reflexivity].
    + now rewrite after_after, app_nil_r.
    + unfold after; cbn [sent]. rewrite length_app, repeat_length. exact Hr.
  - intros j Hlt Hj.
    destruct (retries_from_start upstream variables k (10 - k) w) as (l' & E);
      [assumption|lia|].
    unfold _make_request. change (Z.to_nat max_retries) with 10%nat.
    replace 10%nat with (k + (10 - k))%nat at 1 by lia.
    rewrite E.
    destruct (10 - k)%nat as [|todo] eqn:Ht; [lia|].
    rewrite (loop_success upstream variables todo _ l' _
               {| status_code := 200; body := Some j |} j); [| |reflexivity|reflexivity].
    + now rewrite after_after, app_nil_r, repeat_snoc.
    + unfold after; cbn [sent]. rewrite length_app, repeat_length. exact Hj.
Qed.

Lemma retry_schedule_witness :
  _make_request (fun _ => Replied {| status_code := 503; body := None |}) [] world0
  = (Raise (AnilistRequestError (Some (HTTPError 503))),
     {| sent := repeat [] 10;
        slept := [60; 120; 180; 240; 300; 360; 420; 480; 540];
        rate_limited := 10 |}).
Proof.
  destruct (proj1 (retry_schedule (fun _ => Replied {| status_code := 503; body := None |})
                     [] world0 10 (le_n 10)
                     (fun i _ => ex_intro _ _ (conj eq_refl eq_refl))) eq_refl)
    as (r & Hr & H).
  inversion Hr; subst r. exact H.
Defined.

(** C2 as stated fails: ten failures give nine waits, 60 s to 540 s, and no
    wait of 600 s; and a failure of [requests.post] itself on the first
    attempt is not retried at all. *)
Lemma no_wait_of_600s :
  (let (r, w) := _make_request (fun _ => Replied {| status_code := 500; body := None |})
                               [] world0 in
   r = Raise (AnilistRequestError (Some (HTTPError 500)))
   /\ List.length (sent w) = 10%nat
   /\ slept w = [60; 120; 180; 240; 300; 360; 420; 480; 540]
   /\ ~ In 600 (slept w))
  /\ _make_request (fun _ => ConnectionFailed) [] world0
     = (Raise (UnboundLocalError "response"),
        {| sent := [[]]; slept := []; rate_limited := 1 |}).
Proof.
  split; [|reflexivity].
  vm_compute. repeat split.
  intros H. repeat (destruct H as [H|H]; [discriminate H|]). exact H.
Qed.

(** C4 at its failing inputs: a 404 whose body is not JSON, a failed
    [requests.post] on the first attempt, and a 404 whose [errors] list is
    empty each end [_make_request] after one attempt with an exception
    that is none of the three the claim allows. *)
Theorem unclassified_failures_escape :
  _make_request (fun _ => Replied {| status_code := 404; body := None |}) [] world0
  = (Raise (UnboundLocalError "data"),
     {| sent := [[]]; slept := []; rate_limited := 1 |})
  /\ _make_request (fun _ => ConnectionFailed) [] world0
     = (Raise (UnboundLocalError "response"),
        {| sent := [[]]; slept := []; rate_limited := 1 |})
  /\ _make_request
       (fun _ => Replied {| status_code := 404;
                            body := Some (JObj [("errors"%string, JArr [])]) |})
       [] world0
     = (Raise IndexError, {| sent := [[]]; slept := []; rate_limited := 1 |}).
Proof. repeat split. Qed.

End ExecutorClaims.

(* ================================================================= *)
(** ** The batched decoder *)

Section Decoder.
Import AnilistAPI.

Lemma mapM_map {A B C} (f : B -> result C) (g : A -> B) (h : A -> C) (l : list A) :
  (forall x, f (g x) = Ok (h x)) -> mapM f (map g l) = Ok (map h l).
Proof.
  intros H. induction l as [|x l IH]; simpl; [reflexivity|].
  now rewrite H, IH.
Qed.

Lemma anime_entry_encoded a : anime_entry (encode_anime a) = Ok (to_entry a).
Proof. destruct a as [[m t] s]. reflexivity. Qed.

Lemma list_entries_encoded es :
  list_entries (JObj [("entries"%string, JArr (map encode_anime es))])
  = Ok (map to_entry es).
Proof.
  unfold list_entries. simpl.
  now rewrite (mapM_map _ _ to_entry es anime_entry_encoded).
Qed.

(** Every entry of every list is decoded; none is filtered out. *)
Lemma user_entries_encoded lists :
  user_entries (encode_user (Some lists)) = Ok (map to_entry (List.concat lists)).
Proof.
  unfold user_entries. simpl.
  rewrite (mapM_map _ _ (map to_entry) lists list_entries_encoded). simpl.
  now rewrite concat_map.
Qed.

Lemma user_eqb_eq a b : user_eqb a b = true <-> a = b.
Proof.
  destruct a, b; simpl; split; try discriminate; intros H.
  - apply String.eqb_eq in H. now subst.
  - inversion H. apply String.eqb_refl.
  - apply Z.eqb_eq in H. now subst.
  - inversion H. apply Z.eqb_refl.
Qed.

Lemma user_get_set {V} (d : list (user * V)) k v k' :
  dict_get user_eqb (dict_set user_eqb d k v) k'
  = if user_eqb k k' then Some v else dict_get user_eqb d k'.
Proof.
  induction d as [|[k0 v0] d IH]; simpl; [reflexivity|].
  destruct (user_eqb k0 k) eqn:E0; simpl.
  - apply user_eqb_eq in E0. subst. destruct (user_eqb k k'); reflexivity.
  - rewrite IH. destruct (user_eqb k0 k') eqn:E1; [|reflexivity].
    apply user_eqb_eq in E1. subst k0.
    destruct (user_eqb k k') eqn:E2; [|reflexivity].
    apply user_eqb_eq in E2. subst k'.
    rewrite (proj2 (user_eqb_eq k k) eq_refl) in E0. discriminate.
Qed.

Lemma enumerate_from_1 {A} (l : list A) : enumerate1 l = enumerate_from 1 l.
Proof. reflexivity. Qed.

Lemma enumerate_from_cons {A} n (x : A) l :
  enumerate_from n (x :: l) = (Z.of_nat n, x) :: enumerate_from (S n) l.
Proof. reflexivity. Qed.

Lemma enumerate_from_NoDup {A} n (l : list A) : NoDup (map fst (enumerate_from n l)).
Proof.
  assert (map fst (enumerate_from n l) = map Z.of_nat (seq n (List.length l))) as ->.
  { unfold enumerate_from. revert n.
    induction l as [|x l IH]; intros n; simpl; [reflexivity|]. now rewrite IH. }
  apply Injective_map_NoDup; [intros a b; apply Nat2Z.inj|apply seq_NoDup].
Qed.

(** Looking up the alias of an enumerated item. *)
Lemma sget_enumerated {A V} (g : A -> V) (p : string) (l : list (Z * A)) i a :
  NoDup (map fst l) -> In (i, a) l ->
  sget (map (fun ia => ((p ++ str_of_Z (fst ia))%string, g (snd ia))) l)
       (p ++ str_of_Z i)%string
  = Some (g a).
Proof.
  induction l as [|[j b] l IH]; simpl; [contradiction|].
  intros Hnd Hin. inversion Hnd as [|? ? Hnj Hnd']; subst.
  unfold sget in *; simpl.
  destruct (String.eqb_spec (p ++ str_of_Z j) (p ++ str_of_Z i)) as [E|Hne].
  - apply alias_inj in E. subst j.
    destruct Hin as [Hin|Hin]; [now inversion Hin|].
    exfalso. apply Hnj. change i with (fst (i, a)). now apply in_map.
  - destruct Hin as [Hin|Hin]; [inversion Hin; subst; congruence|]. auto.
Qed.

(** The decoding loop on a well-formed batch response keeps exactly the
    users whose aliased result is not null. *)
Lemma decode_users_encoded (all : list (Z * option (list (list anime)))) :
  NoDup (map fst all) ->
  forall (ups : list (user * option (list (list anime)))) n res,
    incl (enumerate_from n (map snd ups)) all ->
    decode_users
      (JObj [("data"%string,
              JObj (map (fun ip => (("u" ++ str_of_Z (fst ip))%string,
                                    encode_user (snd ip))) all))])
      (enumerate_from n (map fst ups)) res
    = Ok (fold_left keep ups res).
Proof.
  intros Hnd.
  set (D := map (fun ip : Z * option (list (list anime)) =>
                   (("u" ++ str_of_Z (fst ip))%string, encode_user (snd ip))) all).
  assert (getitem (JObj [("data"%string, JObj D)]) "data" = Ok (JObj D)) as Hdata
    by reflexivity.
  induction ups as [|[u p] ups IH]; intros n res Hincl; [reflexivity|].
  simpl map in *. rewrite enumerate_from_cons in *.
  cbn [decode_users]. rewrite Hdata. cbn [bind].
  assert (getitem (JObj D) ("u" ++ str_of_Z (Z.of_nat n)) = Ok (encode_user p)) as ->.
  { unfold getitem.
    replace (sget D ("u" ++ str_of_Z (Z.of_nat n))) with (Some (encode_user p));
      [reflexivity|].
    symmetry. apply (sget_enumerated encode_user "u" all (Z.of_nat n) p Hnd).
    apply Hincl. now left. }
  cbn [bind].
  assert (incl (enumerate_from (S n) (map snd ups)) all) as Hincl'
    by (intros x Hx; apply Hincl; now right).
  destruct p as [lists|].
  - cbn [encode_user].
    change (user_entries _) with (user_entries (encode_user (Some lists))).
    rewrite user_entries_encoded. cbn [bind].
    now rewrite IH.
  - cbn [encode_user]. now rewrite IH.
Qed.

Lemma keep_absent u : forall ups res,
  (forall p, In (u, p) ups -> p = None) ->
  dict_get user_eqb (fold_left keep ups res) u = dict_get user_eqb res u.
Proof.
  induction ups as [|[u' p] ups IH]; intros res H; [reflexivity|].
  simpl. rewrite IH by (intros q Hq; apply H; now right).
  unfold keep; simpl. destruct p as [lists|]; [|reflexivity].
  rewrite user_get_set. destruct (user_eqb u' u) eqn:E; [|reflexivity].
  apply user_eqb_eq in E. subst. specialize (H (Some lists) (or_introl eq_refl)).
  discriminate.
Qed.

Lemma keep_present u lists pre post res :
  (forall p, In (u, p) post -> p = None) ->
  dict_get user_eqb (fold_left keep (pre ++ (u, Some lists) :: post) res) u
  = Some (map to_entry (List.concat lists)).
Proof.
  intros H. rewrite fold_left_app. simpl. rewrite keep_absent by assumption.
  unfold keep at 1; simpl. rewrite user_get_set.
  now rewrite (proj2 (user_eqb_eq u u) eq_refl).
Qed.

End Decoder.

Section DecoderClaims.
Import AnilistAPI CollectUserdata.

(** The decoding loop on the response to a batch of users named through
    [mk]. *)
Lemma decode_batch_encoded {A} (mk : A -> user)
    (ups : list (A * option (list (list anime)))) :
  decode_users (encode_batch (map snd ups)) (enumerate1 (map mk (map fst ups))) []
  = Ok (fold_left keep (map (fun up => (mk (fst up), snd up)) ups) []).
Proof.
  unfold encode_batch. rewrite !enumerate_from_1.
  set (ups' := map (fun up => (mk (fst up), snd up)) ups).
  replace (map mk (map fst ups)) with (map fst ups')
    by (unfold ups'; now rewrite !map_map).
  replace (map snd ups) with (map snd ups')
    by (unfold ups'; now rewrite !map_map).
  apply decode_users_encoded; [apply enumerate_from_NoDup|apply incl_refl].
Qed.

(** The whole call on a batch of user ids answered at once by a
    well-formed response. *)
Lemma fetch_ids_encoded upstream w (ups : list (Z * option (list (list anime)))) :
  upstream (List.length (sent w)) = ok (encode_batch (map snd ups)) ->
  fetchCompletedAnime upstream None (Some (Many (map fst ups))) w
  = (Ok (fold_left keep (map (fun up => (UserId (fst up), snd up)) ups) []),
     after w [bind_users false (enumerate1 (map UserId (map fst ups))) []] []).
Proof.
  intros H. unfold fetchCompletedAnime. cbn [option_map as_list].
  rewrite (make_request_ok upstream _ w _ H). f_equal.
  apply decode_batch_encoded.
Qed.

(** The same for a non-empty batch of usernames. *)
Lemma fetch_names_encoded upstream w (ups : list (string * option (list (list anime)))) :
  ups <> [] ->
  upstream (List.length (sent w)) = ok (encode_batch (map snd ups)) ->
  fetchCompletedAnime upstream (Some (Many (map fst ups))) None w
  = (Ok (fold_left keep (map (fun up => (UserName (fst up), snd up)) ups) []),
     after w [bind_users true (enumerate1 (map UserName (map fst ups))) []] []).
Proof.
  intros Hne H. unfold fetchCompletedAnime. cbn [option_map as_list].
  destruct ups as [|up ups]; [congruence|].
  cbn [map] in *.
  rewrite (make_request_ok upstream _ w _ H). f_equal.
  apply (decode_batch_encoded UserName (up :: ups)).
Qed.

Lemma keep_skips_null_users {A} (mk : A -> user) ups :
  (forall a b, mk a = mk b -> a = b) ->
  skips_null_users mk ups (fold_left keep (map (fun up => (mk (fst up), snd up)) ups) []).
Proof.
  intros Hinj. split.
  - intros u Hu. rewrite keep_absent; [reflexivity|].
    intros p Hp. apply in_map_iff in Hp as ([u' p'] & E & Hin).
    inversion E as [[Eu Ep]]. apply Hinj in Eu. subst. now apply Hu.
  - intros pre u lists post -> Hpost.
    rewrite map_app. cbn [map fst snd].
    apply keep_present.
    intros p Hp. apply in_map_iff in Hp as ([u' p'] & E & Hin).
    inversion E as [[Eu Ep]]. apply Hinj in Eu. subst. now apply Hpost.
Qed.

(** C7.  When the response to a batch is well formed and answered at
    once, [fetchCompletedAnime] returns a mapping and raises nothing (in
    particular no Private/NotFound error); a user all of whose aliased
    results are null has no entry in the mapping, and a user with a
    non-null aliased result (the last such, should the user be repeated in
    the batch) is mapped to all the entries of that result.  This holds for
    a batch of user ids and for a batch of usernames. *)
Theorem null_users_are_skipped :
  forall (upstream : nat -> attempt) w,
    (forall ups : list (Z * option (list (list anime))),
       upstream (List.length (sent w)) = ok (encode_batch (map snd ups)) ->
       exists res,
         fetchCompletedAnime upstream None (Some (Many (map fst ups))) w
         = (Ok res,
            after w [bind_users false (enumerate1 (map UserId (map fst ups))) []] [])
         /\ skips_null_users UserId ups res)
    /\ (forall ups : list (string * option (list (list anime))),
          ups <> [] ->
          upstream (List.length (sent w)) = ok (encode_batch (map snd ups)) ->
          exists res,
            fetchCompletedAnime upstream (Some (Many (map fst ups))) None w
            = (Ok res,
               after w [bind_users true (enumerate1 (map UserName (map fst ups))) []] [])
            /\ skips_null_users UserName ups res).
Proof.
  intros upstream w. split.
  - intros ups H. eexists. split; [now apply fetch_ids_encoded|].
    apply keep_skips_null_users. intros a b E. now inversion E.
  - intros ups Hne H. eexists. split; [now apply fetch_names_encoded|].
    apply keep_skips_null_users. intros a b E. now inversion E.
Qed.

Lemma null_users_are_skipped_witness :
  exists res,
    fetchCompletedAnime
      (fun _ => ok (encode_batch [Some [[(1, JStr "A", 80)]]; None]))
      None (Some (Many [7; 8])) world0
    = (Ok res, after world0 [[("id1"%string, JNum 7); ("id2"%string, JNum 8)]] [])
    /\ dict_get user_eqb res (UserId 8) = None
    /\ dict_get user_eqb res (UserId 7)
       = Some [{| mediaId := JNum 1; title_romaji := JStr "A"; score := JNum 80 |}].
Proof.
  destruct (proj1 (null_users_are_skipped
                     (fun _ => ok (encode_batch [Some [[(1, JStr "A", 80)]]; None]))
                     world0)
              [(7, Some [[(1, JStr "A", 80)]]); (8, None)] eq_refl)
    as (res & Hrun & Hnull & Hsome).
  exists res. split; [exact Hrun|]. split.
  - apply Hnull. intros p [E|[E|[]]]; now inversion E.
  - apply (Hsome [] 7 [[(1, JStr "A", 80)]] [(8, None)] eq_refl).
    intros p [E|[]]. now inversion E.
Defined.

Lemma append_rating_keeps r k y k0 x :
  recorded r k0 x -> recorded (append_rating r k y) k0 x.
Proof.
  intros (l & Hl & Hin). unfold recorded, append_rating. rewrite sget_sset.
  destruct (String.eqb_spec k k0) as [->|]; [|eauto].
  rewrite Hl. eexists; split; [reflexivity|]. apply in_or_app. now left.
Qed.

Lemma append_rating_adds r k y : recorded (append_rating r k y) k y.
Proof.
  unfold recorded, append_rating. rewrite sget_sset, String.eqb_refl.
  eexists; split; [reflexivity|].
  destruct (sget r k); [apply in_or_app; right|]; now left.
Qed.

Lemma append_rating_only r k y k0 x :
  recorded (append_rating r k y) k0 x -> recorded r k0 x \/ x = y.
Proof.
  unfold recorded, append_rating. rewrite sget_sset.
  intros (l & Hl & Hin).
  destruct (String.eqb_spec k k0) as [->|]; [|eauto].
  inversion Hl; subst; clear Hl.
  destruct (sget r k0) as [l0|] eqn:E.
  - apply in_app_or in Hin as [Hin|[<-|[]]]; eauto.
  - destruct Hin as [<-|[]]. now right.
Qed.

(** Storing decoded entries succeeds, keeps what was recorded, and records
    every entry under its media id, whatever its score. *)
Lemma store_user_typed u : forall (es : list anime) r,
  exists r',
    store_user r u (map to_entry es) = Ok r'
    /\ (forall k x, recorded r k x -> recorded r' k x)
    /\ (forall m t s, In (m, t, s) es ->
          recorded r' (str_of_Z m) (JObj [(user_str u, JNum s)])).
Proof.
  induction es as [|[[m t] s] es IH]; intros r.
  - exists r. repeat split; [auto|]. intros ? ? ? [].
  - cbn [map to_entry store_user mediaId score str bind].
    destruct (IH (append_rating r (str_of_Z m) (JObj [(user_str u, JNum s)])))
      as (r' & Hr' & Hkeep & Hadd).
    exists r'. split; [exact Hr'|]. split.
    + intros k x Hx. now apply Hkeep, append_rating_keeps.
    + intros m' t' s' [E|Hin]; [|eauto].
      inversion E; subst. apply Hkeep, append_rating_adds.
Qed.

Lemma store_batch_typed : forall (batch : list (user * list anime)) r,
  exists r',
    store_batch r (map (fun ue => (fst ue, map to_entry (snd ue))) batch) = Ok r'
    /\ (forall k x, recorded r k x -> recorded r' k x)
    /\ (forall u es m t s, In (u, es) batch -> In (m, t, s) es ->
          recorded r' (str_of_Z m) (JObj [(user_str u, JNum s)])).
Proof.
  induction batch as [|[u es] batch IH]; intros r.
  - exists r. repeat split; [auto|]. intros ? ? ? ? ? [].
  - cbn [map fst snd store_batch].
    destruct (store_user_typed u es r) as (r1 & Hr1 & Hkeep1 & Hadd1).
    rewrite Hr1. cbn [bind].
    destruct (IH r1) as (r' & Hr' & Hkeep & Hadd).
    exists r'. split; [exact Hr'|]. split; [auto|].
    intros u' es' m t s [E|Hin] Hm; [|eauto].
    inversion E; subst. eauto.
Qed.

End DecoderClaims.

(* ================================================================= *)
(** ** The windowed crawler *)

Section Crawler.
Import AnilistAPI.

Lemma yield_entries_encoded es :
  yield_entries (map encode_completer es) = (map JNum (positive_ids es), None).
Proof.
  unfold positive_ids.
  induction es as [|[u s] es IH]; [reflexivity|].
  cbn [map yield_entries encode_completer getitem sget dict_get fst snd filter].
  cbn [String.eqb Ascii.eqb Bool.eqb bind gt0].
  cbn [getitem sget dict_get String.eqb Ascii.eqb Bool.eqb].
  destruct (0 <? s); rewrite IH; reflexivity.
Qed.

Lemma in_range n i : In i (range n) <-> 0 <= i < n.
Proof.
  unfold range. rewrite in_map_iff. split.
  - intros (k & <- & Hk). apply in_seq in Hk. lia.
  - intros H. exists (Z.to_nat i). split; [lia|]. apply in_seq. lia.
Qed.

Lemma last_flag (flags : list bool) h :
  last (map JBool flags) (JBool h) = JBool (last flags h).
Proof.
  induction flags as [|b flags IH]; [reflexivity|].
  destruct flags; [reflexivity|]. exact IH.
Qed.

Lemma last_cons {A} (x : A) l d : last (x :: l) d = last l x.
Proof.
  revert x d. induction l as [|y l IH]; intros x d; [reflexivity|].
  change (last (x :: y :: l) d) with (last (y :: l) d).
  change (last (y :: l) x) with (last (y :: l) x).
  now rewrite (IH y d), (IH y x).
Qed.

Variable pages : Z -> option page.
Variable pages_per_query : Z.

(** The loop over the pages of a well-formed window response: it yields
    the positive-score ids of the returned pages in order and leaves in
    [has_next_page] the flag of the last page returned. *)
Lemma scan_window_encoded c : forall ixs h,
  incl ixs (range pages_per_query) ->
  scan_window (encode_window pages pages_per_query c) c ixs h
  = (map JNum (flat_map (fun pg => positive_ids (mediaList pg))
                        (returned pages (map (fun i => c + i) ixs))),
     inr (last (map (fun pg => JBool (hasNextPage pg))
                    (returned pages (map (fun i => c + i) ixs))) h)).
Proof.
  set (D := map (fun i => (("p" ++ str_of_Z (c + i))%string,
                           encode_page (c + i) (pages (c + i))))
                (range pages_per_query)).
  assert (getitem (encode_window pages pages_per_query c) "data" = Ok (JObj D))
    as Hdata by reflexivity.
  induction ixs as [|i ixs IH]; intros h Hincl; [reflexivity|].
  cbn [scan_window map returned]. rewrite Hdata. cbn [bind].
  assert (getitem (JObj D) ("p" ++ str_of_Z (c + i))
          = Ok (encode_page (c + i) (pages (c + i)))) as ->.
  { unfold getitem.
    replace (sget D ("p" ++ str_of_Z (c + i)))
      with (Some (encode_page (c + i) (pages (c + i)))); [reflexivity|].
    symmetry.
    apply (sget_aliases (fun i => ("p" ++ str_of_Z (c + i))%string)
             (fun i => encode_page (c + i) (pages (c + i)))).
    - intros x y E. apply alias_inj in E. lia.
    - apply Hincl. now left. }
  destruct (pages (c + i)) as [pg|]; [|reflexivity].
  cbn [encode_page].
  assert (forall n ml (b : bool),
            (x <- getitem (JObj [("pageInfo"%string,
                                  JObj [("currentPage"%string, JNum n);
                                        ("hasNextPage"%string, JBool b)]);
                                 ("mediaList"%string, JArr ml)]) "mediaList" ;;
             iter x) = Ok ml) as -> by reflexivity.
  rewrite yield_entries_encoded.
  assert (forall n ml (b : bool),
            (info <- getitem (JObj [("pageInfo"%string,
                                     JObj [("currentPage"%string, JNum n);
                                           ("hasNextPage"%string, JBool b)]);
                                    ("mediaList"%string, JArr ml)]) "pageInfo" ;;
             getitem info "hasNextPage") = Ok (JBool b)) as -> by reflexivity.
  cbn [truthy flat_map].
  destruct (hasNextPage pg) eqn:Hnext.
  - rewrite IH by (intros x Hx; apply Hincl; now right).
    rewrite map_app. f_equal. f_equal.
    cbn [map]. rewrite Hnext. now rewrite last_cons.
  - cbn [flat_map map last]. rewrite app_nil_r, Hnext. reflexivity.
Qed.

Lemma scan_whole_window c :
  scan_window (encode_window pages pages_per_query c) c (range pages_per_query)
              (JBool false)
  = (map JNum (window_ids pages pages_per_query c),
     inr (JBool (last_has_next (window pages pages_per_query c)))).
Proof.
  rewrite scan_window_encoded by apply incl_refl.
  unfold window_ids, last_has_next, window.
  now rewrite <- last_flag, map_map.
Qed.

End Crawler.

Section CrawlerClaims.
Import AnilistAPI.

(** The query of a window cannot be built: [$mediaID] is a placeholder of
    the template and is given no value. *)
Lemma build_query_fails pages_per_query page :
  build_query pages_per_query page = Raise KeyError.
Proof. reflexivity. Qed.

Lemma crawl_fails upstream fuel mediaId pages_per_query page w :
  crawl upstream (S fuel) mediaId pages_per_query page w = ([], Raised KeyError, w).
Proof. cbn [crawl]. now rewrite build_query_fails. Qed.

Lemma next_from_fails upstream fuel mediaId pages_per_query page w :
  next_from upstream (S fuel) mediaId pages_per_query page w
  = (Ended (Raised KeyError), w).
Proof. cbn [next_from]. now rewrite build_query_fails. Qed.

(** C5, at every input.  [fetchAnimeCompleters] never requests a window:
    building the query of the first window raises KeyError (the template
    names [$mediaID] and [$perPage] without escaping them, and
    [substitute] is given [page_vars] and [page_queries] only), so the
    generator ends by KeyError at its first [next], before any request
    and without a value, whatever the media id, the window size and the
    service.  The loop over the pages that follows in the source is never
    reached; on a well-formed window it would yield the positive-score ids
    of the pages returned, in page order, and leave in [has_next_page] the
    flag of the last page returned. *)
Theorem completers_query_cannot_be_built :
  forall (upstream : nat -> attempt) fuel mediaId pages_per_query w,
    substitute query_template
      [("page_vars"%string,
        String.concat ", " (page_vars 1 (range pages_per_query)));
       ("page_queries"%string,
        String.concat newline (page_queries 1 (range pages_per_query)))]
    = Raise KeyError
    /\ fetchAnimeCompleters upstream (S fuel) mediaId pages_per_query w
       = ([], Raised KeyError, w)
    /\ next upstream (S fuel) mediaId pages_per_query NotStarted w
       = (Ended (Raised KeyError), w)
    /\ (forall pages c,
          scan_window (encode_window pages pages_per_query c) c
                      (range pages_per_query) (JBool false)
          = (map JNum (window_ids pages pages_per_query c),
             inr (JBool (last_has_next (window pages pages_per_query c))))).
Proof.
  intros upstream fuel mediaId P w. split; [reflexivity|]. split; [|split].
  - apply crawl_fails.
  - apply next_from_fails.
  - intros pages c. apply scan_whole_window.
Qed.

(** C6, at its failing input.  The loop over the entries of a page yields
    exactly the user ids of the entries with a strictly positive score, in
    the order of the page, and none for a score of 0; but the generator
    never reaches it: for the stream of the scenario (ids 10, 11, 13 with a
    positive score and 12 with score 0, for media id 1), and for every
    other service, [fetchAnimeCompleters] ends by KeyError before any
    request and yields no id at all. *)
Theorem no_completer_is_ever_yielded :
  (forall es,
     yield_entries (map encode_completer es)
     = (map JNum (map fst (filter (fun e => 0 <? snd e) es)), None))
  /\ yield_entries (map encode_completer [(10, 80); (11, 70); (12, 0); (13, 90)])
     = ([JNum 10; JNum 11; JNum 13], None)
  /\ fetchAnimeCompleters
       (fun _ => ok (encode_window
                       (fun n => if n =? 1
                                 then Some {| mediaList := [(10, 80); (11, 70);
                                                            (12, 0); (13, 90)];
                                              hasNextPage := false |}
                                 else None) 5 1))
       1 1 5 world0
     = ([], Raised KeyError, world0)
  /\ (forall (upstream : nat -> attempt) fuel mediaId pages_per_query w,
        fst (fst (fetchAnimeCompleters upstream fuel mediaId pages_per_query w)) = []).
Proof.
  split; [apply yield_entries_encoded|]. split; [reflexivity|]. split; [reflexivity|].
  intros upstream [|fuel] mediaId P w; [reflexivity|].
  unfold fetchAnimeCompleters. now rewrite crawl_fails.
Qed.

End CrawlerClaims.

(* ================================================================= *)
(** ** The batch pipeline *)

Section PipelineFacts.
Import AnilistAPI CollectUserdata.

(** *** The number of batches, [math.ceil(len(user_ids) / batch_size)] *)

Lemma round_half_even_bounds n d :
  0 <= n -> 0 < d ->
  n / d <= round_half_even n d <= n / d + 1
  /\ (n mod d = 0 -> round_half_even n d = n / d)
  /\ (d < 2 * (n mod d) -> round_half_even n d = n / d + 1).
Proof.
  intros Hn Hd. unfold round_half_even.
  pose proof (Z.mod_pos_bound n d Hd) as Hr.
  destruct (Z.ltb_spec (2 * (n mod d)) d); [repeat split; lia|].
  destruct (Z.ltb_spec d (2 * (n mod d))); [repeat split; lia|].
  destruct (Z.even (n / d)); repeat split; lia.
Qed.

Lemma log2_quotient_spec a b :
  0 < a -> 0 < b ->
  let l := log2_quotient a b in
  (0 <= l -> b * 2 ^ l <= a) /\ (l < 0 -> b <= a * 2 ^ (- l))
  /\ l <= Z.log2 a - Z.log2 b.
Proof.
  intros Ha Hb. unfold log2_quotient. set (d := Z.log2 a - Z.log2 b).
  pose proof (Z.log2_spec a Ha) as [La1 La2].
  pose proof (Z.log2_spec b Hb) as [Lb1 Lb2].
  pose proof (Z.log2_nonneg a) as Na. pose proof (Z.log2_nonneg b) as Nb.
  assert (0 <= d - 1 -> b * 2 ^ (d - 1) <= a) as H1.
  { intros Hd.
    assert (2 ^ Z.log2 a = 2 ^ (d - 1) * 2 ^ Z.succ (Z.log2 b)) as E.
    { rewrite <- Z.pow_add_r by lia. f_equal. unfold d. lia. }
    assert (0 < 2 ^ (d - 1)) by (apply Z.pow_pos_nonneg; lia).
    nia. }
  assert (d - 1 < 0 -> b <= a * 2 ^ (- (d - 1))) as H2.
  { intros Hd.
    assert (2 ^ Z.succ (Z.log2 b) = 2 ^ Z.log2 a * 2 ^ (- (d - 1))) as E.
    { rewrite <- Z.pow_add_r by lia. f_equal. unfold d. lia. }
    assert (0 < 2 ^ (- (d - 1))) by (apply Z.pow_pos_nonneg; lia).
    nia. }
  cbv zeta.
  destruct (Z.leb_spec 0 d) as [Hd|Hd].
  - destruct (Z.leb_spec (b * 2 ^ d) a) as [Hq|Hq].
    + repeat split; lia.
    + split; [|split]; [exact H1|exact H2|lia].
  - destruct (Z.leb_spec b (a * 2 ^ (- d))) as [Hq|Hq].
    + repeat split; lia.
    + split; [|split]; [exact H1|exact H2|lia].
Qed.

(** The ceiling of [m / E] is that of [a / b] when [m] is [a * E / b]
    rounded to the nearest and [b < 2 * E]. *)
Lemma ceil_rounded a b E :
  0 < a -> 0 < b -> 0 < E -> b < 2 * E ->
  - ((- round_half_even (a * E) b) / E) = - ((- a) / b).
Proof.
  intros Ha Hb HE HbE.
  destruct (round_half_even_bounds (a * E) b ltac:(nia) Hb) as (Hm & Hexact & Hup).
  set (m := round_half_even (a * E) b) in *.
  set (c := - ((- a) / b)).
  assert ((c - 1) * b < a <= c * b) as Hc.
  { unfold c. pose proof (Z.div_mod (- a) b ltac:(lia)).
    pose proof (Z.mod_pos_bound (- a) b Hb). nia. }
  pose proof (Z.div_mod (a * E) b ltac:(lia)) as Hdm.
  pose proof (Z.mod_pos_bound (a * E) b Hb) as Hr.
  set (k := a * E / b) in *. set (r := (a * E) mod b) in *.
  (* (c - 1) * E < m <= c * E *)
  assert (m <= c * E) as Hhi.
  { destruct (Z.eq_dec r 0) as [Hr0|Hr0].
    - rewrite (Hexact Hr0). nia.
    - assert (k < c * E) by nia. lia. }
  assert ((c - 1) * E < m) as Hlo.
  { assert ((c - 1) * E <= k) by nia.
    destruct (Z.eq_dec k ((c - 1) * E)) as [Hk|Hk]; [|lia].
    assert (E <= r) by nia.
    rewrite Hup by lia. lia. }
  assert ((- m) / E = - c) as ->.
  { symmetry. apply (Z.div_unique (- m) E (- c) (c * E - m)); [left; lia|nia]. }
  fold c. lia.
Qed.

Lemma truediv_exponent a b :
  0 < a < 2 ^ 53 -> 0 < b < 2 ^ 1075 ->
  let e := snd (truediv a b) in
  e <= 0 /\ b < 2 * 2 ^ (- e).
Proof.
  intros Ha Hb. unfold truediv. cbn [snd].
  destruct (log2_quotient_spec a b) as (H1 & H2 & H3); [lia|lia|].
  set (l := log2_quotient a b) in *.
  assert (Z.log2 a < 53) as La by (apply Z.log2_lt_pow2; lia).
  pose proof (Z.log2_nonneg b) as Nb.
  split; [lia|].
  destruct (Z.max_spec (-1074) (l - 52)) as [[Hlt ->]|[Hge ->]].
  - (* e = l - 52 *)
    replace (- (l - 52)) with (52 - l) by lia.
    destruct (Z.lt_ge_cases l 0) as [Hl|Hl].
    + specialize (H2 Hl).
      assert (2 ^ (52 - l) = 2 ^ 52 * 2 ^ (- l)) as ->
        by (rewrite <- Z.pow_add_r by lia; f_equal; lia).
      assert (0 < 2 ^ (- l)) by (apply Z.pow_pos_nonneg; lia).
      change (2 ^ 53) with (2 * 2 ^ 52) in Ha. nia.
    + specialize (H1 Hl).
      assert (2 ^ 52 = 2 ^ (52 - l) * 2 ^ l) as E
        by (rewrite <- Z.pow_add_r by lia; f_equal; lia).
      assert (0 < 2 ^ l) by (apply Z.pow_pos_nonneg; lia).
      assert (0 < 2 ^ (52 - l)) by (apply Z.pow_pos_nonneg; lia).
      change (2 ^ 53) with (2 * 2 ^ 52) in Ha. nia.
  - change (- -1074) with 1074. change (2 ^ 1075) with (2 * 2 ^ 1074) in Hb. lia.
Qed.

(** The float quotient does not change the ceiling, for the lengths that a
    list can have and a divisor below [2^1075]. *)
Lemma ceil_div_exact a b :
  0 <= a < 2 ^ 53 -> 0 < b < 2 ^ 1075 -> ceil_div a b = - ((- a) / b).
Proof.
  intros Ha Hb. unfold ceil_div.
  destruct (Z.eqb_spec a 0) as [->|Hne]; [reflexivity|].
  rewrite !Z.abs_eq by lia.
  destruct (truediv_exponent a b ltac:(lia) Hb) as (He & HbE).
  unfold truediv in *. cbn [snd] in *.
  set (e := Z.max (-1074) (log2_quotient a b - 52)) in *.
  replace (a <? 0) with false by (symmetry; apply Z.ltb_ge; lia).
  replace (b <? 0) with false by (symmetry; apply Z.ltb_ge; lia).
  cbn [Bool.eqb].
  assert (0 < 2 ^ (- e)) as HE by (apply Z.pow_pos_nonneg; lia).
  destruct (Z.ltb_spec e 0) as [Hneg|Hz].
  - apply ceil_rounded; lia.
  - assert (e = 0) as E0 by lia. rewrite E0 in *. change (2 ^ (- 0)) with 1 in *.
    change (2 ^ 0) with 1. rewrite !Z.mul_1_r.
    pose proof (ceil_rounded a b 1 ltac:(lia) ltac:(lia) ltac:(lia) ltac:(lia)) as H.
    rewrite Z.mul_1_r, Z.div_1_r in H. lia.
Qed.

Lemma ceil_div_0 b : ceil_div 0 b = 0.
Proof. reflexivity. Qed.

Lemma round_half_even_nonneg n d : 0 <= n -> 0 < d -> 0 <= round_half_even n d.
Proof.
  intros Hn Hd. destruct (round_half_even_bounds n d Hn Hd) as (H & _).
  pose proof (Z.div_pos n d Hn Hd). lia.
Qed.

Lemma ceil_div_neg a b : 0 <= a -> b < 0 -> ceil_div a b <= 0.
Proof.
  intros Ha Hb. unfold ceil_div.
  destruct (Z.eqb_spec a 0) as [->|Hne]; [lia|].
  unfold truediv.
  set (e := Z.max (-1074) (log2_quotient (Z.abs a) (Z.abs b) - 52)).
  replace (a <? 0) with false by (symmetry; apply Z.ltb_ge; lia).
  replace (b <? 0) with true by (symmetry; apply Z.ltb_lt; lia).
  cbn [Bool.eqb].
  destruct (Z.ltb_spec e 0) as [Hneg|Hz].
  - assert (0 < 2 ^ (- e)) as HE by (apply Z.pow_pos_nonneg; lia).
    assert (0 <= round_half_even (Z.abs a * 2 ^ (- e)) (Z.abs b))
      by (apply round_half_even_nonneg; nia).
    assert (0 <= round_half_even (Z.abs a * 2 ^ (- e)) (Z.abs b) / 2 ^ (- e))
      by (apply Z.div_pos; lia).
    lia.
  - assert (0 < 2 ^ e) as HE by (apply Z.pow_pos_nonneg; lia).
    assert (0 <= round_half_even (Z.abs a) (Z.abs b * 2 ^ e))
      by (apply round_half_even_nonneg; nia).
    nia.
Qed.


Lemma dict_set_keys {K V} (eqb : K -> K -> bool) (d : list (K * V)) k v k' :
  In k' (map fst (dict_set eqb d k v)) -> k' = k \/ In k' (map fst d).
Proof.
  induction d as [|[k0 v0] d IH]; simpl.
  - intros [<-|[]]. now left.
  - destruct (eqb k0 k); simpl; intros [<-|H]; auto.
    destruct (IH H); auto.
Qed.

(** The keys of the decoded mapping are users of the batch, whatever the
    response held. *)
Lemma decode_users_keys response : forall ius res res',
  decode_users response ius res = Ok res' ->
  forall u, In u (map fst res') -> In u (map fst res) \/ In u (map snd ius).
Proof.
  induction ius as [|[i u0] ius IH]; intros res res' H u Hu.
  - inversion H; subst. now left.
  - cbn [decode_users] in H.
    destruct (getitem response "data") as [d|]; [|discriminate].
    cbn [bind] in H.
    destruct (getitem d ("u" ++ str_of_Z i)) as [user_data|]; [|discriminate].
    cbn [bind] in H.
    assert (forall entries,
              decode_users response ius (dict_set user_eqb res u0 entries) = Ok res' ->
              In u (map fst res) \/ In u (map snd ((i, u0) :: ius))) as Hset.
    { intros entries H'. destruct (IH _ _ H' u Hu) as [Hin|Hin].
      - apply dict_set_keys in Hin as [->|Hin]; [right; now left|now left].
      - right; now right. }
    destruct user_data;
      try (destruct (user_entries _) as [entries|]; [|discriminate];
           cbn [bind] in H; now apply (Hset entries)).
    destruct (IH _ _ H u Hu); [now left|right; now right].
Qed.

Lemma fetch_ids_keys upstream batch w res w' :
  fetchCompletedAnime upstream None (Some (Many batch)) w = (Ok res, w') ->
  forall u, In u (map fst res) -> exists n, u = UserId n /\ In n batch.
Proof.
  unfold fetchCompletedAnime. cbn [option_map as_list].
  destruct (_make_request upstream _ w) as [[response|e] w1]; [|discriminate].
  intros H u Hu. inversion H as [[Hd Hw]]; clear H.
  destruct (decode_users_keys _ _ _ _ Hd u Hu) as [[]|Hin].
  rewrite enumerate1_snd in Hin.
  apply in_map_iff in Hin as (n & <- & Hn). eauto.
Qed.

(** What [store_user] and [store_batch] record is keyed by the users they
    are given. *)
Lemma store_user_only u : forall entries r r',
  store_user r u entries = Ok r' ->
  forall k x, recorded r' k x ->
    recorded r k x \/ exists sc, x = JObj [(user_str u, sc)].
Proof.
  induction entries as [|a entries IH]; intros r r' H k x Hx.
  - inversion H; subst. now left.
  - cbn [store_user] in H.
    destruct (str (mediaId a)) as [key|]; [|discriminate]. cbn [bind] in H.
    destruct (IH _ _ H k x Hx) as [Hr|Hr]; [|now right].
    apply append_rating_only in Hr as [Hr| ->]; [now left|right; eauto].
Qed.

Lemma store_batch_only : forall items r r',
  store_batch r items = Ok r' ->
  forall k x, recorded r' k x ->
    recorded r k x
    \/ exists u sc, In u (map fst items) /\ x = JObj [(user_str u, sc)].
Proof.
  induction items as [|[u entries] items IH]; intros r r' H k x Hx.
  - inversion H; subst. now left.
  - cbn [store_batch] in H.
    destruct (store_user r u entries) as [r1|] eqn:E; [|discriminate].
    cbn [bind] in H.
    destruct (IH _ _ H k x Hx) as [Hr|(u' & sc & Hu' & ->)].
    + destruct (store_user_only _ _ _ _ E k x Hr) as [Hr'|(sc & ->)];
        [now left|right].
      exists u, sc. split; [now left|reflexivity].
    + right. exists u', sc. split; [now right|reflexivity].
Qed.

(** They raise nothing that the pipeline or the client raises on purpose. *)
Lemma store_user_raise u : forall entries r e,
  store_user r u entries = Raise e -> exists what, e = Unmodelled what.
Proof.
  induction entries as [|a entries IH]; intros r e H; [discriminate|].
  cbn [store_user] in H.
  destruct (str (mediaId a)) as [key|e'] eqn:E; cbn [bind] in H.
  - eauto.
  - inversion H; subst. unfold str in E.
    destruct (mediaId a) as [|[|]| | | |]; try discriminate; inversion E; eauto.
Qed.

Lemma store_batch_raise : forall items r e,
  store_batch r items = Raise e -> exists what, e = Unmodelled what.
Proof.
  induction items as [|[u entries] items IH]; intros r e H; [discriminate|].
  cbn [store_batch] in H.
  destruct (store_user r u entries) as [r1|e'] eqn:E; cbn [bind] in H.
  - eauto.
  - inversion H; subst. eapply store_user_raise. exact E.
Qed.

Lemma in_firstn_le {A} (x : A) l n m :
  (n <= m)%nat -> In x (firstn n l) -> In x (firstn m l).
Proof.
  revert n m. induction l as [|y l IH]; intros n m Hle.
  - now rewrite !firstn_nil.
  - destruct n as [|n]; [intros []|].
    destruct m as [|m]; [lia|]. simpl. intros [->|H]; [now left|right].
    apply (IH n m); [lia|assumption].
Qed.

Lemma in_firstn_skipn {A} (x : A) l s n :
  In x (firstn n (skipn s l)) -> In x (firstn (s + n) l).
Proof.
  revert l. induction s as [|s IH]; intros l; [now rewrite skipn_O|].
  destruct l as [|y l]; [now rewrite skipn_nil, !firstn_nil|].
  simpl. intros H. right. now apply IH.
Qed.

(** The users of a batch are among the first [stop] of the list. *)
Lemma in_slice (l : list Z) start stop x :
  0 <= start -> 0 <= stop <= Z.of_nat (List.length l) ->
  In x (slice l start stop) -> In x (firstn (Z.to_nat stop) l).
Proof.
  unfold slice, slice_index. intros Hs He.
  replace (start <? 0) with false by (symmetry; apply Z.ltb_ge; lia).
  replace (stop <? 0) with false by (symmetry; apply Z.ltb_ge; lia).
  intros H.
  destruct (Z.le_gt_cases (Z.min stop (Z.of_nat (List.length l)))
                          (Z.min start (Z.of_nat (List.length l)))) as [Hle|Hgt].
  - replace (Z.to_nat _) with 0%nat in H by lia. destruct H.
  - apply in_firstn_skipn in H. revert H. apply in_firstn_le. lia.
Qed.

Lemma slice_from_nonneg (l : list Z) stop :
  0 <= stop <= Z.of_nat (List.length l) ->
  slice_from l stop = skipn (Z.to_nat stop) l.
Proof.
  unfold slice_from, slice_index. intros H.
  replace (stop <? 0) with false by (symmetry; apply Z.ltb_ge; lia).
  f_equal. lia.
Qed.

Lemma in_skipn {A} (x : A) l n : In x (skipn n l) -> In x l.
Proof.
  revert l. induction n as [|n IH]; intros l; [now rewrite skipn_O|].
  destruct l as [|y l]; [intros []|]. simpl. intros H. right. now apply IH.
Qed.

Lemma NoDup_prefix_suffix {A} (l : list A) n x :
  NoDup l -> In x (firstn n l) -> ~ In x (skipn n l).
Proof.
  revert n. induction l as [|y l IH]; intros n Hnd.
  - now rewrite firstn_nil.
  - destruct n as [|n]; [intros []|].
    inversion Hnd as [|? ? Hy Hnd']; subst. simpl. intros [->|H].
    + intros Hin. apply Hy. now apply (in_skipn _ _ n).
    + now apply IH.
Qed.

End PipelineFacts.

Section PipelineClaims.
Import AnilistAPI CollectUserdata.
Variable upstream : nat -> attempt.

Lemma nothing_folded u : ~ folded u [].
Proof. intros (k & s & l & Hl & _). discriminate. Qed.

(** Every checkpoint yielded from batch [b] on leaves as remaining users
    the list after the batches processed, and its ratings name only users
    of those batches. *)
Lemma batch_loop_yields user_ids batch_size total_batches :
  0 < batch_size ->
  forall n b ratings w cs ending final w',
    batch_loop upstream user_ids batch_size total_batches
               (map Z.of_nat (seq b n)) ratings w = (cs, ending, final, w') ->
    (forall u, folded u ratings ->
       In u (firstn (Z.to_nat (Z.min (Z.of_nat b * batch_size)
                                     (Z.of_nat (List.length user_ids)))) user_ids)) ->
    forall c, In c cs ->
      remaining_users c = skipn (processed user_ids batch_size c) user_ids
      /\ (forall u, folded u (CollectUserdata.ratings c) ->
            In u (firstn (processed user_ids batch_size c) user_ids)).
Proof.
  intros Hbs. set (len := Z.of_nat (List.length user_ids)).
  induction n as [|n IH]; intros b ratings w cs ending final w' H Hinv c Hc.
  - inversion H; subst. destruct Hc.
  - cbn [seq map batch_loop] in H. fold len in H.
    set (stop := Z.min ((Z.of_nat b + 1) * batch_size) len) in *.
    assert (0 <= stop <= len) as Hstop by (unfold stop, len; lia).
    assert (forall r, (forall u, folded u r ->
                         In u (firstn (Z.to_nat stop) user_ids)) ->
              forall u, folded u r ->
                In u (firstn (Z.to_nat (Z.min (Z.of_nat (S b) * batch_size) len))
                             user_ids)) as Hnext.
    { intros r Hr u Hu. replace (Z.of_nat (S b)) with (Z.of_nat b + 1) by lia.
      now apply Hr. }
    assert (forall u, folded u ratings -> In u (firstn (Z.to_nat stop) user_ids))
      as Hinv'.
    { intros u Hu. apply Hinv in Hu. revert Hu. apply in_firstn_le.
      unfold stop. fold len. nia. }
    destruct (fetchCompletedAnime upstream None
                (Some (Many (slice user_ids (Z.of_nat b * batch_size) stop))) w)
      as [[batch_anime|e] w1] eqn:EF.
    2:{ destruct e; try (inversion H; subst; now destruct Hc);
          apply (IH _ _ _ _ _ _ _ H (Hnext _ Hinv') c Hc). }
    destruct (store_batch ratings batch_anime) as [ratings'|e] eqn:ES;
      [|inversion H; subst; now destruct Hc].
    assert (forall u, folded u ratings' -> In u (firstn (Z.to_nat stop) user_ids))
      as Hinv''.
    { intros u (k & s & Hrec).
      destruct (store_batch_only _ _ _ ES _ _ Hrec) as [Hold|(x & sc & Hx & E)].
      - apply Hinv'. now exists k, s.
      - destruct (fetch_ids_keys _ _ _ _ _ EF x Hx) as (m & -> & Hm).
        inversion E as [[Eu Es]]. apply str_of_Z_inj in Eu. subst m.
        apply in_slice in Hm; [assumption|nia|assumption]. }
    destruct (((Z.of_nat b + 1) mod 20 =? 0) || (Z.of_nat b =? total_batches - 1)).
    + destruct (batch_loop upstream user_ids batch_size total_batches
                  (map Z.of_nat (seq (S b) n)) ratings' w1)
        as [[[cs' ending'] final'] w2] eqn:EL.
      inversion H; subst; clear H.
      destruct Hc as [<-|Hc].
      * unfold processed. cbn [last_batch remaining_users CollectUserdata.ratings].
        fold len. fold stop. split; [|assumption].
        now apply slice_from_nonneg.
      * apply (IH _ _ _ _ _ _ _ EL (Hnext _ Hinv'') c Hc).
    + apply (IH _ _ _ _ _ _ _ H (Hnext _ Hinv'') c Hc).
Qed.

(** C8, as the code has it.  For every user list, batch size and upstream,
    each checkpoint yielded has as [remaining_users] the input list
    without the users of the batches up to its own, and its ratings name
    only users among those; so, when no id is repeated in the input, a
    user folded into the ratings is not among the remaining users. *)
Theorem remaining_users_is_the_unprocessed_suffix :
  forall user_ids batch_size w cs ending final w' c,
    fetch_and_store_ratings upstream user_ids batch_size w = (cs, ending, final, w') ->
    In c cs ->
    remaining_users c = skipn (processed user_ids batch_size c) user_ids
    /\ (forall u, folded u (CollectUserdata.ratings c) ->
          In u (firstn (processed user_ids batch_size c) user_ids))
    /\ (NoDup user_ids ->
        forall u, folded u (CollectUserdata.ratings c) -> ~ In u (remaining_users c)).
Proof.
  intros user_ids bs w cs ending final w' c H Hc.
  assert (remaining_users c = skipn (processed user_ids bs c) user_ids
          /\ (forall u, folded u (CollectUserdata.ratings c) ->
                In u (firstn (processed user_ids bs c) user_ids))) as [Hrem Hfold].
  { unfold fetch_and_store_ratings in H.
    destruct (bs =? 0) eqn:E0; [inversion H; subst; now destruct Hc|].
    apply Z.eqb_neq in E0.
    destruct (Z.lt_ge_cases 0 bs) as [Hpos|Hneg].
    - unfold range in H.
      apply (batch_loop_yields user_ids bs _ Hpos _ 0%nat [] w cs ending final w' H);
        [|assumption].
      intros u Hu. now apply nothing_folded in Hu.
    - assert (range (ceil_div (Z.of_nat (List.length user_ids)) bs) = []) as E.
      { unfold range.
        pose proof (ceil_div_neg (Z.of_nat (List.length user_ids)) bs
                      ltac:(lia) ltac:(lia)) as Hq.
        replace (Z.to_nat _) with 0%nat by lia. reflexivity. }
      rewrite E in H. inversion H; subst. destruct Hc. }
  split; [assumption|]. split; [assumption|].
  intros Hnd u Hu. rewrite Hrem. apply NoDup_prefix_suffix; auto.
Qed.

End PipelineClaims.

Section RunClaims.
Import AnilistAPI CollectUserdata.

Lemma remaining_users_is_the_unprocessed_suffix_witness :
  let c := {| CollectUserdata.ratings :=
                [("1"%string, [JObj [("7"%string, JNum 80)];
                               JObj [("9"%string, JNum 80)]])];
              remaining_users := [];
              last_batch := 1 |} in
  remaining_users c = skipn (processed [7; 8; 9] 2 c) [7; 8; 9]
  /\ (forall u, folded u (CollectUserdata.ratings c) ->
        In u (firstn (processed [7; 8; 9] 2 c) [7; 8; 9]))
  /\ (NoDup [7; 8; 9] ->
      forall u, folded u (CollectUserdata.ratings c) -> ~ In u (remaining_users c)).
Proof.
  intros c.
  eapply (remaining_users_is_the_unprocessed_suffix
            (fun _ => ok (encode_batch [Some [[(1, JNull, 80)]]; None]))
            [7; 8; 9] 2 world0).
  - vm_compute. reflexivity.
  - left. reflexivity.
Defined.

(** C8 as stated fails when an id is repeated in the input: with the same
    id 21 times and batches of one, the checkpoint after the twentieth
    batch still lists the id as remaining although its entries are
    folded into the ratings. *)
Lemma repeated_id_stays_in_remaining_users :
  let cs := fst (fst (fst (fetch_and_store_ratings
                             (fun _ => ok (encode_batch [Some [[(1, JNull, 80)]]]))
                             (repeat 7 21) 1 world0))) in
  exists c, In c cs /\ last_batch c = 19
            /\ In 7 (remaining_users c) /\ folded 7 (CollectUserdata.ratings c).
Proof.
  eexists. split; [vm_compute; left; reflexivity|].
  split; [reflexivity|]. split; [left; reflexivity|].
  exists "1"%string, (JNum 80). eexists. split; [reflexivity|left; reflexivity].
Qed.

(** C9.  A checkpoint written by [save_checkpoint] is read back by
    [load_checkpoint] as the same triple: the ratings dict, the remaining
    users and the last batch, for all JSON values of the three and so for
    every triple of the checkpoint schema; and the list of remaining user
    ids that [main] saves is the list it gets back when it resumes. *)
Theorem checkpoint_round_trip :
  forall (ratings : list (string * json)) (remaining_users last_batch : json),
    load_checkpoint (save_checkpoint ratings remaining_users last_batch)
    = Ok (Some (ratings, remaining_users, last_batch))
    /\ (forall ids : list Z,
          remaining_users = JArr (map JNum ids) ->
          as_user_ids remaining_users = Ok ids).
Proof.
  intros ratings remaining_users last_batch. split; [reflexivity|].
  intros ids ->. unfold as_user_ids.
  induction ids as [|n ids IH]; [reflexivity|].
  cbn [map mapM]. now rewrite IH.
Qed.

Variable upstream : nat -> attempt.

(** The generator never ends by an AnilistRequestError. *)
Lemma batch_loop_ending user_ids batch_size total_batches cause :
  forall nums ratings w cs ending final w',
    batch_loop upstream user_ids batch_size total_batches nums ratings w
    = (cs, ending, final, w') ->
    ending <> Raised (AnilistRequestError cause).
Proof.
  induction nums as [|b nums IH]; intros ratings w cs ending final w' H.
  - inversion H; subst. discriminate.
  - cbn [batch_loop] in H.
    destruct (fetchCompletedAnime upstream None _ w) as [[batch_anime|e] w1].
    2:{ destruct e; try (inversion H; subst; discriminate);
          apply (IH _ _ _ _ _ _ H). }
    destruct (store_batch ratings batch_anime) as [ratings'|e] eqn:ES.
    2:{ apply store_batch_raise in ES as (what & ->).
        inversion H; subst. discriminate. }
    destruct (_ || _).
    + destruct (batch_loop upstream user_ids batch_size total_batches nums ratings' w1)
        as [[[cs' ending'] final'] w2] eqn:EL.
      inversion H; subst. apply (IH _ _ _ _ _ _ EL).
    + apply (IH _ _ _ _ _ _ H).
Qed.

Lemma consume_unsaved : forall cs mine f, snd (consume false cs mine f) = f.
Proof. induction cs as [|c cs IH]; intros mine f; [reflexivity|]. apply IH. Qed.

(** After the loop over the checkpoints the file holds the last one, with
    the ratings [main] held when it was yielded. *)
Lemma consume_saved : forall cs c mine f,
  snd (consume true (cs ++ [c]) mine f)
  = save_checkpoint (deref (CollectUserdata.ratings c)
                           (fst (consume true (cs ++ [c]) mine f)))
                    (JArr (map JNum (remaining_users c)))
                    (JNum (last_batch c)).
Proof.
  induction cs as [|c0 cs IH]; intros c mine f; [reflexivity|].
  cbn [app consume]. apply IH.
Qed.

Lemma getitem_raise j k e :
  getitem j k = Raise e -> e = KeyError \/ e = TypeError.
Proof.
  unfold getitem. destruct j; try solve [intros H; inversion H; now right].
  destruct (sget fields k); intros H; inversion H. now left.
Qed.

Lemma as_user_ids_raise j e :
  as_user_ids j = Raise e -> exists what, e = Unmodelled what.
Proof.
  unfold as_user_ids. destruct j; try solve [intros H; inversion H; eauto].
  induction items as [|x items IH]; [discriminate|].
  cbn [mapM]. destruct x; try solve [intros H; inversion H; eauto].
  destruct (mapM _ items); [discriminate|].
  intros H. inversion H; subst. now apply IH.
Qed.

Lemma load_checkpoint_raise f e :
  load_checkpoint f = Raise e ->
  e = KeyError \/ e = TypeError \/ e = UnicodeDecodeError
  \/ exists what, e = Unmodelled what.
Proof.
  unfold load_checkpoint. destruct f as [| | |j]; try discriminate.
  { intros H. inversion H. auto. }
  destruct (getitem j "ratings") as [r|e0] eqn:E0; cbn [bind].
  2:{ intros H. inversion H; subst. apply getitem_raise in E0 as [->| ->]; auto. }
  destruct r; try solve [intros H; inversion H; eauto 6].
  destruct (getitem j "remaining_users") as [rem|e1] eqn:E1; cbn [bind].
  2:{ intros H. inversion H; subst. apply getitem_raise in E1 as [->| ->]; auto. }
  destruct (getitem j "last_batch") as [lb|e2] eqn:E2; cbn [bind]; [discriminate|].
  intros H. inversion H; subst. apply getitem_raise in E2 as [->| ->]; auto.
Qed.

Lemma run_exit save mine user_ids batch_size d cause :
  snd (run upstream save mine user_ids batch_size d)
  <> Uncaught (AnilistRequestError cause).
Proof.
  unfold run.
  destruct (fetch_and_store_ratings upstream user_ids batch_size world0)
    as [[[cs ending] final] w'] eqn:E.
  destruct (consume save cs mine (checkpoint_file_content d)) as [mine' ckpt].
  unfold fetch_and_store_ratings in E.
  destruct ending; cbn [snd]; try discriminate.
  intros H. inversion H; subst.
  destruct (batch_size =? 0); [inversion E|].
  now apply batch_loop_ending with (cause := cause) in E.
Qed.

(** No AnilistRequestError reaches the top level. *)
Lemma main_exit arg batch_size d cause :
  snd (main upstream arg batch_size d) <> Uncaught (AnilistRequestError cause).
Proof.
  unfold main. destruct arg.
  - destruct (userid_list_file d) as [| | |j]; try discriminate.
    destruct (as_user_ids j) as [ids|e] eqn:E; [apply run_exit|].
    apply as_user_ids_raise in E as (what & ->). discriminate.
  - destruct (load_checkpoint (checkpoint_file_content d))
      as [[[[loaded remaining] lb]|]|e] eqn:E.
    + destruct (as_user_ids remaining) as [ids|e] eqn:E'; [apply run_exit|].
      apply as_user_ids_raise in E' as (what & ->). discriminate.
    + discriminate.
    + apply load_checkpoint_raise in E as [->|[->|[->|(what & ->)]]]; discriminate.
Qed.

(** C1, as the code has it.  An AnilistRequestError raised by the
    executor during a batch is caught by the batch pipeline: the
    generator returns there, without a further request or checkpoint, and
    never ends by that error, nor does [main].  When the generator has ended without an
    exception, interrupted in this way or not, [main] writes the result
    file from the ratings it holds and returns (exit status 0); the
    checkpoint file then holds the last checkpoint yielded, or what it
    held before when none was yielded or no checkpoint file is in use. *)
Theorem request_error_is_caught_by_the_pipeline :
  forall user_ids batch_size,
    (forall total_batches b rest ratings w cause w1,
       fetchCompletedAnime upstream None
         (Some (Many (slice user_ids (b * batch_size)
                        (Z.min ((b + 1) * batch_size)
                               (Z.of_nat (List.length user_ids)))))) w
       = (Raise (AnilistRequestError cause), w1) ->
       batch_loop upstream user_ids batch_size total_batches (b :: rest) ratings w
       = ([], StopIteration, ratings, w1))
    /\ (forall w cs ending final w' cause,
          fetch_and_store_ratings upstream user_ids batch_size w
          = (cs, ending, final, w') ->
          ending <> Raised (AnilistRequestError cause))
    /\ (forall arg d cause,
          snd (main upstream arg batch_size d) <> Uncaught (AnilistRequestError cause))
    /\ (forall save mine d cs final w' d' x,
          fetch_and_store_ratings upstream user_ids batch_size world0
          = (cs, StopIteration, final, w') ->
          run upstream save mine user_ids batch_size d = (d', x) ->
          x = Returned /\ exit_status x = 0
          /\ ratings_out d'
             = save_results (deref final (fst (consume save cs mine
                                                 (checkpoint_file_content d))))
          /\ (save = false \/ cs = [] ->
              checkpoint_file_content d' = checkpoint_file_content d)
          /\ (forall cs0 c, save = true -> cs = (cs0 ++ [c])%list ->
                checkpoint_file_content d'
                = save_checkpoint
                    (deref (CollectUserdata.ratings c)
                           (fst (consume save cs mine (checkpoint_file_content d))))
                    (JArr (map JNum (remaining_users c)))
                    (JNum (last_batch c)))).
Proof.
  intros user_ids bs. split; [|split; [|split]].
  - intros total b rest ratings w cause w1 H. cbn [batch_loop]. now rewrite H.
  - intros w cs ending final w' cause H. unfold fetch_and_store_ratings in H.
    destruct (bs =? 0); [inversion H; subst; discriminate|].
    apply (batch_loop_ending _ _ _ _ _ _ _ _ _ _ _ H).
  - intros arg d cause. apply main_exit.
  - intros save mine d cs final w' d' x Hgen Hrun.
    unfold run in Hrun. rewrite Hgen in Hrun.
    destruct (consume save cs mine (checkpoint_file_content d)) as [mine' ckpt] eqn:EC.
    inversion Hrun; subst; clear Hrun. cbn [ratings_out checkpoint_file_content fst].
    repeat split.
    + intros [->| ->].
      * pose proof (consume_unsaved cs mine (checkpoint_file_content d)) as H.
        now rewrite EC in H.
      * now inversion EC.
    + intros cs0 c -> ->.
      pose proof (consume_saved cs0 c mine (checkpoint_file_content d)) as H.
      now rewrite EC in H.
Qed.

End RunClaims.

Section RunWitnesses.
Import AnilistAPI CollectUserdata.

(** C1 as stated fails: every attempt of the only batch is answered 500,
    so the executor raises AnilistRequestError; [main] all the same
    returns, with exit status 0, and has written the result file. *)
Lemma request_error_ends_with_a_result_file :
  let upstream := fun _ : nat => Replied {| status_code := 500; body := None |} in
  fst (fetchCompletedAnime upstream None (Some (Many [7])) world0)
  = Raise (AnilistRequestError (Some (HTTPError 500)))
  /\ main upstream userid_list 1
          {| userid_list_file := Json (JArr [JNum 7]);
             checkpoint_file_content := Absent;
             ratings_out := Absent |}
     = ({| userid_list_file := Json (JArr [JNum 7]);
           checkpoint_file_content := Absent;
           ratings_out := Json (JObj []) |}, Returned)
  /\ exit_status Returned = 0.
Proof. repeat split. Qed.

(** The lists that [main] holds are the generator's own: a run interrupted
    after its last checkpoint writes, for the media ids known at that
    checkpoint, also what later batches appended, and leaves out the media
    ids met since. *)
Example shared_lists_reach_the_result_file :
  let upstream := fun n : nat =>
    if (n <? 20)%nat then ok (encode_batch [Some [[(1, JNull, 80)]]])
    else if (n =? 20)%nat then ok (encode_batch [Some [[(1, JNull, 50); (2, JNull, 60)]]])
    else Replied {| status_code := 500; body := None |} in
  let d := {| userid_list_file := Json (JArr (map JNum (map Z.of_nat (seq 100 25))));
              checkpoint_file_content := Absent;
              ratings_out := Absent |} in
  exists l,
    ratings_out (fst (main upstream userid_list 1 d))
    = Json (JObj [("1"%string, JArr l)])
    /\ List.length l = 21%nat
    /\ last l JNull = JObj [("120"%string, JNum 50)].
Proof. eexists. split; [vm_compute; reflexivity|]. split; reflexivity. Qed.

Lemma request_error_is_caught_by_the_pipeline_witness :
  let upstream := fun _ : nat => Replied {| status_code := 500; body := None |} in
  let d := {| userid_list_file := Absent;
              checkpoint_file_content := Json (JObj [("ratings"%string, JObj [])]);
              ratings_out := Absent |} in
  batch_loop upstream [7] 1 1 [0] [] world0
  = ([], StopIteration, [],
     after world0 (repeat [("id1"%string, JNum 7)] 10) (backoff 9))
  /\ snd (run upstream true [] [7] 1 d) = Returned
  /\ checkpoint_file_content (fst (run upstream true [] [7] 1 d))
     = checkpoint_file_content d.
Proof.
  intros upstream d.
  destruct (request_error_is_caught_by_the_pipeline upstream [7] 1)
    as (Ha & _ & _ & Hc).
  split; [|split].
  - apply (Ha 1 0 [] [] world0 (Some (HTTPError 500))). reflexivity.
  - destruct (run upstream true [] [7] 1 d) as [d' x] eqn:E.
    apply (Hc true [] d [] [] _ d' x eq_refl E).
  - destruct (run upstream true [] [7] 1 d) as [d' x] eqn:E.
    apply (Hc true [] d [] [] _ d' x eq_refl E). now right.
Defined.

End RunWitnesses.


(* ================================================================= *)
(** ** Further properties of the request executor *)

Section ExecutorBounds.
Import AnilistAPI.
Variable upstream : nat -> attempt.
Variable variables : list (string * json).

Lemma post_attempt w :
  post upstream variables (_rate_limit w)
  = (upstream (List.length (sent w)), after w [variables] []).
Proof.
  unfold post, _rate_limit, after; simpl. rewrite app_nil_r. do 2 f_equal. lia.
Qed.

(** What the loop has done to the world when it ends, however it ends. *)
Lemma loop_effects : forall todo attempt l w,
  0 <= attempt -> attempt + Z.of_nat todo = 10 -> (1 <= todo)%nat ->
  exists n, (1 <= n <= todo)%nat
    /\ snd (request_loop upstream variables todo attempt l w)
       = after w (repeat variables n)
                 (map (fun i => 60 * (attempt + Z.of_nat i)) (seq 1 (n - 1))).
Proof.
  induction todo as [|todo IH]; intros attempt l w H0 Hsum Hpos; [lia|].
  cbn [request_loop]. rewrite post_attempt.
  destruct (try_request (upstream (List.length (sent w))) l) as [[j|e] l1].
  { exists 1%nat. split; [lia|reflexivity]. }
  destruct (inspect_404 variables l1) as [l2|x].
  2:{ exists 1%nat. split; [lia|reflexivity]. }
  destruct (attempt <? max_retries - 1) eqn:Hlt.
  2:{ exists 1%nat. split; [lia|reflexivity]. }
  apply Z.ltb_lt in Hlt. unfold max_retries in Hlt.
  destruct (IH (attempt + 1) l2 (sleep (60 * (attempt + 1)) (after w [variables] [])))
    as (n & Hn & E); [lia|lia|lia|].
  exists (S n). split; [lia|].
  rewrite E, sleep_after, after_after. f_equal.
  replace (S n - 1)%nat with (S (n - 1)) by lia.
  cbn [seq map app]. f_equal.
  rewrite <- (seq_shift (n - 1) 1), map_map. apply map_ext. intros i. lia.
Qed.


Lemma inspect_raises l x cause :
  inspect_404 variables l = Raise x -> x <> AnilistRequestError cause.
Proof.
  unfold inspect_404. destruct (response l) as [r|]; [|intros H; inversion H; discriminate].
  destruct (status_code r =? 404); [|discriminate].
  destruct (data _) as [d|]; [|intros H; inversion H; discriminate].
  destruct (contains "errors" d) as [[|]|e0] eqn:E0; cbn [bind];
    try solve [discriminate | intros H; inversion H; discriminate].
  2:{ intros H; inversion H; subst. unfold contains in E0.
      destruct d; inversion E0; discriminate. }
  destruct (getitem d "errors") as [errors|e1] eqn:E1; cbn [bind].
  2:{ intros H; inversion H; subst. apply getitem_raise in E1 as [->| ->]; discriminate. }
  destruct (getitem0 errors) as [first|e2] eqn:E2; cbn [bind].
  2:{ intros H; inversion H; subst. unfold getitem0 in E2.
      destruct errors as [| | |[|]|[|]|]; inversion E2; discriminate. }
  destruct (get first "message" (JStr "")) as [m|e3] eqn:E3; cbn [bind].
  2:{ intros H; inversion H; subst. unfold get in E3.
      destruct first; inversion E3; discriminate. }
  destruct (eq_str m "Private User"); [intros H; inversion H; discriminate|].
  destruct (eq_str m "User not found"); intros H; inversion H; discriminate.
Qed.

Lemma try_request_ok a l j l1 :
  try_request a l = (inl j, l1) ->
  exists r, a = Replied r /\ raises_for_status r = false /\ body r = Some j.
Proof.
  unfold try_request. destruct a as [|r]; [discriminate|].
  destruct (raises_for_status r) eqn:Hs; [discriminate|].
  destruct (body r) as [j0|] eqn:Hb; [|discriminate].
  intros H. inversion H; subst. exists r. auto.
Qed.

Lemma try_request_failure a l e l1 :
  try_request a l = (inr e, l1) -> e = failure_at a.
Proof.
  unfold try_request, failure_at, failure_of. destruct a as [|r].
  - intros H. now inversion H.
  - destruct (raises_for_status r); [intros H; now inversion H|].
    destruct (body r); intros H; now inversion H.
Qed.

(** How the loop can end with a value or with an AnilistRequestError. *)
Lemma loop_outcome : forall todo attempt l w,
  0 <= attempt -> attempt + Z.of_nat todo = 10 -> (1 <= todo)%nat ->
  (forall j, fst (request_loop upstream variables todo attempt l w) = Ok j ->
     exists n r, (n < todo)%nat
       /\ upstream (List.length (sent w) + n) = Replied r
       /\ raises_for_status r = false /\ body r = Some j
       /\ List.length (sent (snd (request_loop upstream variables todo attempt l w)))
          = (List.length (sent w) + n + 1)%nat)
  /\ (forall cause,
        fst (request_loop upstream variables todo attempt l w)
        = Raise (AnilistRequestError cause) ->
        cause = Some (failure_at (upstream (List.length (sent w) + todo - 1)))
        /\ List.length (sent (snd (request_loop upstream variables todo attempt l w)))
           = (List.length (sent w) + todo)%nat).
Proof.
  induction todo as [|todo IH]; intros attempt l w H0 Hsum Hpos; [lia|].
  cbn [request_loop]. rewrite post_attempt.
  assert (List.length (sent (after w [variables] [])) = S (List.length (sent w)))
    as Hone by (unfold after; cbn [sent]; rewrite length_app; simpl; lia).
  destruct (try_request (upstream (List.length (sent w))) l) as [[j0|e] l1] eqn:Htry.
  { cbn [fst snd]. split; [|discriminate].
    intros j Hj. inversion Hj; subst j0.
    apply try_request_ok in Htry as (r & Hr & Hs & Hb).
    exists 0%nat, r. rewrite Nat.add_0_r. repeat split; try assumption; lia. }
  destruct (inspect_404 variables l1) as [l2|x] eqn:Hin.
  2:{ cbn [fst]. split; [discriminate|].
      intros cause Hx. inversion Hx; subst x.
      now apply inspect_raises with (cause := cause) in Hin. }
  destruct (attempt <? max_retries - 1) eqn:Hlt.
  - apply Z.ltb_lt in Hlt. unfold max_retries in Hlt.
    destruct (IH (attempt + 1) l2 (sleep (60 * (attempt + 1)) (after w [variables] [])))
      as (Hok & Herr); [lia|lia|lia|].
    change (sent (sleep (60 * (attempt + 1)) (after w [variables] [])))
      with (sent (after w [variables] [])) in Hok, Herr.
    rewrite Hone in Hok, Herr. split.
    + intros j Hj. destruct (Hok j Hj) as (n & r & Hn & Hr & Hs & Hb & Hl).
      exists (S n), r. repeat split; try assumption; [lia| |lia].
      rewrite <- Hr. f_equal. lia.
    + intros cause Hc. destruct (Herr cause Hc) as (Hne & Hl).
      split; [|lia]. rewrite Hne. do 3 f_equal. lia.
  - cbn [fst snd]. apply Z.ltb_ge in Hlt. unfold max_retries in Hlt.
    split; [discriminate|].
    intros cause Hc. inversion Hc; subst. split; [|lia].
    apply try_request_failure in Htry. subst e.
    do 3 f_equal. lia.
Qed.

(** A value returned by [_make_request] is the JSON body of the reply to
    its last POST, a reply without an error status; an AnilistRequestError
    is raised only once ten POSTs have been made, and always wraps the
    failure of the tenth attempt: the ConnectionError of a POST that got no
    reply, the HTTPError of an error status, or the decoding error of a
    body that is not JSON (so the raise after the loop, which wraps
    nothing, is never reached). *)
Theorem make_request_outcome :
  forall w,
    (forall j, fst (_make_request upstream variables w) = Ok j ->
       exists n r, (n < 10)%nat
         /\ upstream (List.length (sent w) + n) = Replied r
         /\ raises_for_status r = false /\ body r = Some j
         /\ List.length (sent (snd (_make_request upstream variables w)))
            = (List.length (sent w) + n + 1)%nat)
    /\ (forall cause,
          fst (_make_request upstream variables w) = Raise (AnilistRequestError cause) ->
          cause = Some (failure_at (upstream (List.length (sent w) + 9)))
          /\ failure_at ConnectionFailed = ConnectionError
          /\ (forall r, failure_at (Replied r)
                        = if (400 <=? status_code r) && (status_code r <? 600)
                          then HTTPError (status_code r) else InvalidJSONError)
          /\ List.length (sent (snd (_make_request upstream variables w)))
             = (List.length (sent w) + 10)%nat).
Proof.
  intros w. unfold _make_request. change (Z.to_nat max_retries) with 10%nat.
  destruct (loop_outcome 10 0 no_locals w) as (Hok & Herr); [lia|lia|lia|].
  split; [exact Hok|]. intros cause Hc. destruct (Herr cause Hc) as (H1 & H2).
  split; [|split; [reflexivity|split; [reflexivity|exact H2]]].
  rewrite H1. do 3 f_equal. lia.
Qed.

End ExecutorBounds.

Section StaleResponse.
Import AnilistAPI.
Variable upstream : nat -> attempt.
Variable variables : list (string * json).

Lemma inspect_keeps_response l l' :
  inspect_404 variables l = Ok l' -> response l' = response l.
Proof.
  unfold inspect_404. destruct (response l) as [r|] eqn:Hr; [|discriminate].
  destruct (status_code r =? 404); [|intros H; inversion H; subst; assumption].
  destruct (body r) as [j|]; cbn [data].
  - destruct (contains "errors" j) as [[|]|]; cbn [bind]; try discriminate.
    + destruct (getitem j "errors") as [errors|]; cbn [bind]; try discriminate.
      destruct (getitem0 errors) as [first|]; cbn [bind]; try discriminate.
      destruct (get first "message" (JStr "")) as [m|]; cbn [bind]; try discriminate.
      destruct (eq_str m "Private User"); [discriminate|].
      destruct (eq_str m "User not found"); [discriminate|].
      intros H; inversion H; subst. reflexivity.
    + intros H; inversion H; subst. reflexivity.
  - destruct (data l) as [d|]; [|discriminate].
    destruct (contains "errors" d) as [[|]|]; cbn [bind]; try discriminate.
    + destruct (getitem d "errors") as [errors|]; cbn [bind]; try discriminate.
      destruct (getitem0 errors) as [first|]; cbn [bind]; try discriminate.
      destruct (get first "message" (JStr "")) as [m|]; cbn [bind]; try discriminate.
      destruct (eq_str m "Private User"); [discriminate|].
      destruct (eq_str m "User not found"); [discriminate|].
      intros H; inversion H; subst. assumption.
    + intros H; inversion H; subst. assumption.
Qed.

(** One retried attempt, when [response] is bound to a generic failure or
    the attempt itself gets a reply: the handler goes to the retry branch
    and leaves [response] bound to a generic failure. *)
Lemma retried_attempt a l :
  retried a = true ->
  (exists r, a = Replied r)
  \/ (exists r, response l = Some r /\ fails_generically r = true) ->
  exists l1 l2 r,
    try_request a l = (inr (failure_at a), l1)
    /\ inspect_404 variables l1 = Ok l2
    /\ response l2 = Some r /\ fails_generically r = true.
Proof.
  intros Ha Hl. destruct a as [|r]; cbn [retried failure_at] in *.
  - destruct Hl as [(r & E)|(r & Hr & Hg)]; [discriminate|].
    destruct l as [resp d]. cbn [response] in Hr. subst resp.
    destruct (inspect_generic variables r d Hg) as (l2 & Hl2).
    exists {| response := Some r; data := d |}, l2, r.
    repeat split; try assumption.
    now rewrite (inspect_keeps_response _ _ Hl2).
  - destruct (inspect_generic variables r (data l) Ha) as (l2 & Hl2).
    exists {| response := Some r; data := data l |}, l2, r.
    repeat split; try assumption.
    + now apply try_generic.
    + now rewrite (inspect_keeps_response _ _ Hl2).
Qed.

Lemma stale_retries k : forall todo attempt l w,
  (forall i, (i < k)%nat -> retried (upstream (List.length (sent w) + i)) = true) ->
  (exists r, upstream (List.length (sent w)) = Replied r)
  \/ (exists r, response l = Some r /\ fails_generically r = true) ->
  0 <= attempt -> attempt + Z.of_nat k <= 9 ->
  exists l',
    request_loop upstream variables (k + todo) attempt l w
    = request_loop upstream variables todo (attempt + Z.of_nat k) l'
        (after w (repeat variables k)
               (map (fun i => 60 * (attempt + Z.of_nat i)) (seq 1 k)))
    /\ ((1 <= k)%nat \/ (exists r, response l = Some r /\ fails_generically r = true) ->
        exists r, response l' = Some r /\ fails_generically r = true).
Proof.
  induction k as [|k IH]; intros todo attempt l w Hfail Hl H0 Hk.
  - exists l. split; [|intros [H|H]; [lia|assumption]].
    simpl. now rewrite after_nothing, Z.add_0_r.
  - pose proof (Hfail 0%nat ltac:(lia)) as Ha. rewrite Nat.add_0_r in Ha.
    destruct (retried_attempt (upstream (List.length (sent w))) l Ha)
      as (l1 & l2 & r & Htry & Hin & Hr & Hg).
    { destruct Hl as [(r & E)|Hl]; [left; eauto|now right]. }
    change (S k + todo)%nat with (S (k + todo)).
    cbn [request_loop]. rewrite post_attempt, Htry, Hin.
    replace (attempt <? max_retries - 1) with true
      by (symmetry; apply Z.ltb_lt; unfold max_retries; lia).
    destruct (IH todo (attempt + 1) l2
                (sleep (60 * (attempt + 1)) (after w [variables] [])))
      as (l' & E & Hinv).
    + intros i Hi. specialize (Hfail (S i) ltac:(lia)).
      rewrite <- Hfail. do 2 f_equal. unfold sleep, after; cbn [sent].
      rewrite length_app; simpl. lia.
    + right. eauto.
    + lia.
    + lia.
    + exists l'. split.
      * rewrite E. f_equal; [lia|].
        rewrite sleep_after, after_after. f_equal.
        cbn [seq map app]. f_equal.
        rewrite <- (seq_shift k 1), map_map. apply map_ext. intros i. lia.
      * intros _. apply Hinv. right. eauto.
Qed.

(** Once an attempt of the call has got a reply, a later failure of
    [requests.post] itself is retried like a generic failure (the handler
    reads the reply still bound to [response]): when the first reply and
    all attempts up to the k-th fail in one of these two ways, the waits
    are 60, 120, ... seconds; a success at attempt k + 1 <= 10 returns its
    body, and a tenth failure raises AnilistRequestError wrapping that
    failure, a ConnectionError if the tenth POST itself failed. *)
Theorem connection_failures_after_a_reply_are_retried :
  forall w k,
    (k <= 10)%nat ->
    (exists r, upstream (List.length (sent w)) = Replied r) ->
    (forall i, (i < k)%nat -> retried (upstream (List.length (sent w) + i)) = true) ->
    (k = 10%nat ->
     _make_request upstream variables w
     = (Raise (AnilistRequestError
                 (Some (failure_at (upstream (List.length (sent w) + 9))))),
        after w (repeat variables 10) (backoff 9)))
    /\ (forall j, (k < 10)%nat ->
          upstream (List.length (sent w) + k) = ok j ->
          _make_request upstream variables w
          = (Ok j, after w (repeat variables (S k)) (backoff k))).
Proof.
  intros w k Hk Hfirst Hfail. split.
  - intros ->.
    destruct (stale_retries 9 1 0 no_locals w) as (l' & E & Hinv);
      [intros i Hi; apply Hfail; lia|now left|lia|lia|].
    destruct Hinv as (r & Hr & Hg); [left; lia|].
    unfold _make_request. change (Z.to_nat max_retries) with (9 + 1)%nat.
    rewrite E. cbn [request_loop]. rewrite post_attempt.
    assert (List.length (sent (after w (repeat variables 9)
                                 (map (fun i => 60 * (0 + Z.of_nat i)) (seq 1 9))))
            = (List.length (sent w) + 9)%nat) as Hlen
      by (unfold after; cbn [sent]; now rewrite length_app, repeat_length).
    rewrite Hlen.
    destruct (retried_attempt (upstream (List.length (sent w) + 9)) l'
                (Hfail 9%nat ltac:(lia)))
      as (l1 & l2 & r2 & Htry & Hin & _); [right; eauto|].
    rewrite Htry, Hin.
    change (0 + Z.of_nat 9 <? max_retries - 1) with false. cbv iota.
    now rewrite after_after, app_nil_r.
  - intros j Hlt Hj.
    destruct (stale_retries k (10 - k) 0 no_locals w) as (l' & E & _);
      [assumption|now left|lia|lia|].
    unfold _make_request. change (Z.to_nat max_retries) with 10%nat.
    replace 10%nat with (k + (10 - k))%nat at 1 by lia.
    rewrite E.
    destruct (10 - k)%nat as [|todo] eqn:Ht; [lia|].
    rewrite (loop_success upstream variables todo _ l' _
               {| status_code := 200; body := Some j |} j); [| |reflexivity|reflexivity].
    + now rewrite after_after, app_nil_r, repeat_snoc.
    + unfold after; cbn [sent]. rewrite length_app, repeat_length. exact Hj.
Qed.

End StaleResponse.


(* ================================================================= *)
(** ** The planning list *)

Section Planning.
Import AnilistAPI.

Lemma key_eqb_sym a b : key_eqb a b = key_eqb b a.
Proof.
  destruct a as [|[|]| | | |], b as [|[|]| | | |]; cbv [key_eqb key_num];
    try reflexivity; try apply Z.eqb_sym; apply String.eqb_sym.
Qed.

Lemma key_eqb_trans a b c :
  key_eqb a b = true -> key_eqb b c = true -> key_eqb a c = true.
Proof.
  destruct a as [|[|]| | | |], b as [|[|]| | | |], c as [|[|]| | | |];
    cbv [key_eqb key_num];
    try discriminate; try reflexivity;
    rewrite ?Z.eqb_eq, ?String.eqb_eq; intros; subst; try reflexivity;
    try discriminate; try lia.
Qed.

(** Reading a dict after a store, for a key equality that is symmetric and
    transitive. *)
Lemma dict_get_set {K V} (eqb : K -> K -> bool) (d : list (K * V)) k v k' :
  (forall a b, eqb a b = eqb b a) ->
  (forall a b c, eqb a b = true -> eqb b c = true -> eqb a c = true) ->
  dict_get eqb (dict_set eqb d k v) k'
  = if eqb k k' then Some v else dict_get eqb d k'.
Proof.
  intros Hsym Htrans. induction d as [|[k0 v0] d IH]; simpl; [reflexivity|].
  destruct (eqb k0 k) eqn:E0; simpl.
  - destruct (eqb k0 k') eqn:E1.
    + rewrite (Htrans k k0 k'); [reflexivity| |assumption].
      now rewrite Hsym.
    + destruct (eqb k k') eqn:E2; [|reflexivity].
      rewrite (Htrans k0 k k') in E1; [discriminate|assumption|assumption].
  - rewrite IH. destruct (eqb k0 k') eqn:E1; [|reflexivity].
    destruct (eqb k k') eqn:E2; [|reflexivity].
    rewrite (Htrans k0 k' k) in E0; [discriminate|assumption|].
    now rewrite Hsym.
Qed.

Lemma find_snoc {A} (f : A -> bool) l x :
  find f (l ++ [x]) = match find f l with
                      | Some y => Some y
                      | None => if f x then Some x else None
                      end.
Proof.
  induction l as [|y l IH]; simpl; [reflexivity|].
  destruct (f y); [reflexivity|exact IH].
Qed.

Lemma plan_entries_encoded : forall es acc,
  plan_entries (map encode_planned es) acc
  = Ok (fold_left (fun d e => dict_set key_eqb d (JNum (fst e)) (snd e)) es acc).
Proof.
  induction es as [|[m t] es IH]; intros acc; [reflexivity|].
  cbn [map fold_left fst snd]. rewrite <- IH. reflexivity.
Qed.

Lemma plan_lists_encoded : forall lists acc,
  plan_lists (map (fun es => JObj [("entries"%string, JArr (map encode_planned es))])
                  lists) acc
  = Ok (fold_left (fun d e => dict_set key_eqb d (JNum (fst e)) (snd e))
                  (List.concat lists) acc).
Proof.
  induction lists as [|es lists IH]; intros acc; [reflexivity|].
  cbn [map plan_lists List.concat].
  assert (forall l, (x <- getitem (JObj [("entries"%string, JArr l)]) "entries" ;; iter x)
                    = Ok l) as Hes by reflexivity.
  change (es0 <- getitem (JObj [("entries"%string, JArr (map encode_planned es))])
                         "entries" ;;
          items <- iter es0 ;;
          planning_anime' <- plan_entries items acc ;;
          plan_lists (map (fun es1 => JObj [("entries"%string,
                                             JArr (map encode_planned es1))]) lists)
                     planning_anime')
    with (planning_anime' <- plan_entries (map encode_planned es) acc ;;
          plan_lists (map (fun es1 => JObj [("entries"%string,
                                             JArr (map encode_planned es1))]) lists)
                     planning_anime').
  rewrite plan_entries_encoded. cbn [bind]. rewrite IH, fold_left_app. reflexivity.
Qed.

Lemma planned_lookup m : forall (es : list (Z * json)) acc,
  dict_get key_eqb
    (fold_left (fun d e => dict_set key_eqb d (JNum (fst e)) (snd e)) es acc) (JNum m)
  = match find (fun e => fst e =? m) (rev es) with
    | Some e => Some (snd e)
    | None => dict_get key_eqb acc (JNum m)
    end.
Proof.
  induction es as [|[m0 t] es IH]; intros acc; [reflexivity|].
  cbn [fold_left rev fst snd]. rewrite IH, find_snoc.
  destruct (find (fun e => fst e =? m) (rev es)); [reflexivity|].
  rewrite (dict_get_set key_eqb acc (JNum m0) t (JNum m) key_eqb_sym key_eqb_trans).
  cbv [key_eqb key_num]. cbn [fst snd]. destruct (m0 =? m); reflexivity.
Qed.

Lemma decode_planning_encoded p :
  decode_planning (encode_planning p)
  = Ok (match p with
        | None => []
        | Some lists =>
            fold_left (fun d e => dict_set key_eqb d (JNum (fst e)) (snd e))
                      (List.concat lists) []
        end).
Proof.
  destruct p as [lists|]; [|reflexivity].
  unfold decode_planning, encode_planning.
  cbn [getitem sget dict_get String.eqb Ascii.eqb Bool.eqb bind iter].
  apply plan_lists_encoded.
Qed.

(** The planning list of a user, when the query is answered at once and
    well formed: a null collection gives an empty mapping and no error, and
    otherwise every media id of the lists is mapped to the title of its last
    entry, other media ids having no entry.  The same holds by id and by
    username. *)
Theorem planning_titles :
  forall (upstream : nat -> attempt) w p,
    upstream (List.length (sent w)) = ok (encode_planning p) ->
    exists res,
      (forall n, fetchPlanningAnime upstream (Some n) None w
                 = (Ok res, after w [[("id"%string, JNum n)]] []))
      /\ (forall s, fetchPlanningAnime upstream None (Some s) w
                    = (Ok res, after w [[("username"%string, JStr s)]] []))
      /\ (p = None -> res = [])
      /\ (forall lists m, p = Some lists ->
            dict_get key_eqb res (JNum m) = planned lists m).
Proof.
  intros upstream w p H. eexists. split; [|split; [|split]].
  - intros n. unfold fetchPlanningAnime, request_planning.
    rewrite (make_request_ok upstream _ w _ H), decode_planning_encoded. reflexivity.
  - intros s. unfold fetchPlanningAnime, request_planning.
    rewrite (make_request_ok upstream _ w _ H), decode_planning_encoded. reflexivity.
  - intros ->. reflexivity.
  - intros lists m ->. unfold planned. rewrite planned_lookup.
    destruct (find _ _); reflexivity.
Qed.

(** A planning query refused by the service with "Private User" or "User
    not found" raises the matching error after one POST, naming the one
    user asked for; given both an id and a username, or neither, the call
    raises ValueError without sending anything. *)
Theorem planning_refusals :
  forall (upstream : nat -> attempt) w,
    (forall n s, fetchPlanningAnime upstream (Some n) (Some s) w = (Raise ValueError, w))
    /\ fetchPlanningAnime upstream None None w = (Raise ValueError, w)
    /\ (upstream (List.length (sent w)) = refusal "Private User" ->
        (forall n, fetchPlanningAnime upstream (Some n) None w
                   = (Raise (AnilistPrivateUser [JNum n]),
                      after w [[("id"%string, JNum n)]] []))
        /\ (forall s, fetchPlanningAnime upstream None (Some s) w
                      = (Raise (AnilistPrivateUser [JStr s]),
                         after w [[("username"%string, JStr s)]] [])))
    /\ (upstream (List.length (sent w)) = refusal "User not found" ->
        (forall n, fetchPlanningAnime upstream (Some n) None w
                   = (Raise (AnilistUserNotFound [JNum n]),
                      after w [[("id"%string, JNum n)]] []))
        /\ (forall s, fetchPlanningAnime upstream None (Some s) w
                      = (Raise (AnilistUserNotFound [JStr s]),
                         after w [[("username"%string, JStr s)]] []))).
Proof.
  intros upstream w. split; [reflexivity|]. split; [reflexivity|].
  split; intros H; split; intros x;
    unfold fetchPlanningAnime, request_planning, _make_request;
    change (Z.to_nat max_retries) with (S 9);
    rewrite (loop_classified upstream _ 9 0 no_locals w _ _ _ [] _ H
               eq_refl eq_refl eq_refl eq_refl);
    reflexivity.
Qed.

End Planning.

(* ================================================================= *)
(** ** Further properties of the batched fetch and of the crawler *)

Section FetchExtras.
Import AnilistAPI.
Variable upstream : nat -> attempt.

Lemma dict_set_NoDup {V} (d : list (user * V)) k v :
  NoDup (map fst d) -> NoDup (map fst (dict_set user_eqb d k v)).
Proof.
  induction d as [|[k0 v0] d IH]; intros Hnd; simpl.
  - constructor; [intros []|constructor].
  - inversion Hnd as [|? ? Hk0 Hnd']; subst.
    destruct (user_eqb k0 k) eqn:E; simpl; [constructor; assumption|].
    constructor; [|now apply IH].
    intros Hin. apply dict_set_keys in Hin as [->|Hin]; [|contradiction].
    rewrite (proj2 (user_eqb_eq k k) eq_refl) in E. discriminate.
Qed.

Lemma decode_users_NoDup response : forall ius res res',
  decode_users response ius res = Ok res' ->
  NoDup (map fst res) -> NoDup (map fst res').
Proof.
  induction ius as [|[i u0] ius IH]; intros res res' H Hnd.
  - inversion H; subst. assumption.
  - cbn [decode_users] in H.
    destruct (getitem response "data") as [d|]; [|discriminate].
    cbn [bind] in H.
    destruct (getitem d ("u" ++ str_of_Z i)) as [user_data|]; [|discriminate].
    cbn [bind] in H.
    destruct user_data;
      try (destruct (user_entries _) as [entries|]; [|discriminate];
           cbn [bind] in H; apply (IH _ _ H); now apply dict_set_NoDup).
    now apply (IH _ _ H).
Qed.

(** Whatever the service answers, the mapping that [fetchCompletedAnime]
    returns has one entry per distinct user at most, and only for users of
    the batch it was asked for. *)
Theorem completed_mapping_names_only_the_batch :
  forall w res w',
    (forall ids,
       fetchCompletedAnime upstream None (Some (Many ids)) w = (Ok res, w') ->
       NoDup (map fst res)
       /\ forall u, In u (map fst res) -> exists n, u = UserId n /\ In n ids)
    /\ (forall names,
          fetchCompletedAnime upstream (Some (Many names)) None w = (Ok res, w') ->
          NoDup (map fst res)
          /\ forall u, In u (map fst res) -> exists s, u = UserName s /\ In s names).
Proof.
  intros w res w'. split.
  - intros ids H. split; [|now apply (fetch_ids_keys upstream ids w res w')].
    unfold fetchCompletedAnime in H. cbn [option_map as_list] in H.
    destruct (_make_request upstream _ w) as [[response|e] w1]; [|discriminate].
    inversion H as [[Hd Hw]]. apply (decode_users_NoDup _ _ _ _ Hd). constructor.
  - intros names H.
    unfold fetchCompletedAnime in H. cbn [option_map as_list] in H.
    destruct names as [|s0 names]; [discriminate|].
    destruct (_make_request upstream _ w) as [[response|e] w1]; [|discriminate].
    assert (Hd := f_equal fst H). cbn [fst] in Hd. split.
    + apply (decode_users_NoDup _ _ _ _ Hd). constructor.
    + intros u Hu.
      destruct (decode_users_keys _ _ _ _ Hd u Hu) as [[]|Hin].
      rewrite enumerate1_snd in Hin.
      apply in_map_iff in Hin as (s & <- & Hs). eauto.
Qed.

(** The edges of the arguments of [fetchCompletedAnime]: both or neither
    of usernames and user ids raise ValueError, and an empty list of
    usernames raises TypeError, in each case before anything is sent; an
    empty list of user ids sends one request without user variables and,
    whatever JSON comes back, returns an empty mapping. *)
Theorem completed_argument_edges :
  forall w,
    fetchCompletedAnime upstream None None w = (Raise ValueError, w)
    /\ (forall names ids,
          fetchCompletedAnime upstream (Some names) (Some ids) w = (Raise ValueError, w))
    /\ fetchCompletedAnime upstream (Some (Many [])) None w = (Raise TypeError, w)
    /\ (forall j, upstream (List.length (sent w)) = ok j ->
          fetchCompletedAnime upstream None (Some (Many [])) w
          = (Ok [], after w [[]] [])).
Proof.
  intros w. repeat split.
  intros j H. unfold fetchCompletedAnime. cbn [option_map as_list map enumerate1].
  cbn [List.length seq map combine bind_users].
  now rewrite (make_request_ok upstream _ w _ H).
Qed.

Lemma enumerate1_map {A B} (f : A -> B) (l : list A) :
  enumerate1 (map f l) = map (fun iu => (fst iu, f (snd iu))) (enumerate1 l).
Proof.
  unfold enumerate1. rewrite length_map. generalize 1%nat.
  induction l as [|x l IH]; intros n; simpl; [reflexivity|]. now rewrite IH.
Qed.

Lemma batch_variables_bound ids :
  bind_users false (enumerate1 (map UserId ids)) [] = batch_variables_of ids.
Proof.
  rewrite bind_users_fresh; [|apply enumerate1_NoDup|reflexivity].
  cbn [app]. unfold batch_variables_of. rewrite enumerate1_map, map_map. reflexivity.
Qed.

(** A call for a batch of K user ids sends K variables, [id1] ... [idK]
    bound to the ids in order (also when an id is repeated), and nothing
    else: however the call ends, it has sent exactly these variables
    between one and ten times, with the back-off sleeps between them. *)
Theorem batch_call_sends_its_batch :
  forall ids w, exists n, (1 <= n <= 10)%nat
    /\ snd (fetchCompletedAnime upstream None (Some (Many ids)) w)
       = after w (repeat (batch_variables_of ids) n) (backoff (n - 1))
    /\ List.length (batch_variables_of ids) = List.length ids
    /\ map snd (batch_variables_of ids) = map JNum ids.
Proof.
  intros ids w.
  destruct (loop_effects upstream (batch_variables_of ids) 10 0 no_locals w)
    as (n & Hn & E); [lia|lia|lia|].
  exists n. split; [assumption|]. split; [|split].
  - unfold fetchCompletedAnime. cbn [option_map as_list].
    rewrite batch_variables_bound. unfold _make_request.
    change (Z.to_nat max_retries) with 10%nat.
    destruct (request_loop upstream (batch_variables_of ids) 10 0 no_locals w)
      as [[response|e] w1]; cbn [snd] in *; rewrite E; reflexivity.
  - unfold batch_variables_of, enumerate1.
    rewrite length_map, length_combine, length_map, length_seq. lia.
  - unfold batch_variables_of. rewrite map_map. cbn [snd].
    rewrite <- (map_map snd JNum). now rewrite enumerate1_snd.
Qed.

End FetchExtras.

(* ================================================================= *)
(** ** Further properties of the batch pipeline *)

Section Batches.
Import AnilistAPI CollectUserdata.

Lemma ceil_div_bounds a b :
  0 <= a < 2 ^ 53 -> 0 < b < 2 ^ 1075 ->
  a <= ceil_div a b * b /\ (ceil_div a b - 1) * b < a /\ 0 <= ceil_div a b.
Proof.
  intros Ha Hb. rewrite (ceil_div_exact a b Ha Hb).
  pose proof (Z.div_mod (- a) b ltac:(lia)) as Hdm.
  pose proof (Z.mod_pos_bound (- a) b ltac:(lia)) as Hm.
  nia.
Qed.

Lemma in_dict_set {K V} (eqb : K -> K -> bool) (d : list (K * V)) k v k' v' :
  In (k', v') (dict_set eqb d k v) -> In (k', v') d \/ v' = v.
Proof.
  induction d as [|[k0 v0] d IH]; cbn [dict_set].
  - intros [E|[]]. inversion E. now right.
  - destruct (eqb k0 k).
    + intros [E|H]; [inversion E; now right|left; now right].
    + intros [E|H]; [left; now left|]. destruct (IH H); [left; now right|now right].
Qed.

Lemma dict_get_in {V} (d : list (user * V)) u v :
  dict_get user_eqb d u = Some v -> In (u, v) d.
Proof.
  induction d as [|[k0 v0] d IH]; cbn [dict_get]; [discriminate|].
  destruct (user_eqb k0 u) eqn:E.
  - apply user_eqb_eq in E. subst. intros H. inversion H. now left.
  - intros H. right. now apply IH.
Qed.

(** The entries that the decoder keeps are those of some user's lists. *)
Lemma keep_entries : forall ups acc,
  (forall u es, In (u, es) acc -> exists lists, es = map to_entry (List.concat lists)) ->
  forall u es, In (u, es) (fold_left keep ups acc) ->
    exists lists, es = map to_entry (List.concat lists).
Proof.
  induction ups as [|[u0 [lists|]] ups IH]; intros acc Hacc; cbn [fold_left];
    [exact Hacc| |].
  - apply IH. unfold keep. cbn [fst snd]. intros u es H.
    apply in_dict_set in H as [H| ->]; eauto.
  - apply IH. exact Hacc.
Qed.

(** Storing entries whose media ids are ints records each of them,
    whatever its score. *)
Lemma store_user_records u : forall es r,
  (forall a, In a es -> exists m, mediaId a = JNum m) ->
  exists r',
    store_user r u es = Ok r'
    /\ (forall k x, recorded r k x -> recorded r' k x)
    /\ (forall a m, In a es -> mediaId a = JNum m ->
          recorded r' (str_of_Z m) (JObj [(user_str u, score a)])).
Proof.
  induction es as [|a es IH]; intros r Hes.
  - exists r. repeat split; [auto|]. intros ? ? [].
  - destruct (Hes a (or_introl eq_refl)) as (m & Hm).
    cbn [store_user]. rewrite Hm. cbn [str bind].
    destruct (IH (append_rating r (str_of_Z m) (JObj [(user_str u, score a)])))
      as (r' & Hr' & Hkeep & Hadd); [intros b Hb; apply Hes; now right|].
    exists r'. split; [exact Hr'|]. split.
    + intros k x Hx. now apply Hkeep, append_rating_keeps.
    + intros b n [<-|Hb] Hn; [|now apply Hadd].
      rewrite Hm in Hn. inversion Hn; subst. apply Hkeep, append_rating_adds.
Qed.

Lemma store_batch_records : forall res r,
  (forall u es a, In (u, es) res -> In a es -> exists m, mediaId a = JNum m) ->
  exists r',
    store_batch r res = Ok r'
    /\ (forall k x, recorded r k x -> recorded r' k x)
    /\ (forall u es a m, In (u, es) res -> In a es -> mediaId a = JNum m ->
          recorded r' (str_of_Z m) (JObj [(user_str u, score a)])).
Proof.
  induction res as [|[u es] res IH]; intros r Hres.
  - exists r. repeat split; [auto|]. intros ? ? ? ? [].
  - cbn [store_batch].
    destruct (store_user_records u es r) as (r1 & Hr1 & Hkeep1 & Hadd1);
      [intros a Ha; apply (Hres u es); [now left|exact Ha]|].
    rewrite Hr1. cbn [bind].
    destruct (IH r1) as (r' & Hr' & Hkeep & Hadd);
      [intros u' es' a H Ha; apply (Hres u' es'); [now right|exact Ha]|].
    exists r'. split; [exact Hr'|]. split; [auto|].
    intros u' es' a m [E|Hin] Ha Hm; [|now apply (Hadd u' es')].
    inversion E; subst. apply Hkeep. now apply Hadd1.
Qed.

Lemma map_fst_combine' {A B} : forall (l : list A) (l' : list B),
  List.length l = List.length l' -> map fst (combine l l') = l.
Proof.
  induction l as [|x l IH]; intros [|y l'] H; try discriminate; [reflexivity|].
  cbn [combine map fst]. f_equal. apply IH. now inversion H.
Qed.

Lemma map_snd_combine' {A B} : forall (l : list A) (l' : list B),
  List.length l = List.length l' -> map snd (combine l l') = l'.
Proof.
  induction l as [|x l IH]; intros [|y l'] H; try discriminate; [reflexivity|].
  cbn [combine map snd]. f_equal. apply IH. now inversion H.
Qed.

Variable upstream : nat -> attempt.

(** One batch answered at once: the call returns, and storing what it
    returns records every entry of every user of the batch whose aliased
    result (the last one that is not null) holds it. *)
Lemma answered_batch batch payloads w r :
  List.length payloads = List.length batch ->
  upstream (List.length (sent w)) = ok (encode_batch payloads) ->
  exists res r',
    fetchCompletedAnime upstream None (Some (Many batch)) w
    = (Ok res, after w [batch_variables_of batch] [])
    /\ store_batch r res = Ok r'
    /\ (forall k x, recorded r k x -> recorded r' k x)
    /\ (forall pre u lists post,
          combine batch payloads = (pre ++ (u, Some lists) :: post)%list ->
          (forall p, In (u, p) post -> p = None) ->
          dict_get user_eqb res (UserId u) = Some (map to_entry (List.concat lists))
          /\ forall m t s, In (m, t, s) (List.concat lists) ->
               recorded r' (str_of_Z m) (JObj [(str_of_Z u, JNum s)])).
Proof.
  intros Hlen Hup.
  set (ups := combine batch payloads).
  assert (map fst ups = batch) as Hfst by (apply map_fst_combine'; now symmetry).
  assert (map snd ups = payloads) as Hsnd by (apply map_snd_combine'; now symmetry).
  rewrite <- Hsnd in Hup.
  pose proof (fetch_ids_encoded upstream w ups Hup) as F.
  rewrite Hfst, batch_variables_bound in F.
  set (res := fold_left keep (map (fun up => (UserId (fst up), snd up)) ups) []) in *.
  assert (forall u es, In (u, es) res -> exists lists, es = map to_entry (List.concat lists))
    as Hres by (apply keep_entries; intros ? ? []).
  destruct (store_batch_records res r) as (r' & Hr' & Hkeep & Hadd).
  { intros u es a Hin Ha. destruct (Hres u es Hin) as (lists & ->).
    apply in_map_iff in Ha as ([[m t] s] & <- & _). now exists m. }
  exists res, r'. split; [exact F|]. split; [exact Hr'|]. split; [exact Hkeep|].
  intros pre u lists post Hsplit Hpost.
  destruct (keep_skips_null_users UserId ups) as (_ & Hsome);
    [intros a b E; now inversion E|].
  specialize (Hsome pre u lists post Hsplit Hpost). fold res in Hsome.
  split; [exact Hsome|].
  intros m t s Hin. apply dict_get_in in Hsome.
  apply (Hadd (UserId u) _ (to_entry (m, t, s)) m Hsome); [|reflexivity].
  now apply in_map.
Qed.

Variable user_ids : list Z.
Variables batch_size total_batches : Z.
Variable payloads : Z -> list (option (list (list anime))).

(** The batches from [b] on, each answered at once. *)
Lemma answered_batches : forall n b ratings w,
  (forall j, (j < n)%nat ->
     List.length (payloads (Z.of_nat (b + j)))
     = List.length (batch_of user_ids batch_size (Z.of_nat (b + j)))
     /\ upstream (List.length (sent w) + j)%nat
        = ok (encode_batch (payloads (Z.of_nat (b + j))))) ->
  exists cs final,
    batch_loop upstream user_ids batch_size total_batches
               (map Z.of_nat (seq b n)) ratings w
    = (cs, StopIteration, final,
       after w (map (fun k => batch_variables_of
                                (batch_of user_ids batch_size (Z.of_nat k)))
                    (seq b n)) [])
    /\ (forall k x, recorded ratings k x -> recorded final k x)
    /\ (forall j, (j < n)%nat -> forall pre u lists post,
          combine (batch_of user_ids batch_size (Z.of_nat (b + j)))
                  (payloads (Z.of_nat (b + j)))
          = (pre ++ (u, Some lists) :: post)%list ->
          (forall p, In (u, p) post -> p = None) ->
          forall m t s, In (m, t, s) (List.concat lists) ->
            recorded final (str_of_Z m) (JObj [(str_of_Z u, JNum s)]))
    /\ ((0 < n)%nat -> Z.of_nat (b + n) = total_batches ->
        exists cs0 c,
          cs = (cs0 ++ [c])%list
          /\ CollectUserdata.ratings c = final
          /\ last_batch c = total_batches - 1).
Proof.
  induction n as [|n IH]; intros b ratings w Hup.
  - exists [], ratings. cbn [seq map batch_loop]. rewrite after_nothing.
    repeat split; try (intros; lia). auto.
  - destruct (Hup 0%nat ltac:(lia)) as (Hlen & H0).
    rewrite !Nat.add_0_r in *.
    destruct (answered_batch (batch_of user_ids batch_size (Z.of_nat b))
                (payloads (Z.of_nat b)) w ratings Hlen H0)
      as (res & r' & F & Hr' & Hkeep & Hrec).
    set (w1 := after w [batch_variables_of (batch_of user_ids batch_size (Z.of_nat b))] [])
      in *.
    destruct (IH (S b) r' w1) as (cs & final & E & Hkeep' & Hrec' & Hlast).
    { intros j Hj. replace (S b + j)%nat with (b + S j)%nat by lia.
      destruct (Hup (S j) ltac:(lia)) as (Hl & Hu). split; [exact Hl|].
      unfold w1, after; cbn [sent]. rewrite length_app. cbn [List.length].
      replace (List.length (sent w) + 1 + j)%nat
        with (List.length (sent w) + S j)%nat by lia.
      exact Hu. }
    assert (after w (map (fun k => batch_variables_of
                                     (batch_of user_ids batch_size (Z.of_nat k)))
                         (seq b (S n))) []
            = after w1 (map (fun k => batch_variables_of
                                        (batch_of user_ids batch_size (Z.of_nat k)))
                            (seq (S b) n)) []) as Hw.
    { unfold w1. rewrite after_after. reflexivity. }
    rewrite Hw.
    assert (forall j, (j < S n)%nat -> forall pre u lists post,
              combine (batch_of user_ids batch_size (Z.of_nat (b + j)))
                      (payloads (Z.of_nat (b + j)))
              = (pre ++ (u, Some lists) :: post)%list ->
              (forall p, In (u, p) post -> p = None) ->
              forall m t s, In (m, t, s) (List.concat lists) ->
                recorded final (str_of_Z m) (JObj [(str_of_Z u, JNum s)])) as Hall.
    { intros [|j] Hj pre u lists post Hs Hp m t s Hin.
      - rewrite Nat.add_0_r in Hs. apply Hkeep'.
        apply (proj2 (Hrec pre u lists post Hs Hp) m t s Hin).
      - replace (b + S j)%nat with (S b + j)%nat in Hs by lia.
        apply (Hrec' j ltac:(lia) pre u lists post Hs Hp m t s Hin). }
    cbn [seq map batch_loop].
    change (slice user_ids (Z.of_nat b * batch_size)
              (Z.min ((Z.of_nat b + 1) * batch_size) (Z.of_nat (List.length user_ids))))
      with (batch_of user_ids batch_size (Z.of_nat b)).
    rewrite F, Hr', E.
    destruct (((Z.of_nat b + 1) mod 20 =? 0) || (Z.of_nat b =? total_batches - 1))
      eqn:Hdue.
    + eexists _, final. split; [reflexivity|]. split; [auto|]. split; [exact Hall|].
      intros _ Htot. destruct n as [|n].
      * cbn [seq map batch_loop] in E. inversion E; subst.
        eexists [], _. split; [reflexivity|]. cbn [CollectUserdata.ratings last_batch].
        split; [reflexivity|lia].
      * destruct Hlast as (cs0 & c & -> & Hc & Hl); [lia|lia|].
        eexists (_ :: cs0), c. split; [reflexivity|]. auto.
    + exists cs, final. split; [reflexivity|]. split; [auto|]. split; [exact Hall|].
      intros _ Htot. destruct n as [|n].
      * apply orb_false_elim in Hdue as [_ Hd]. apply Z.eqb_neq in Hd. lia.
      * destruct Hlast as (cs0 & c & -> & Hc & Hl); [lia|lia|]. eauto.
Qed.

End Batches.

Section AnsweredRuns.
Import AnilistAPI CollectUserdata.
Variable upstream : nat -> attempt.

Lemma firstn_plus {A} (l : list A) a n :
  firstn (a + n) l = (firstn a l ++ firstn n (skipn a l))%list.
Proof.
  revert l. induction a as [|a IH]; intros l; [reflexivity|].
  destruct l as [|x l]; [simpl; now rewrite firstn_nil|].
  simpl. now rewrite IH.
Qed.

Lemma range_succ k : range (Z.of_nat (S k)) = (range (Z.of_nat k) ++ [Z.of_nat k])%list.
Proof.
  unfold range. rewrite !Nat2Z.id, seq_S, map_app. reflexivity.
Qed.

Lemma batch_of_nonneg (l : list Z) bs b :
  0 < bs -> 0 <= b ->
  batch_of l bs b
  = firstn (Z.to_nat (Z.min ((b + 1) * bs) (Z.of_nat (List.length l)))
            - Z.to_nat (Z.min (b * bs) (Z.of_nat (List.length l))))
           (skipn (Z.to_nat (Z.min (b * bs) (Z.of_nat (List.length l)))) l).
Proof.
  intros Hbs Hb. unfold batch_of, slice, slice_index.
  replace (b * bs <? 0) with false by (symmetry; apply Z.ltb_ge; nia).
  replace (Z.min ((b + 1) * bs) (Z.of_nat (List.length l)) <? 0) with false
    by (symmetry; apply Z.ltb_ge; nia).
  f_equal. lia.
Qed.

(** The first [k] batches make up the first [k * batch_size] users. *)
Lemma batches_prefix (l : list Z) bs : 0 < bs -> forall k,
  flat_map (batch_of l bs) (range (Z.of_nat k))
  = firstn (Z.to_nat (Z.min (Z.of_nat k * bs) (Z.of_nat (List.length l)))) l.
Proof.
  intros Hbs. induction k as [|k IH].
  - replace (Z.to_nat _) with 0%nat by lia. reflexivity.
  - rewrite range_succ, flat_map_app, IH. cbn [flat_map]. rewrite app_nil_r.
    rewrite batch_of_nonneg by lia.
    rewrite <- firstn_plus. f_equal.
    replace (Z.of_nat (S k)) with (Z.of_nat k + 1) by lia. nia.
Qed.

(** A run whose batches are all answered at once. *)
Lemma answered_run user_ids batch_size w payloads :
  batch_size <> 0 ->
  answered upstream w user_ids batch_size payloads ->
  exists cs final,
    fetch_and_store_ratings upstream user_ids batch_size w
    = (cs, StopIteration, final,
       after w (map (fun b => batch_variables_of (batch_of user_ids batch_size b))
                    (range (ceil_div (Z.of_nat (List.length user_ids)) batch_size)))
             [])
    /\ (forall b pre u lists post,
          In b (range (ceil_div (Z.of_nat (List.length user_ids)) batch_size)) ->
          combine (batch_of user_ids batch_size b) (payloads b)
          = (pre ++ (u, Some lists) :: post)%list ->
          (forall p, In (u, p) post -> p = None) ->
          forall m t s, In (m, t, s) (List.concat lists) ->
            recorded final (str_of_Z m) (JObj [(str_of_Z u, JNum s)]))
    /\ (0 < ceil_div (Z.of_nat (List.length user_ids)) batch_size ->
        exists cs0 c,
          cs = (cs0 ++ [c])%list
          /\ CollectUserdata.ratings c = final
          /\ last_batch c = ceil_div (Z.of_nat (List.length user_ids)) batch_size - 1).
Proof.
  intros Hbs Hans. unfold fetch_and_store_ratings.
  replace (batch_size =? 0) with false by (symmetry; now apply Z.eqb_neq).
  set (total := ceil_div (Z.of_nat (List.length user_ids)) batch_size) in *.
  unfold answered in Hans. fold total in Hans.
  destruct (answered_batches upstream user_ids batch_size total payloads
              (Z.to_nat total) 0 [] w) as (cs & final & E & _ & Hrec & Hlast).
  { intros j Hj. cbn [Nat.add].
    destruct (Hans (Z.of_nat j)) as (Hl & Hu); [apply in_range; lia|].
    rewrite Nat2Z.id in Hu. now split. }
  exists cs, final. split; [|split].
  - unfold range. rewrite E, map_map. reflexivity.
  - intros b pre u lists post Hb. apply in_range in Hb.
    intros Hs Hp. specialize (Hrec (Z.to_nat b) ltac:(lia)). cbn [Nat.add] in Hrec.
    rewrite Z2Nat.id in Hrec by lia. apply (Hrec pre u lists post Hs Hp).
  - intros Hpos. apply Hlast; lia.
Qed.

(** When the service answers every batch at once, the run fetches the
    user list in consecutive pieces: for a positive batch size (below
    [2^1075], under which the float quotient of line 25 does not change the
    ceiling) it sends one request per batch and nothing more, the users of
    the requests, taken in order, are the user list, each user being asked
    for exactly once, and every batch holds between 1 and [batch_size]
    users. *)
Theorem batches_partition_the_users :
  forall (user_ids : list Z) batch_size w payloads,
    0 < batch_size < 2 ^ 1075 ->
    Z.of_nat (List.length user_ids) < 2 ^ 53 ->
    answered upstream w user_ids batch_size payloads ->
    exists cs final batches,
      fetch_and_store_ratings upstream user_ids batch_size w
      = (cs, StopIteration, final, after w (map batch_variables_of batches) [])
      /\ List.concat batches = user_ids
      /\ (forall batch, In batch batches ->
            (1 <= List.length batch <= Z.to_nat batch_size)%nat)
      /\ List.concat (map (map snd) (map batch_variables_of batches))
         = map JNum user_ids.
Proof.
  intros l bs w payloads Hbs Hlen Hans.
  destruct (answered_run l bs w payloads ltac:(lia) Hans) as (cs & final & E & _).
  destruct (ceil_div_bounds (Z.of_nat (List.length l)) bs ltac:(lia) Hbs)
    as (Hup & Hlow & Hpos).
  set (total := ceil_div (Z.of_nat (List.length l)) bs) in *.
  exists cs, final, (map (batch_of l bs) (range total)).
  assert (List.concat (map (batch_of l bs) (range total)) = l) as Hcat.
  { rewrite <- flat_map_concat_map.
    rewrite <- (Z2Nat.id total) by assumption.
    rewrite batches_prefix by lia.
    rewrite Z2Nat.id by assumption.
    replace (Z.to_nat (Z.min (total * bs) (Z.of_nat (List.length l))))
      with (List.length l) by lia.
    apply firstn_all. }
  split; [now rewrite map_map|]. split; [exact Hcat|]. split.
  - intros batch Hb. apply in_map_iff in Hb as (b & <- & Hb). apply in_range in Hb.
    rewrite batch_of_nonneg by lia.
    rewrite length_firstn, length_skipn. nia.
  - rewrite <- Hcat at 2. rewrite concat_map, !map_map. f_equal.
    apply map_ext. intros b. unfold batch_variables_of. rewrite map_map. cbn [snd].
    rewrite <- (map_map snd JNum). now rewrite enumerate1_snd.
Qed.

(** C10.  [fetchCompletedAnime] applies no score filter, and the batch
    pipeline stores what it returns.  For every batch answered at once,
    every user whose aliased result is not null (the last such result,
    should the user be repeated in the batch) is mapped to all the entries
    of that result, those with score 0 like the others.  When every batch
    of a run is answered at once, the run ends normally and each of these
    entries, whatever its score, 0 included, is in the ratings table under
    its media id as [{user id: score}]; the last checkpoint yielded holds
    that table.  The loop of the completers stream, on the contrary, yields
    nothing for an entry with score 0. *)
Theorem zero_scores_are_kept :
  forall user_ids batch_size w payloads,
    (forall batch results w0,
       List.length results = List.length batch ->
       upstream (List.length (sent w0)) = ok (encode_batch results) ->
       exists res,
         fetchCompletedAnime upstream None (Some (Many batch)) w0
         = (Ok res, after w0 [batch_variables_of batch] [])
         /\ forall pre u lists post,
              combine batch results = (pre ++ (u, Some lists) :: post)%list ->
              (forall p, In (u, p) post -> p = None) ->
              exists entries,
                dict_get user_eqb res (UserId u) = Some entries
                /\ forall m t s, In (m, t, s) (List.concat lists) ->
                     In {| mediaId := JNum m; title_romaji := t; score := JNum s |}
                        entries)
    /\ (batch_size <> 0 ->
        answered upstream w user_ids batch_size payloads ->
        exists cs final w',
          fetch_and_store_ratings upstream user_ids batch_size w
          = (cs, StopIteration, final, w')
          /\ (forall b pre u lists post,
                In b (range (ceil_div (Z.of_nat (List.length user_ids)) batch_size)) ->
                combine (batch_of user_ids batch_size b) (payloads b)
                = (pre ++ (u, Some lists) :: post)%list ->
                (forall p, In (u, p) post -> p = None) ->
                forall m t s, In (m, t, s) (List.concat lists) ->
                  recorded final (str_of_Z m) (JObj [(str_of_Z u, JNum s)]))
          /\ (0 < ceil_div (Z.of_nat (List.length user_ids)) batch_size ->
              exists cs0 c, cs = (cs0 ++ [c])%list
                            /\ CollectUserdata.ratings c = final))
    /\ (forall uid, yield_entries [encode_completer (uid, 0)] = ([], None)).
Proof.
  intros user_ids bs w payloads. split; [|split; [|reflexivity]].
  - intros batch results w0 Hlen Hup.
    destruct (answered_batch upstream batch results w0 [] Hlen Hup)
      as (res & r' & F & _ & _ & Hrec).
    exists res. split; [exact F|].
    intros pre u lists post Hs Hp. destruct (Hrec pre u lists post Hs Hp) as (Hget & _).
    eexists. split; [exact Hget|].
    intros m t s Hin. now apply (in_map to_entry) in Hin.
  - intros Hbs Hans.
    destruct (answered_run user_ids bs w payloads Hbs Hans)
      as (cs & final & E & Hrec & Hlast).
    exists cs, final. eexists. split; [exact E|]. split; [exact Hrec|].
    intros Hpos. destruct (Hlast Hpos) as (cs0 & c & Hc & Hr & _). eauto.
Qed.

End AnsweredRuns.

Section AnsweredWitnesses.
Import AnilistAPI CollectUserdata.
Local Open Scope string_scope.

Lemma batches_partition_the_users_witness :
  exists cs final batches,
    fetch_and_store_ratings
      (fun _ => ok (encode_batch [Some [[(1, JNull, 80)]]; None])) [7; 8; 9; 10] 2 world0
    = (cs, StopIteration, final, after world0 (map batch_variables_of batches) [])
    /\ List.concat batches = [7; 8; 9; 10]%Z.
Proof.
  destruct (batches_partition_the_users
              (fun _ => ok (encode_batch [Some [[(1, JNull, 80)]]; None]))
              [7; 8; 9; 10] 2 world0
              (fun _ => [Some [[(1, JNull, 80)]]; None]))
    as (cs & final & batches & E & Hcat & _).
  - split; [lia|reflexivity].
  - reflexivity.
  - intros b Hb. apply in_range in Hb. change (ceil_div _ 2) with 2 in Hb.
    assert (b = 0 \/ b = 1)%Z as [-> | ->] by lia; split; reflexivity.
  - exists cs, final, batches. now split.
Defined.

Lemma zero_scores_are_kept_witness :
  let upstream := fun n : nat =>
    match n with
    | O => ok (encode_batch [Some [[(5, JStr "A", 0); (6, JNull, 70)]]; None])
    | _ => ok (encode_batch [Some [[(5, JStr "B", 0)]]])
    end in
  exists cs final w',
    fetch_and_store_ratings upstream [41; 42; 43] 2 world0
    = (cs, StopIteration, final, w')
    /\ recorded final "5" (JObj [("41", JNum 0)])
    /\ recorded final "5" (JObj [("43", JNum 0)]).
Proof.
  intros upstream.
  destruct (proj1 (proj2 (zero_scores_are_kept upstream [41; 42; 43] 2 world0
                            (fun b => if (b =? 0)%Z
                                      then [Some [[(5, JStr "A", 0); (6, JNull, 70)]]; None]
                                      else [Some [[(5, JStr "B", 0)]]])))
              ltac:(lia))
    as (cs & final & w' & E & Hrec & _).
  - intros b Hb. apply in_range in Hb. change (ceil_div _ 2) with 2 in Hb.
    assert (b = 0 \/ b = 1)%Z as [-> | ->] by lia; split; reflexivity.
  - exists cs, final, w'. split; [exact E|]. split.
    + refine (Hrec 0 [] 41 [[(5, JStr "A", 0); (6, JNull, 70)]] [(42, None)]
                ltac:(now left) eq_refl _ 5 (JStr "A") 0 ltac:(now left)).
      intros p [Hp|[]]. now inversion Hp.
    + refine (Hrec 1 [] 43 [[(5, JStr "B", 0)]] []
                ltac:(right; now left) eq_refl _ 5 (JStr "B") 0 ltac:(now left)).
      intros p [].
Defined.

End AnsweredWitnesses.

Section Checkpoints.
Import AnilistAPI CollectUserdata.
Variable upstream : nat -> attempt.

Lemma range_sorted_from a n : StronglySorted Z.lt (map Z.of_nat (seq a n)).
Proof.
  revert a. induction n as [|n IH]; intros a; [constructor|].
  cbn [seq map]. constructor; [apply IH|].
  apply Forall_forall. intros x Hx.
  apply in_map_iff in Hx as (i & <- & Hi). apply in_seq in Hi. lia.
Qed.

(** The checkpoints yielded over the batches [nums] are yielded after
    batches of [nums] that are due, in the order of [nums]. *)
Lemma batch_loop_due user_ids batch_size total_batches :
  forall nums ratings w cs ending final w',
    batch_loop upstream user_ids batch_size total_batches nums ratings w
    = (cs, ending, final, w') ->
    (forall c, In c cs ->
       In (last_batch c) nums /\ due total_batches (last_batch c) = true)
    /\ (StronglySorted Z.lt nums -> StronglySorted Z.lt (map last_batch cs)).
Proof.
  induction nums as [|b nums IH]; intros ratings w cs ending final w' H.
  - inversion H; subst. split; [intros c []|constructor].
  - cbn [batch_loop] in H.
    assert (forall r w1 cs1 e1 f1 w2,
              batch_loop upstream user_ids batch_size total_batches nums r w1
              = (cs1, e1, f1, w2) ->
              (forall c, In c cs1 ->
                 In (last_batch c) (b :: nums) /\ due total_batches (last_batch c) = true)
              /\ (StronglySorted Z.lt (b :: nums) ->
                  StronglySorted Z.lt (map last_batch cs1))) as Hrest.
    { intros r w1 cs1 e1 f1 w2 E. destruct (IH _ _ _ _ _ _ E) as (H1 & H2). split.
      - intros c Hc. destruct (H1 c Hc). split; [now right|assumption].
      - intros Hs. inversion Hs; subst. auto. }
    destruct (fetchCompletedAnime upstream None _ w) as [[batch_anime|e] w1].
    2:{ destruct e; try (inversion H; subst; split; [intros c []|constructor]);
          apply (Hrest _ _ _ _ _ _ H). }
    destruct (store_batch ratings batch_anime) as [ratings'|e];
      [|inversion H; subst; split; [intros c []|constructor]].
    fold (due total_batches b) in H.
    destruct (due total_batches b) eqn:Hdue; [|apply (Hrest _ _ _ _ _ _ H)].
    destruct (batch_loop upstream user_ids batch_size total_batches nums ratings' w1)
      as [[[cs' ending'] final'] w2] eqn:EL.
    inversion H; subst; clear H.
    destruct (Hrest _ _ _ _ _ _ EL) as (H1 & H2).
    destruct (IH _ _ _ _ _ _ EL) as (H1' & _). split.
    + intros c [<-|Hc]; [cbn [last_batch]; split; [now left|assumption]|now apply H1].
    + intros Hs. cbn [map last_batch]. constructor; [now apply H2|].
      inversion Hs as [|? ? _ Hall]; subst.
      apply Forall_forall. intros x Hx.
      apply in_map_iff in Hx as (c & <- & Hc).
      rewrite Forall_forall in Hall. apply Hall. now apply H1'.
Qed.

(** Whatever the service answers, checkpoints are yielded only after a
    batch whose number is a multiple of 20 minus one or the last batch, at
    most once per batch and in increasing order of the batch numbers, which
    all lie between 0 and the number of batches. *)
Theorem checkpoints_follow_the_cadence :
  forall user_ids batch_size w cs ending final w',
    fetch_and_store_ratings upstream user_ids batch_size w = (cs, ending, final, w') ->
    let total_batches := ceil_div (Z.of_nat (List.length user_ids)) batch_size in
    (forall c, In c cs ->
       0 <= last_batch c < total_batches
       /\ ((last_batch c + 1) mod 20 = 0 \/ last_batch c = total_batches - 1))
    /\ StronglySorted Z.lt (map last_batch cs).
Proof.
  intros user_ids bs w cs ending final w' H total.
  unfold fetch_and_store_ratings in H.
  destruct (bs =? 0); [inversion H; subst; split; [intros c []|constructor]|].
  fold total in H.
  destruct (batch_loop_due _ _ _ _ _ _ _ _ _ _ H) as (H1 & H2). split.
  - intros c Hc. destruct (H1 c Hc) as (Hin & Hdue).
    apply in_range in Hin. split; [assumption|].
    unfold due in Hdue. apply orb_prop in Hdue as [Hd|Hd]; apply Z.eqb_eq in Hd; auto.
  - apply H2. apply range_sorted_from.
Qed.

Lemma extends_refl r : extends r r.
Proof. intros k l H. exists []. now rewrite app_nil_r. Qed.

Lemma extends_trans r1 r2 r3 : extends r1 r2 -> extends r2 r3 -> extends r1 r3.
Proof.
  intros H12 H23 k l H. destruct (H12 k l H) as (l' & H').
  destruct (H23 k _ H') as (l'' & H''). exists (l' ++ l'')%list.
  now rewrite app_assoc.
Qed.

Lemma append_rating_extends r k item : extends r (append_rating r k item).
Proof.
  intros k0 l H. unfold append_rating. rewrite sget_sset.
  destruct (String.eqb_spec k k0) as [->|]; [|exists []; now rewrite app_nil_r].
  rewrite H. eauto.
Qed.

Lemma store_user_extends u : forall entries r r',
  store_user r u entries = Ok r' -> extends r r'.
Proof.
  induction entries as [|a entries IH]; intros r r' H.
  - inversion H; subst. apply extends_refl.
  - cbn [store_user] in H.
    destruct (str (mediaId a)) as [key|]; [|discriminate]. cbn [bind] in H.
    eapply extends_trans; [apply append_rating_extends|apply (IH _ _ H)].
Qed.

Lemma store_batch_extends : forall items r r',
  store_batch r items = Ok r' -> extends r r'.
Proof.
  induction items as [|[u entries] items IH]; intros r r' H.
  - inversion H; subst. apply extends_refl.
  - cbn [store_batch] in H.
    destruct (store_user r u entries) as [r1|] eqn:E; [|discriminate].
    cbn [bind] in H.
    eapply extends_trans; [apply (store_user_extends _ _ _ _ E)|apply (IH _ _ H)].
Qed.

Lemma batch_loop_grows user_ids batch_size total_batches :
  forall nums ratings w cs ending final w',
    batch_loop upstream user_ids batch_size total_batches nums ratings w
    = (cs, ending, final, w') ->
    extends ratings final
    /\ (forall c, In c cs ->
          extends ratings (CollectUserdata.ratings c)
          /\ extends (CollectUserdata.ratings c) final)
    /\ ForallOrdPairs (fun c1 c2 => extends (CollectUserdata.ratings c1)
                                             (CollectUserdata.ratings c2)) cs.
Proof.
  induction nums as [|b nums IH]; intros ratings w cs ending final w' H.
  - inversion H; subst. split; [apply extends_refl|]. split; [intros c []|constructor].
  - cbn [batch_loop] in H.
    destruct (fetchCompletedAnime upstream None _ w) as [[batch_anime|e] w1].
    2:{ destruct e;
          try (inversion H; subst; split; [apply extends_refl|];
               split; [intros c []|constructor]);
          apply (IH _ _ _ _ _ _ H). }
    destruct (store_batch ratings batch_anime) as [ratings'|e] eqn:ES.
    2:{ inversion H; subst. split; [apply extends_refl|].
        split; [intros c []|constructor]. }
    apply store_batch_extends in ES.
    assert (forall cs1 e1 f1 w2,
              batch_loop upstream user_ids batch_size total_batches nums ratings' w1
              = (cs1, e1, f1, w2) ->
              extends ratings f1
              /\ (forall c, In c cs1 ->
                    extends ratings (CollectUserdata.ratings c)
                    /\ extends (CollectUserdata.ratings c) f1)
              /\ ForallOrdPairs (fun c1 c2 => extends (CollectUserdata.ratings c1)
                                                       (CollectUserdata.ratings c2)) cs1)
      as Hrest.
    { intros cs1 e1 f1 w2 E. destruct (IH _ _ _ _ _ _ E) as (H1 & H2 & H3).
      split; [eapply extends_trans; eassumption|]. split; [|assumption].
      intros c Hc. destruct (H2 c Hc). split; [|assumption].
      eapply extends_trans; eassumption. }
    destruct (_ || _); [|apply (Hrest _ _ _ _ H)].
    destruct (batch_loop upstream user_ids batch_size total_batches nums ratings' w1)
      as [[[cs' ending'] final'] w2] eqn:EL.
    inversion H; subst; clear H.
    destruct (Hrest _ _ _ _ eq_refl) as (H1 & H2 & H3).
    destruct (IH _ _ _ _ _ _ EL) as (H1' & H2' & _).
    split; [assumption|]. split.
    + intros c [<-|Hc]; [cbn [CollectUserdata.ratings]; split; assumption|now apply H2].
    + constructor; [|assumption].
      apply Forall_forall. intros c Hc. cbn [CollectUserdata.ratings].
      now apply H2'.
Qed.

(** The ratings table is append-only during a run: every list that a
    checkpoint holds under a media id is found again, with items appended
    at most, in every later checkpoint and in the table the generator ends
    with; no key or item is ever removed. *)
Theorem ratings_only_grow :
  forall user_ids batch_size w cs ending final w',
    fetch_and_store_ratings upstream user_ids batch_size w = (cs, ending, final, w') ->
    ForallOrdPairs (fun c1 c2 => extends (CollectUserdata.ratings c1)
                                         (CollectUserdata.ratings c2)) cs
    /\ (forall c, In c cs -> extends (CollectUserdata.ratings c) final).
Proof.
  intros user_ids bs w cs ending final w' H.
  unfold fetch_and_store_ratings in H.
  destruct (bs =? 0); [inversion H; subst; split; [constructor|intros c []]|].
  destruct (batch_loop_grows _ _ _ _ _ _ _ _ _ _ H) as (_ & H2 & H3).
  split; [assumption|]. intros c Hc. now apply H2.
Qed.

End Checkpoints.

Section CheckpointWitnesses.
Import AnilistAPI CollectUserdata.

Lemma checkpoints_follow_the_cadence_witness :
  let cs := fst (fst (fst (fetch_and_store_ratings
                             (fun _ => ok (encode_batch [Some [[(1, JNull, 80)]]; None]))
                             [7; 8; 9] 2 world0))) in
  StronglySorted Z.lt (map last_batch cs).
Proof.
  intros cs.
  destruct (fetch_and_store_ratings
              (fun _ => ok (encode_batch [Some [[(1, JNull, 80)]]; None]))
              [7; 8; 9] 2 world0) as [[[cs0 e] f] w'] eqn:E.
  apply (checkpoints_follow_the_cadence
           (fun _ => ok (encode_batch [Some [[(1, JNull, 80)]]; None]))
           [7; 8; 9] 2 world0 cs0 e f w' E).
Defined.

Lemma ratings_only_grow_witness :
  let run := fetch_and_store_ratings
               (fun _ => ok (encode_batch [Some [[(1, JNull, 80)]]; None]))
               [7; 8; 9] 2 world0 in
  match fst (fst (fst run)) with
  | c :: _ => extends (CollectUserdata.ratings c) (snd (fst run))
  | [] => True
  end.
Proof.
  intros run. subst run.
  destruct (fetch_and_store_ratings
              (fun _ => ok (encode_batch [Some [[(1, JNull, 80)]]; None]))
              [7; 8; 9] 2 world0) as [[[cs0 e] f] w'] eqn:E.
  cbn [fst snd]. destruct cs0 as [|c cs0]; [exact I|].
  apply (proj2 (ratings_only_grow
                  (fun _ => ok (encode_batch [Some [[(1, JNull, 80)]]; None]))
                  [7; 8; 9] 2 world0 (c :: cs0) e f w' E)).
  now left.
Defined.

End CheckpointWitnesses.

Section Runs.
Import AnilistAPI CollectUserdata.
Variable upstream : nat -> attempt.

Lemma as_user_ids_encoded ids : as_user_ids (JArr (map JNum ids)) = Ok ids.
Proof.
  unfold as_user_ids. induction ids as [|n ids IH]; [reflexivity|].
  cbn [map mapM]. now rewrite IH.
Qed.




(** The degenerate sizes.  A batch size of 0 makes the generator raise
    ZeroDivisionError before any request, and [main] ends by it without
    writing the result; with a negative batch size, or with no user to
    process, no request is made and no checkpoint is yielded, and a run
    resumed from a checkpoint that has no remaining user writes the loaded
    ratings as the result and leaves the checkpoint file as it was. *)
Theorem degenerate_runs :
  forall user_ids batch_size w,
    (batch_size = 0 ->
     fetch_and_store_ratings upstream user_ids batch_size w
     = ([], Raised ZeroDivisionError, [], w)
     /\ forall save mine d,
          snd (run upstream save mine user_ids batch_size d) = Uncaught ZeroDivisionError
          /\ ratings_out (fst (run upstream save mine user_ids batch_size d))
             = ratings_out d)
    /\ (batch_size < 0 \/ (batch_size <> 0 /\ user_ids = []) ->
        fetch_and_store_ratings upstream user_ids batch_size w
        = ([], StopIteration, [], w))
    /\ (forall loaded last d,
          batch_size <> 0 ->
          checkpoint_file_content d = save_checkpoint loaded (JArr []) last ->
          main upstream checkpoint_file batch_size d
          = ({| userid_list_file := userid_list_file d;
                checkpoint_file_content := checkpoint_file_content d;
                ratings_out := Json (JObj loaded) |}, Returned)).
Proof.
  intros user_ids bs w.
  assert (forall l w0, bs < 0 \/ (bs <> 0 /\ l = []) ->
            fetch_and_store_ratings upstream l bs w0 = ([], StopIteration, [], w0))
    as Hnone.
  { intros l w0 H. unfold fetch_and_store_ratings.
    replace (bs =? 0) with false by (symmetry; apply Z.eqb_neq; lia).
    assert (range (ceil_div (Z.of_nat (List.length l)) bs) = []) as ->; [|reflexivity].
    unfold range. destruct H as [H|[H ->]].
    - pose proof (ceil_div_neg (Z.of_nat (List.length l)) bs ltac:(lia) H) as Hq.
      replace (Z.to_nat _) with 0%nat by lia. reflexivity.
    - reflexivity. }
  split; [|split].
  - intros ->. split; [reflexivity|]. intros save mine d. split; reflexivity.
  - apply Hnone.
  - intros loaded last d Hbs Hd. unfold main. rewrite Hd.
    change (load_checkpoint (save_checkpoint loaded (JArr []) last))
      with (Ok (Some (loaded, JArr [], last))).
    cbv iota beta. cbn [as_user_ids mapM]. unfold run.
    rewrite Hnone by (right; split; [assumption|reflexivity]).
    cbn [consume]. rewrite <- Hd. unfold save_results. do 3 f_equal.
    unfold deref. rewrite map_map. cbn [fst snd].
    f_equal. rewrite <- (map_id loaded) at 2. apply map_ext. now intros [k v].
Qed.

End Runs.

(* ================================================================= *)
(** ** collect_userdata.py: resuming from a checkpoint *)

Section Resume.
Import AnilistAPI CollectUserdata.
Variable upstream : nat -> attempt.

Lemma sget_update : forall updated mine k,
  sget (update mine updated) k
  = if dict_mem String.eqb updated k then Some Shared else sget mine k.
Proof.
  unfold update, dict_mem.
  induction updated as [|[k0 v0] updated IH]; intros mine k; [reflexivity|].
  cbn [fold_left fst dict_get]. rewrite IH, sget_sset.
  destruct (dict_get String.eqb updated k); now destruct (String.eqb k0 k).
Qed.

Lemma sget_deref gen : forall mine k,
  sget (deref gen mine) k
  = option_map (fun r => match r with
                         | Own v => v
                         | Shared => JArr (match sget gen k with
                                           | Some l => l
                                           | None => []
                                           end)
                         end) (sget mine k).
Proof.
  unfold deref, sget.
  induction mine as [|[k0 r0] mine IH]; intros k; [reflexivity|].
  cbn [map dict_get fst snd].
  destruct (String.eqb_spec k0 k) as [->|]; [reflexivity|apply IH].
Qed.

Lemma sget_consume save : forall cs mine f k,
  sget (fst (consume save cs mine f)) k
  = if met cs k then Some Shared else sget mine k.
Proof.
  induction cs as [|c cs IH]; intros mine f k; [reflexivity|].
  cbn [consume met existsb]. rewrite IH, sget_update.
  fold (met cs k).
  destruct (met cs k); [now rewrite orb_true_r|]. now rewrite orb_false_r.
Qed.

Lemma sget_own loaded k : sget (own loaded) k = option_map Own (sget loaded k).
Proof.
  unfold own, sget. induction loaded as [|[k0 v0] loaded IH]; [reflexivity|].
  cbn [map dict_get fst snd]. destruct (String.eqb k0 k); [reflexivity|apply IH].
Qed.

(** A resumed run does not merge: the result file holds, under every media
    id that some yielded checkpoint has met, the list the generator ends
    with for it, and nothing of what the checkpoint file held under that
    id; under every other media id it holds what the checkpoint file
    held. *)
Theorem resumed_ratings_are_replaced :
  forall loaded user_ids last batch_size d cs ending final w,
    checkpoint_file_content d
    = save_checkpoint loaded (JArr (map JNum user_ids)) last ->
    fetch_and_store_ratings upstream user_ids batch_size world0
    = (cs, ending, final, w) ->
    (forall e, ending <> Raised e) ->
    exists out,
      ratings_out (fst (main upstream checkpoint_file batch_size d)) = Json (JObj out)
      /\ snd (main upstream checkpoint_file batch_size d) = Returned
      /\ forall k,
           if met cs k
           then exists l, sget final k = Some l /\ sget out k = Some (JArr l)
           else sget out k = sget loaded k.
Proof.
  intros loaded user_ids last bs d cs ending final w Hd Hrun Hend.
  unfold main. rewrite Hd.
  change (load_checkpoint (save_checkpoint loaded (JArr (map JNum user_ids)) last))
    with (Ok (Some (loaded, JArr (map JNum user_ids), last))).
  cbv iota beta. rewrite as_user_ids_encoded. unfold run. rewrite Hrun.
  fold (own loaded).
  destruct (consume true cs (own loaded) (checkpoint_file_content d))
    as [mine' ckpt] eqn:Ec.
  exists (deref final mine').
  assert (ratings_out
            (fst (let d1 := {| userid_list_file := userid_list_file d;
                               checkpoint_file_content := ckpt;
                               ratings_out := ratings_out d |} in
                  match ending with
                  | Raised e => (d1, Uncaught e)
                  | _ => ({| userid_list_file := userid_list_file d;
                             checkpoint_file_content := ckpt;
                             ratings_out := save_results (deref final mine') |},
                          Returned)
                  end)) = Json (JObj (deref final mine'))
          /\ snd (let d1 := {| userid_list_file := userid_list_file d;
                               checkpoint_file_content := ckpt;
                               ratings_out := ratings_out d |} in
                  match ending with
                  | Raised e => (d1, Uncaught e)
                  | _ => ({| userid_list_file := userid_list_file d;
                             checkpoint_file_content := ckpt;
                             ratings_out := save_results (deref final mine') |},
                          Returned)
                  end) = Returned) as [H1 H2].
  { destruct ending as [|e|]; [split; reflexivity| |split; reflexivity].
    now destruct (Hend e). }
  split; [exact H1|]. split; [exact H2|].
  intros k. rewrite sget_deref.
  replace mine' with (fst (consume true cs (own loaded) (checkpoint_file_content d)))
    by now rewrite Ec.
  rewrite sget_consume, sget_own.
  destruct (met cs k) eqn:Hm.
  - unfold met in Hm. apply existsb_exists in Hm as (c & Hc & Hk).
    unfold dict_mem in Hk.
    destruct (dict_get String.eqb (CollectUserdata.ratings c) k) as [l0|] eqn:E0;
      [|discriminate].
    assert (extends (CollectUserdata.ratings c) final) as Hext.
    { unfold fetch_and_store_ratings in Hrun.
      destruct (bs =? 0); [inversion Hrun; subst; destruct Hc|].
      destruct (batch_loop_grows upstream _ _ _ _ _ _ _ _ _ _ Hrun) as (_ & H & _).
      now apply H. }
    destruct (Hext k l0 E0) as (l' & Hl). exists (l0 ++ l')%list.
    split; [exact Hl|]. cbn [option_map]. now rewrite Hl.
  - now destruct (sget loaded k).
Qed.

(** What [main] leaves alone: it never writes the user id file; with a
    user id file as input it never writes the checkpoint file; when it ends
    by an exception it has not written the result file; when the
    checkpoint file is missing or holds text that is not JSON, it returns
    with nothing written at all; and when the checkpoint file does not
    hold text (its bytes cannot be decoded), the UnicodeDecodeError of
    [json.load] is not among the exceptions that [load_checkpoint] catches
    and ends the run, nothing being written either. *)
Theorem main_leaves_the_other_files :
  forall arg batch_size d,
    userid_list_file (fst (main upstream arg batch_size d)) = userid_list_file d
    /\ (arg = userid_list ->
        checkpoint_file_content (fst (main upstream arg batch_size d))
        = checkpoint_file_content d)
    /\ (forall e, snd (main upstream arg batch_size d) = Uncaught e ->
          ratings_out (fst (main upstream arg batch_size d)) = ratings_out d)
    /\ (arg = checkpoint_file ->
        checkpoint_file_content d = Absent \/ checkpoint_file_content d = NotJson ->
        main upstream arg batch_size d = (d, Returned))
    /\ (arg = checkpoint_file ->
        checkpoint_file_content d = NotText ->
        main upstream arg batch_size d = (d, Uncaught UnicodeDecodeError)).
Proof.
  intros arg bs d.
  assert (arg = checkpoint_file -> checkpoint_file_content d = NotText ->
          main upstream arg bs d = (d, Uncaught UnicodeDecodeError)) as Hnt.
  { intros -> H. unfold main. now rewrite H. }
  rewrite <- !and_assoc. split; [|exact Hnt]. rewrite !and_assoc. clear Hnt.
  assert (forall save mine ids,
            userid_list_file (fst (run upstream save mine ids bs d)) = userid_list_file d
            /\ (save = false ->
                checkpoint_file_content (fst (run upstream save mine ids bs d))
                = checkpoint_file_content d)
            /\ (forall e, snd (run upstream save mine ids bs d) = Uncaught e ->
                  ratings_out (fst (run upstream save mine ids bs d)) = ratings_out d))
    as Hrun.
  { intros save mine ids. unfold run.
    destruct (fetch_and_store_ratings upstream ids bs world0) as [[[cs ending] final] w].
    pose proof (consume_unsaved cs mine (checkpoint_file_content d)) as Hu.
    destruct (consume save cs mine (checkpoint_file_content d)) as [mine' ckpt] eqn:Ec.
    assert (save = false -> ckpt = checkpoint_file_content d) as Hck.
    { intros ->. rewrite Ec in Hu. exact Hu. }
    destruct ending; cbn [fst snd userid_list_file checkpoint_file_content ratings_out];
      (split; [reflexivity|split; [exact Hck|]]); intros e0 He;
      solve [discriminate He|reflexivity]. }
  unfold main. destruct arg.
  - destruct (userid_list_file d) as [| | |j] eqn:Ef;
      try (repeat split; solve [reflexivity|discriminate|auto]).
    destruct (as_user_ids j) as [ids|e];
      [|repeat split; solve [reflexivity|discriminate|auto]].
    destruct (Hrun false [] ids) as (H1 & H2 & H3).
    repeat split; solve [auto|discriminate].
  - destruct (load_checkpoint (checkpoint_file_content d))
      as [[[[loaded remaining] lb]|]|e] eqn:E.
    + destruct (as_user_ids remaining) as [ids|e'].
      * destruct (Hrun true (map (fun kv => (fst kv, Own (snd kv))) loaded) ids)
          as (H1 & H2 & H3).
        repeat split; try solve [auto|discriminate].
        intros _ [Ha|Ha]; rewrite Ha in E; discriminate E.
      * repeat split; try solve [reflexivity|discriminate|auto].
        intros _ [Ha|Ha]; rewrite Ha in E; discriminate E.
    + repeat split; solve [reflexivity|discriminate|auto].
    + repeat split; try solve [reflexivity|discriminate|auto].
      intros _ [Ha|Ha]; rewrite Ha in E; discriminate E.
Qed.

End Resume.

(* ================================================================= *)
(** ** collect_ratings.py *)

Section SeedUser.
Import AnilistAPI CollectRatings.
Variable upstream : nat -> attempt.
Variables steps fuel : nat.
Variable set_iter : list json -> list json.

Lemma seed_refused username message :
  upstream 0%nat = refusal message ->
  message = "Private User"%string \/ message = "User not found"%string ->
  fetchCompletedAnime upstream (Some (One username)) None world0
  = (Raise (if String.eqb message "Private User"
            then AnilistPrivateUser [JStr username]
            else AnilistUserNotFound [JStr username]),
     after world0 [[("username1"%string, JStr username)]] []).
Proof.
  intros H Hm. unfold fetchCompletedAnime, _make_request.
  change (Z.to_nat max_retries) with (S 9). cbn [option_map as_list map].
  rewrite (loop_classified upstream _ 9 0 no_locals world0 _ _ _ [] message H
             eq_refl eq_refl eq_refl eq_refl).
  destruct Hm as [-> | ->]; reflexivity.
Qed.

Lemma seed_answered username p :
  upstream 0%nat = ok (encode_batch [p]) ->
  fetchCompletedAnime upstream (Some (One username)) None world0
  = (Ok (keep [] (UserName username, p)),
     after world0 [[("username1"%string, JStr username)]] []).
Proof.
  intros H.
  apply (fetch_names_encoded upstream world0 [(username, p)]); [discriminate|exact H].
Qed.

(** The crawl handles no failure of its seed requests.  A seed user whose
    completed collection comes back as null ends the run by KeyError (the
    batched fetch skips the user, and the caller indexes the mapping with
    the username); a seed user refused as private or not found ends it by
    the matching error; so does a refusal of the planning request that
    follows, as private or as not found.  In each case nothing is written,
    and only the one or two seed requests have been sent. *)
Theorem seed_user_failures_end_the_run :
  forall username n_others,
    (upstream 0%nat = ok (encode_batch [None]) ->
     main upstream steps fuel set_iter username n_others
     = (Crashed KeyError, after world0 [[("username1"%string, JStr username)]] []))
    /\ (upstream 0%nat = refusal "Private User" ->
        main upstream steps fuel set_iter username n_others
        = (Crashed (AnilistPrivateUser [JStr username]),
           after world0 [[("username1"%string, JStr username)]] []))
    /\ (upstream 0%nat = refusal "User not found" ->
        main upstream steps fuel set_iter username n_others
        = (Crashed (AnilistUserNotFound [JStr username]),
           after world0 [[("username1"%string, JStr username)]] []))
    /\ (forall lists,
          upstream 0%nat = ok (encode_batch [Some lists]) ->
          upstream 1%nat = refusal "Private User" ->
          main upstream steps fuel set_iter username n_others
          = (Crashed (AnilistPrivateUser [JStr username]),
             after world0 [[("username1"%string, JStr username)];
                           [("username"%string, JStr username)]] []))
    /\ (forall lists,
          upstream 0%nat = ok (encode_batch [Some lists]) ->
          upstream 1%nat = refusal "User not found" ->
          main upstream steps fuel set_iter username n_others
          = (Crashed (AnilistUserNotFound [JStr username]),
             after world0 [[("username1"%string, JStr username)];
                           [("username"%string, JStr username)]] [])).
Proof.
  intros username n. repeat split.
  - intros H. unfold main. rewrite (seed_answered username None H). reflexivity.
  - intros H. unfold main.
    rewrite (seed_refused username "Private User" H) by now left. reflexivity.
  - intros H. unfold main.
    rewrite (seed_refused username "User not found" H) by now right. reflexivity.
  - intros lists H0 H1. unfold main. rewrite (seed_answered username _ H0).
    unfold keep. cbn [fst snd dict_set dict_get user_eqb].
    rewrite String.eqb_refl.
    unfold fetchPlanningAnime, request_planning, _make_request.
    change (Z.to_nat max_retries) with (S 9).
    rewrite (loop_classified upstream _ 9 0 no_locals
               (after world0 [[("username1"%string, JStr username)]] [])
               _ _ _ [] _ H1 eq_refl eq_refl eq_refl eq_refl).
    reflexivity.
  - intros lists H0 H1. unfold main. rewrite (seed_answered username _ H0).
    unfold keep. cbn [fst snd dict_set dict_get user_eqb].
    rewrite String.eqb_refl.
    unfold fetchPlanningAnime, request_planning, _make_request.
    change (Z.to_nat max_retries) with (S 9).
    rewrite (loop_classified upstream _ 9 0 no_locals
               (after world0 [[("username1"%string, JStr username)]] [])
               _ _ _ [] _ H1 eq_refl eq_refl eq_refl eq_refl).
    reflexivity.
Qed.

End SeedUser.

Section OtherUsers.
Import AnilistAPI CollectRatings.
Variable upstream : nat -> attempt.
Variables steps fuel : nat.
Variable set_iter : list json -> list json.

(** The loop over the animes writes only when there is no anime. *)
Lemma crawl_animes_wrote n_others animes other_users w written w' :
  crawl_animes upstream steps fuel n_others animes other_users w = (Wrote written, w') ->
  animes = [] /\ written = other_users.
Proof.
  destruct animes as [|a animes]; cbn [crawl_animes].
  - intros H. inversion H. auto.
  - destruct a; try discriminate.
    destruct steps as [|s]; [discriminate|]. cbn [add_completers next].
    destruct fuel as [|f]; [discriminate|].
    rewrite next_from_fails. discriminate.
Qed.

Lemma crawl_animes_crashes n_others anime_id rest other_users w :
  steps <> 0%nat -> fuel <> 0%nat ->
  crawl_animes upstream steps fuel n_others (JNum anime_id :: rest) other_users w
  = (Crashed KeyError, w).
Proof.
  intros Hs Hf. destruct steps as [|s]; [congruence|]. destruct fuel as [|f]; [congruence|].
  cbn [crawl_animes add_completers next]. now rewrite next_from_fails.
Qed.

Lemma set_add_ints s m :
  Forall (fun x => exists n, x = JNum n) s ->
  exists s', set_add s (JNum m) = Ok s'
             /\ Forall (fun x => exists n, x = JNum n) s' /\ s' <> [].
Proof.
  intros Hs. unfold set_add. cbn [hashable]. eexists. split; [reflexivity|].
  destruct (existsb (key_eqb (JNum m)) s) eqn:E.
  - split; [assumption|]. destruct s; [discriminate|discriminate].
  - split; [|now destruct s].
    apply Forall_app. split; [assumption|]. constructor; eauto.
Qed.

Lemma set_update_ints : forall xs s,
  Forall (fun x => exists n, x = JNum n) xs ->
  Forall (fun x => exists n, x = JNum n) s ->
  exists s', set_update s xs = Ok s'
             /\ Forall (fun x => exists n, x = JNum n) s'
             /\ (s <> [] \/ xs <> [] -> s' <> []).
Proof.
  induction xs as [|x xs IH]; intros s Hxs Hs; cbn [set_update].
  - exists s. split; [reflexivity|]. split; [assumption|]. intros [H|H]; congruence.
  - inversion Hxs as [|? ? (m & ->) Hxs']; subst.
    destruct (set_add_ints s m Hs) as (s1 & -> & H1 & Hne).
    destruct (IH s1 Hxs' H1) as (s' & E & H' & Hne'). exists s'. split; [exact E|].
    split; [assumption|]. intros _. apply Hne'. now left.
Qed.

(** The keys of the planning dict of a well-formed response are ints. *)
Lemma planning_keys (es : list (Z * json)) : forall acc : list (json * json),
  Forall (fun x => exists n, x = JNum n) (map fst acc) ->
  Forall (fun x => exists n, x = JNum n)
         (map fst (fold_left (fun d e => dict_set key_eqb d (JNum (fst e)) (snd e))
                             es acc)).
Proof.
  induction es as [|[m t] es IH]; intros acc Hacc; cbn [fold_left fst snd];
    [assumption|].
  apply IH. apply Forall_forall. intros k Hk.
  apply dict_set_keys in Hk as [->|Hk]; [eauto|].
  rewrite Forall_forall in Hacc. now apply Hacc.
Qed.

Lemma planning_answered username w p :
  upstream (List.length (sent w)) = ok (encode_planning p) ->
  exists user_planning,
    fetchPlanningAnime upstream None (Some username) w
    = (Ok user_planning, after w [[("username"%string, JStr username)]] [])
    /\ Forall (fun x => exists n, x = JNum n) (map fst user_planning).
Proof.
  intros H. unfold fetchPlanningAnime, request_planning.
  rewrite (make_request_ok upstream _ w _ H), decode_planning_encoded.
  eexists. split; [reflexivity|].
  destruct p as [lists|]; [|constructor]. apply planning_keys. constructor.
Qed.

(** [collect_ratings] never collects a user.  Building the completers
    query raises KeyError at the first [next] of the first anime of the
    search set, before any completers request: so the run writes its output
    only when the search set is empty, and then writes an empty list; and a
    seed user with a completed anime, answered at once on both seed
    requests, ends the run by KeyError after these two requests, whatever
    [n_others] and the order in which the search set is visited. *)
Theorem no_user_is_ever_collected :
  forall username n_others,
    (forall written w,
       main upstream steps fuel set_iter username n_others = (Wrote written, w) ->
       written = [])
    /\ (steps <> 0%nat -> fuel <> 0%nat ->
        forall anime_id rest other_users w,
          crawl_animes upstream steps fuel n_others (JNum anime_id :: rest) other_users w
          = (Crashed KeyError, w))
    /\ (steps <> 0%nat -> fuel <> 0%nat ->
        (forall l x, In x (set_iter l) -> In x l) ->
        (forall l, l <> [] -> set_iter l <> []) ->
        forall lists p,
          List.concat lists <> [] ->
          upstream 0%nat = ok (encode_batch [Some lists]) ->
          upstream 1%nat = ok (encode_planning p) ->
          main upstream steps fuel set_iter username n_others
          = (Crashed KeyError,
             after world0 [[("username1"%string, JStr username)];
                           [("username"%string, JStr username)]] [])).
Proof.
  intros username n. split; [|split].
  - intros written w. unfold main.
    destruct (fetchCompletedAnime upstream _ None world0) as [[completed|] w0];
      [|discriminate].
    destruct (dict_get user_eqb completed _) as [user_completed|]; [|discriminate].
    destruct (fetchPlanningAnime upstream None _ w0) as [[user_planning|] w1];
      [|discriminate].
    destruct (bind _ _) as [search_set|]; [|discriminate].
    intros H. now apply crawl_animes_wrote in H.
  - intros Hs Hf anime_id rest others w. now apply crawl_animes_crashes.
  - intros Hs Hf Hin Hne lists p Hlists H0 H1. unfold main.
    rewrite (seed_answered upstream username _ H0).
    unfold keep. cbn [fst snd dict_set dict_get user_eqb].
    rewrite String.eqb_refl.
    destruct (planning_answered username
                (after world0 [[("username1"%string, JStr username)]] []) p H1)
      as (user_planning & -> & Hkeys).
    rewrite after_after. cbn [app].
    destruct (set_update_ints (map mediaId (map to_entry (List.concat lists))) [])
      as (ids & -> & Hids & Hne1); [|constructor|].
    { apply Forall_forall. intros x Hx.
      apply in_map_iff in Hx as (a & <- & Ha).
      apply in_map_iff in Ha as ([[m t] s] & <- & _). cbn. eauto. }
    cbn [bind].
    destruct (set_update_ints (map fst user_planning) ids Hkeys Hids)
      as (search_set & -> & Hall & Hne2).
    assert (search_set <> []) as Hss.
    { apply Hne2. left. apply Hne1. right.
      destruct (List.concat lists); [congruence|discriminate]. }
    destruct (set_iter search_set) as [|x rest] eqn:Ei; [now apply Hne in Ei|].
    assert (In x search_set) as Hx by (apply Hin; rewrite Ei; now left).
    rewrite Forall_forall in Hall. destruct (Hall x Hx) as (m & ->).
    now apply crawl_animes_crashes.
Qed.

End OtherUsers.


(* ================================================================= *)
(** ** similarity.py: the table of scores *)

Section ScoreTable.
Import Similarity.

Lemma find_app {A} (f : A -> bool) l1 l2 :
  find f (l1 ++ l2) = match find f l1 with
                      | Some y => Some y
                      | None => find f l2
                      end.
Proof.
  induction l1 as [|y l1 IH]; cbn [app find]; [reflexivity|].
  destruct (f y); [reflexivity|exact IH].
Qed.

Lemma last_score_app ts1 ts2 u a :
  last_score (ts1 ++ ts2) u a = match last_score ts2 u a with
                                | Some s => Some s
                                | None => last_score ts1 u a
                                end.
Proof.
  unfold last_score. rewrite rev_app_distr, find_app.
  now destruct (find _ (rev ts2)).
Qed.

Lemma cell_sset dd u0 a0 s u a :
  cell (sset dd u0 (sset (match sget dd u0 with Some r => r | None => [] end) a0 s)) u a
  = if String.eqb u0 u && String.eqb a0 a then Some s else cell dd u a.
Proof.
  unfold cell. rewrite sget_sset.
  destruct (String.eqb_spec u0 u) as [->|]; [|reflexivity].
  rewrite sget_sset. cbn [andb].
  destruct (String.eqb a0 a); [reflexivity|]. now destruct (sget dd u).
Qed.

Lemma add_scores_cell a0 : forall items dd u a,
  cell (add_scores a0 items dd) u a
  = match last_score (map (fun us => (a0, fst us, snd us)) items) u a with
    | Some s => Some s
    | None => cell dd u a
    end.
Proof.
  induction items as [|[u0 s0] items IH]; intros dd u a; [reflexivity|].
  cbn [add_scores map fst snd]. rewrite IH.
  change ((a0, u0, s0) :: map (fun us => (a0, fst us, snd us)) items)
    with ([(a0, u0, s0)] ++ map (fun us => (a0, fst us, snd us)) items)%list.
  rewrite last_score_app.
  destruct (last_score (map _ items) u a); [reflexivity|].
  rewrite cell_sset. unfold last_score. cbn [rev app find fst snd].
  now destruct (String.eqb u0 u && String.eqb a0 a).
Qed.

Lemma add_ratings_cell a0 : forall rs dd,
  exists dd',
    add_ratings a0 (map JObj rs) dd = Ok dd'
    /\ forall u a,
         cell dd' u a
         = match last_score
                   (flat_map (fun r => map (fun us => (a0, fst us, snd us)) (items_of r))
                             (map JObj rs)) u a with
           | Some s => Some s
           | None => cell dd u a
           end.
Proof.
  induction rs as [|items rs IH]; intros dd.
  - exists dd. split; reflexivity.
  - cbn [map add_ratings flat_map items_of].
    destruct (IH (add_scores a0 items dd)) as (dd' & E & H).
    exists dd'. split; [exact E|]. intros u a.
    rewrite H, last_score_app, add_scores_cell.
    now destruct (last_score (flat_map _ (map JObj rs)) u a).
Qed.

Lemma add_animes_cell : forall ratings_data dd,
  is_ratings_file ratings_data ->
  exists dd',
    add_animes ratings_data dd = Ok dd'
    /\ forall u a,
         cell dd' u a
         = match last_score (scores ratings_data) u a with
           | Some s => Some s
           | None => cell dd u a
           end.
Proof.
  induction ratings_data as [|[a0 v] rd IH]; intros dd Hwf.
  - exists dd. split; reflexivity.
  - destruct (Hwf a0 v (or_introl eq_refl)) as (rs & ->).
    cbn [add_animes iter bind].
    destruct (add_ratings_cell a0 rs dd) as (dd1 & E1 & H1). rewrite E1. cbn [bind].
    destruct (IH dd1) as (dd' & E & H).
    { intros k v Hin. apply (Hwf k v). now right. }
    exists dd'. split; [exact E|]. intros u a. rewrite H.
    unfold scores. cbn [flat_map fst snd ratings_of]. rewrite last_score_app.
    fold (scores rd). rewrite H1.
    now destruct (last_score (scores rd) u a).
Qed.

(** The loop that pivots the ratings file into [data_dict] accepts every
    file that holds a list of dicts under each media id, and the table then
    holds, for a user and an anime, the score of the last item of the file
    that names both, and no cell for a pair that no item names. *)
Theorem score_table_holds_the_last_scores :
  forall ratings_data,
    is_ratings_file ratings_data ->
    exists data_dict,
      data_dict_of (JObj ratings_data) = Ok data_dict
      /\ forall user_id anime_id,
           cell data_dict user_id anime_id
           = last_score (scores ratings_data) user_id anime_id.
Proof.
  intros rd Hwf. destruct (add_animes_cell rd [] Hwf) as (dd & E & H).
  exists dd. split; [exact E|]. intros u a. rewrite H.
  now destruct (last_score (scores rd) u a).
Qed.

End ScoreTable.

(* ================================================================= *)
(** ** From collect_userdata.py to similarity.py *)

Section Handoff.
Import AnilistAPI CollectUserdata Similarity.
Variable upstream : nat -> attempt.

Lemma in_slice_all {A} (l : list A) start stop x : In x (slice l start stop) -> In x l.
Proof.
  unfold slice. intros H. apply in_firstn_skipn in H.
  match type of H with In _ (firstn ?k _) => rewrite <- (firstn_skipn k l) end.
  apply in_or_app. now left.
Qed.

(** Every item of the ratings table is a one-entry dict keyed by a user of
    the input list. *)
Lemma batch_loop_items user_ids batch_size total_batches :
  forall nums ratings w cs ending final w',
    batch_loop upstream user_ids batch_size total_batches nums ratings w
    = (cs, ending, final, w') ->
    (forall k x, recorded ratings k x ->
       exists m sc, In m user_ids /\ x = JObj [(str_of_Z m, sc)]) ->
    forall k x, recorded final k x ->
      exists m sc, In m user_ids /\ x = JObj [(str_of_Z m, sc)].
Proof.
  induction nums as [|b nums IH]; intros ratings w cs ending final w' H Hinv.
  - now inversion H; subst.
  - cbn [batch_loop] in H.
    destruct (fetchCompletedAnime upstream None _ w) as [[batch_anime|e] w1] eqn:EF.
    2:{ destruct e; try (now inversion H; subst); apply (IH _ _ _ _ _ _ H Hinv). }
    destruct (store_batch ratings batch_anime) as [ratings'|e] eqn:ES.
    2:{ now inversion H; subst. }
    assert (forall k x, recorded ratings' k x ->
              exists m sc, In m user_ids /\ x = JObj [(str_of_Z m, sc)]) as Hinv'.
    { intros k x Hrec.
      destruct (store_batch_only _ _ _ ES _ _ Hrec) as [Hold|(u & sc & Hu & ->)];
        [now apply (Hinv k)|].
      destruct (fetch_ids_keys _ _ _ _ _ EF u Hu) as (m & -> & Hm).
      exists m, sc. split; [|reflexivity]. now apply in_slice_all in Hm. }
    destruct (_ || _); [|apply (IH _ _ _ _ _ _ H Hinv')].
    destruct (batch_loop upstream user_ids batch_size total_batches nums ratings' w1)
      as [[[cs' ending'] final'] w2] eqn:EL.
    inversion H; subst. apply (IH _ _ _ _ _ _ EL Hinv').
Qed.

Lemma sset_shared (mine : list (string * rating_ref)) k :
  Forall (fun kr => snd kr = Shared) mine ->
  Forall (fun kr => snd kr = Shared) (sset mine k Shared).
Proof.
  unfold sset. induction 1 as [|[k0 r0] mine H0 Hm IH]; cbn [dict_set].
  - now constructor.
  - destruct (String.eqb k0 k); constructor; auto.
Qed.

Lemma consume_shared save : forall cs mine f,
  Forall (fun kr => snd kr = Shared) mine ->
  Forall (fun kr => snd kr = Shared) (fst (consume save cs mine f)).
Proof.
  induction cs as [|c cs IH]; intros mine f Hm; [exact Hm|].
  cbn [consume]. apply IH. unfold update.
  generalize (CollectUserdata.ratings c). intros r. revert mine Hm.
  induction r as [|kv r IHr]; intros mine Hm; [exact Hm|].
  cbn [fold_left]. apply IHr. now apply sset_shared.
Qed.

Lemma obj_list (l : list json) :
  (forall x, In x l -> exists items, x = JObj items) -> exists rs, l = map JObj rs.
Proof.
  induction l as [|x l IH]; intros H; [now exists []|].
  destruct (H x (or_introl eq_refl)) as (items & ->).
  destruct IH as (rs & ->); [intros y Hy; apply H; now right|].
  now exists (items :: rs).
Qed.

(** What [main] holds when every list of it is the generator's own. *)
Lemma deref_shared final : forall mine,
  Forall (fun kr => snd kr = Shared) mine ->
  forall k v, In (k, v) (deref final mine) ->
    v = JArr (match sget final k with Some l => l | None => [] end).
Proof.
  intros mine Hm k v Hin. unfold deref in Hin.
  apply in_map_iff in Hin as ([k0 r0] & E & Hin0).
  rewrite Forall_forall in Hm. specialize (Hm _ Hin0). cbn [fst snd] in *. subst r0.
  now inversion E; subst.
Qed.

Lemma scores_in rd a u s :
  In (a, u, s) (scores rd) ->
  exists v r, In (a, v) rd /\ In r (ratings_of v) /\ In (u, s) (items_of r).
Proof.
  unfold scores. intros H.
  apply in_flat_map in H as ([a0 v] & Hav & H). cbn [fst snd] in H.
  apply in_flat_map in H as (r & Hr & H).
  apply in_map_iff in H as ([u0 s0] & E & Hus). cbn [fst snd] in E.
  inversion E; subst. eauto.
Qed.

(** The result file of a run over a user id list can be loaded into the
    score table: the pivot loop of similarity.py raises nothing on it, and
    every cell of the table belongs to a user of the input list. *)
Theorem result_file_feeds_the_score_table :
  forall user_ids batch_size d d',
    userid_list_file d = Json (JArr (map JNum user_ids)) ->
    main upstream userid_list batch_size d = (d', Returned) ->
    exists ratings_data data_dict,
      ratings_out d' = Json (JObj ratings_data)
      /\ data_dict_of (JObj ratings_data) = Ok data_dict
      /\ forall user_id anime_id s,
           cell data_dict user_id anime_id = Some s ->
           exists m, In m user_ids /\ user_id = str_of_Z m.
Proof.
  intros user_ids bs d d' Hd. unfold main. rewrite Hd, as_user_ids_encoded.
  unfold run.
  destruct (fetch_and_store_ratings upstream user_ids bs world0)
    as [[[cs ending] final] w] eqn:Hrun.
  pose proof (consume_shared false cs [] (checkpoint_file_content d)
                (Forall_nil _)) as Hshared.
  destruct (consume false cs [] (checkpoint_file_content d)) as [mine' ckpt].
  cbn [fst] in Hshared.
  assert (forall k x, recorded final k x ->
            exists m sc, In m user_ids /\ x = JObj [(str_of_Z m, sc)]) as Hitems.
  { unfold fetch_and_store_ratings in Hrun. destruct (bs =? 0).
    - inversion Hrun; subst. intros k x (l & Hl & _). discriminate.
    - apply (batch_loop_items _ _ _ _ _ _ _ _ _ _ Hrun).
      intros k x (l & Hl & _). discriminate. }
  assert (forall k v, In (k, v) (deref final mine') ->
            exists l, v = JArr l /\ forall x, In x l -> recorded final k x) as Hval.
  { intros k v Hin. apply (deref_shared final mine' Hshared) in Hin. subst v.
    eexists. split; [reflexivity|]. intros x Hx.
    destruct (sget final k) as [l|] eqn:E; [|destruct Hx]. now exists l. }
  assert (is_ratings_file (deref final mine')) as Hwf.
  { intros k v Hin. destruct (Hval k v Hin) as (l & -> & Hl).
    destruct (obj_list l) as (rs & ->); [|now exists rs].
    intros x Hx. destruct (Hitems k x (Hl x Hx)) as (m & sc & _ & ->). eauto. }
  intros H.
  assert (d' = {| userid_list_file := userid_list_file d;
                  checkpoint_file_content := ckpt;
                  ratings_out := save_results (deref final mine') |}) as ->.
  { destruct ending; now inversion H. }
  destruct (add_animes_cell (deref final mine') [] Hwf) as (dd & E & Hcell).
  exists (deref final mine'), dd. split; [reflexivity|]. split; [exact E|].
  intros u a s Hs. rewrite Hcell in Hs.
  destruct (last_score (scores (deref final mine')) u a) as [s'|] eqn:El;
    [|discriminate Hs].
  unfold last_score in El.
  destruct (find _ (rev (scores (deref final mine')))) as [[[a1 u1] s1]|] eqn:Ef;
    [|discriminate El].
  apply find_some in Ef as (Hin & Hb). cbn [fst snd] in Hb.
  apply andb_prop in Hb as (Hu & _). apply String.eqb_eq in Hu. subst u1.
  apply in_rev in Hin. apply scores_in in Hin as (v & r & Hv & Hr & Hus).
  destruct (Hval a1 v Hv) as (l & -> & Hl). cbn [ratings_of] in Hr.
  destruct (Hitems a1 r (Hl r Hr)) as (m & sc & Hm & ->).
  cbn [items_of] in Hus. destruct Hus as [Eus|[]]. inversion Eus; subst.
  now exists m.
Qed.

End Handoff.


(* ================================================================= *)
(** ** The further properties at concrete inputs *)

Section FurtherWitnesses.
Import AnilistAPI CollectUserdata.
Local Open Scope string_scope.

Lemma make_request_outcome_witness :
  Some (HTTPError 500)
  = Some (failure_at ((fun _ : nat => Replied {| status_code := 500; body := None |})
                        (List.length (sent world0) + 9)%nat))
  /\ List.length
       (sent (snd (_make_request
                     (fun _ => Replied {| status_code := 500; body := None |})
                     [] world0)))
     = (List.length (sent world0) + 10)%nat.
Proof.
  destruct (proj2 (make_request_outcome
                     (fun _ => Replied {| status_code := 500; body := None |})
                     [] world0) (Some (HTTPError 500)) eq_refl)
    as (H1 & _ & _ & H2).
  split; [exact H1|exact H2].
Defined.

Lemma main_leaves_the_other_files_witness :
  main (fun _ => ok JNull) checkpoint_file 10
       {| userid_list_file := Absent; checkpoint_file_content := NotText;
          ratings_out := Absent |}
  = ({| userid_list_file := Absent; checkpoint_file_content := NotText;
        ratings_out := Absent |}, Uncaught UnicodeDecodeError).
Proof.
  apply (proj2 (proj2 (proj2 (proj2 (main_leaves_the_other_files
                                       (fun _ => ok JNull) checkpoint_file 10
                                       {| userid_list_file := Absent;
                                          checkpoint_file_content := NotText;
                                          ratings_out := Absent |}))))
               eq_refl eq_refl).
Defined.

Lemma connection_failures_after_a_reply_are_retried_witness :
  _make_request
    (fun n => match n with
              | O => Replied {| status_code := 500; body := None |}
              | S O => ConnectionFailed
              | _ => ok JNull
              end) [] world0
  = (Ok JNull, after world0 (repeat [] 3) (backoff 2)).
Proof.
  refine (proj2 (connection_failures_after_a_reply_are_retried
                   (fun n => match n with
                             | O => Replied {| status_code := 500; body := None |}
                             | S O => ConnectionFailed
                             | _ => ok JNull
                             end) [] world0 2 _ _ _) JNull _ _).
  - lia.
  - eexists. reflexivity.
  - intros [|[|i]] Hi; [reflexivity|reflexivity|lia].
  - lia.
  - reflexivity.
Defined.

Lemma planning_titles_witness :
  exists res,
    fetchPlanningAnime
      (fun _ => ok (encode_planning (Some [[(1, JStr "A"); (2, JNull)]; [(1, JStr "B")]])))
      None (Some "seed") world0
    = (Ok res, after world0 [[("username", JStr "seed")]] [])
    /\ dict_get key_eqb res (JNum 1) = Some (JStr "B")
    /\ dict_get key_eqb res (JNum 3) = None.
Proof.
  destruct (planning_titles
              (fun _ => ok (encode_planning
                              (Some [[(1, JStr "A"); (2, JNull)]; [(1, JStr "B")]])))
              world0 (Some [[(1, JStr "A"); (2, JNull)]; [(1, JStr "B")]]) eq_refl)
    as (res & _ & H2 & _ & H4).
  exists res. split; [apply H2|].
  split; [rewrite (H4 _ 1 eq_refl)|rewrite (H4 _ 3 eq_refl)]; reflexivity.
Defined.

Lemma planning_refusals_witness :
  fetchPlanningAnime (fun _ => refusal "Private User") None (Some "seed") world0
  = (Raise (AnilistPrivateUser [JStr "seed"]),
     after world0 [[("username", JStr "seed")]] []).
Proof.
  apply (proj2 (proj1 (proj2 (proj2 (planning_refusals
                                       (fun _ => refusal "Private User") world0)))
                      eq_refl) "seed").
Defined.

Lemma completed_mapping_names_only_the_batch_witness :
  match fetchCompletedAnime
          (fun _ => ok (encode_batch [Some [[(1, JNull, 80)]]; None]))
          None (Some (Many [7; 8])) world0 with
  | (Ok res, _) => NoDup (map fst res)
  | (Raise _, _) => True
  end.
Proof.
  destruct (fetchCompletedAnime
              (fun _ => ok (encode_batch [Some [[(1, JNull, 80)]]; None]))
              None (Some (Many [7; 8])) world0) as [[res|e] w'] eqn:E; [|exact I].
  apply (proj1 (proj1 (completed_mapping_names_only_the_batch
                         (fun _ => ok (encode_batch [Some [[(1, JNull, 80)]]; None]))
                         world0 res w') [7; 8] E)).
Defined.

Lemma completed_argument_edges_witness :
  fetchCompletedAnime (fun _ => ok JNull) None (Some (Many [])) world0
  = (Ok [], after world0 [[]] []).
Proof.
  apply (proj2 (proj2 (proj2 (completed_argument_edges (fun _ => ok JNull) world0)))
               JNull eq_refl).
Defined.


Lemma degenerate_runs_witness :
  fetch_and_store_ratings (fun _ => ok JNull) [1] 0 world0
  = ([], Raised ZeroDivisionError, [], world0).
Proof.
  apply (proj1 (proj1 (degenerate_runs (fun _ => ok JNull) [1] 0 world0) eq_refl)).
Defined.

Lemma resumed_ratings_are_replaced_witness :
  exists out,
    ratings_out
      (fst (main (fun _ => ok (encode_batch [Some [[(1, JNull, 80)]]]))
                 checkpoint_file 1
                 {| userid_list_file := Absent;
                    checkpoint_file_content :=
                      save_checkpoint [("1", JArr [JObj [("5", JNum 70)]]);
                                       ("2", JArr [])]
                                      (JArr (map JNum [7])) (JNum 3);
                    ratings_out := Absent |}))
    = Json (JObj out)
    /\ sget out "1" = Some (JArr [JObj [("7", JNum 80)]])
    /\ sget out "2" = Some (JArr []).
Proof.
  destruct (resumed_ratings_are_replaced
              (fun _ => ok (encode_batch [Some [[(1, JNull, 80)]]]))
              [("1", JArr [JObj [("5", JNum 70)]]); ("2", JArr [])]
              [7] (JNum 3) 1
              {| userid_list_file := Absent;
                 checkpoint_file_content :=
                   save_checkpoint [("1", JArr [JObj [("5", JNum 70)]]);
                                    ("2", JArr [])]
                                   (JArr (map JNum [7])) (JNum 3);
                 ratings_out := Absent |}
              _ _ _ _ eq_refl eq_refl
              ltac:(intros e; discriminate))
    as (out & H1 & _ & H3).
  exists out. split; [exact H1|]. split.
  - destruct (H3 "1") as (l & Hl & Ho). inversion Hl; subst. exact Ho.
  - apply (H3 "2").
Defined.

Import CollectRatings Similarity.

Lemma seed_user_failures_end_the_run_witness :
  main (fun _ => ok (encode_batch [None])) 1 1 (fun l => l) "seed" 100
  = (Crashed KeyError, after world0 [[("username1", JStr "seed")]] []).
Proof.
  apply (proj1 (seed_user_failures_end_the_run (fun _ => ok (encode_batch [None]))
                  1 1 (fun l => l) "seed" 100)).
  reflexivity.
Defined.

Lemma no_user_is_ever_collected_witness :
  main (fun n => match n with
                 | O => ok (encode_batch [Some [[(10, JNull, 80)]]])
                 | _ => ok (encode_planning (Some [[(11, JStr "B")]]))
                 end)
       1 1 (fun l => l) "seed" 100
  = (Crashed KeyError,
     after world0 [[("username1", JStr "seed")]; [("username", JStr "seed")]] []).
Proof.
  apply (proj2 (proj2 (no_user_is_ever_collected
                         (fun n => match n with
                                   | O => ok (encode_batch [Some [[(10, JNull, 80)]]])
                                   | _ => ok (encode_planning (Some [[(11, JStr "B")]]))
                                   end)
                         1 1 (fun l => l) "seed" 100))
               ltac:(discriminate) ltac:(discriminate)
               (fun l x H => H) (fun l H => H)
               [[(10, JNull, 80)]] (Some [[(11, JStr "B")]])
               ltac:(discriminate) eq_refl eq_refl).
Defined.

Lemma score_table_holds_the_last_scores_witness :
  exists data_dict,
    data_dict_of (JObj [("1", JArr [JObj [("7", JNum 80)];
                                    JObj [("7", JNum 90); ("8", JNum 0)]]);
                        ("2", JArr [])])
    = Ok data_dict
    /\ cell data_dict "7" "1" = Some (JNum 90)
    /\ cell data_dict "8" "2" = None.
Proof.
  destruct (score_table_holds_the_last_scores
              [("1", JArr [JObj [("7", JNum 80)];
                           JObj [("7", JNum 90); ("8", JNum 0)]]);
               ("2", JArr [])]) as (dd & E & H).
  - intros k v [E|[E|[]]]; inversion E; subst.
    + now exists [[("7", JNum 80)]; [("7", JNum 90); ("8", JNum 0)]].
    + now exists [].
  - exists dd. split; [exact E|]. now rewrite !H.
Defined.

Lemma result_file_feeds_the_score_table_witness :
  exists ratings_data data_dict,
    ratings_out
      (fst (CollectUserdata.main
              (fun _ => ok (encode_batch [Some [[(1, JNull, 80)]]; None]))
              userid_list 2
              {| userid_list_file := Json (JArr (map JNum [7; 8]));
                 checkpoint_file_content := Absent;
                 ratings_out := Absent |}))
    = Json (JObj ratings_data)
    /\ data_dict_of (JObj ratings_data) = Ok data_dict
    /\ forall user_id anime_id s,
         cell data_dict user_id anime_id = Some s ->
         exists m, In m [7; 8] /\ user_id = str_of_Z m.
Proof.
  apply (result_file_feeds_the_score_table
           (fun _ => ok (encode_batch [Some [[(1, JNull, 80)]]; None]))
           [7; 8] 2
           {| userid_list_file := Json (JArr (map JNum [7; 8]));
              checkpoint_file_content := Absent;
              ratings_out := Absent |} _ eq_refl).
  reflexivity.
Defined.

End FurtherWitnesses.
